(** * Software-planning storage engine: a shallow embedding of [src/storage.ts]

    The development follows the class [Storage]:

    - [Js]      the pieces of the JavaScript runtime the class calls
                (string tests, [Date], [JSON.stringify] / [JSON.parse]);
    - [Fs]      the part of [fs/promises] the class calls, over a tree of
                files and directories, with injected I/O failures and a
                trace of the calls made;
    - [Goal], [Todo], [ImplementationPlan], [StorageData]
                the records of [types.ts], and [Codec] their JSON form;
    - [Storage] the methods of the class, in a state-and-exception monad;
    - the vocabulary of the statements, the scenarios of the examples,
      and the theorems.

    Strings are byte strings: a JavaScript string is represented by its
    UTF-8 encoding, which is also what reaches the disk. *)

From stdpp Require Import base strings gmap list sorting pretty.
From Stdlib Require Import Ascii ZArith Lia.

#[local] Set Warnings "-register-all".
#[local] Open Scope string_scope.
#[local] Open Scope list_scope.

(* ===================================================================== *)
(** * Part I: definitions                                                 *)
(* ===================================================================== *)

Module Js.

(** ** Strings *)

(** [s.includes(sub)] *)
Fixpoint includes (sub s : string) : bool :=
  String.prefix sub s ||
  match s with
  | "" => false
  | String _ s' => includes sub s'
  end.

Fixpoint string_forallb (f : ascii → bool) (s : string) : bool :=
  match s with
  | "" => true
  | String c s' => f c && string_forallb f s'
  end.

Definition code (c : ascii) : N := N_of_ascii c.

Definition in_range (lo hi : N) (c : ascii) : bool :=
  (lo <=? code c)%N && (code c <=? hi)%N.

Definition is_digit (c : ascii) : bool := in_range 48 57 c.

(** the class [[a-zA-Z0-9]] *)
Definition is_alnum (c : ascii) : bool :=
  in_range 97 122 c || in_range 65 90 c || is_digit c.

(** the class [[a-zA-Z0-9\-_]] *)
Definition is_name_char (c : ascii) : bool :=
  is_alnum c || bool_decide (c = "-"%char) || bool_decide (c = "_"%char).

(** [/^[a-zA-Z0-9][a-zA-Z0-9\-_]*$/.test(s)]: without the [m] flag [$]
    matches at the end of the input only. *)
Definition validPlanRegex_test (s : string) : bool :=
  match s with
  | "" => false
  | String c s' => is_alnum c && string_forallb is_name_char s'
  end.

(** ** Objects used as maps

    The names that every object inherits from [Object.prototype]. *)
Definition Object_prototype_names : list string :=
  ["constructor"; "hasOwnProperty"; "isPrototypeOf"; "propertyIsEnumerable";
   "toLocaleString"; "toString"; "valueOf"; "__proto__";
   "__defineGetter__"; "__defineSetter__"; "__lookupGetter__"; "__lookupSetter__"].

(** ** The order of [sort]

    [Array.prototype.sort()] without a comparator orders strings by their
    UTF-16 code units. A string is here the UTF-8 text of the JavaScript
    string, so the code units are read back from the bytes: a sequence of
    one, two or three bytes is one code unit (a surrogate among them, when
    the JavaScript string has a lone one), a sequence of four bytes is a
    surrogate pair. Bytes that are the text of no JavaScript string (a
    stray continuation byte, a sequence cut short or longer than needed, a
    code point past U+10FFFF) are read as U+FFFD, the character a decoder
    puts in their place. *)

(** The six low bits of a continuation byte. *)
Definition is_cont (c : ascii) : bool := in_range 128 191 c.
Definition cont (c : ascii) : N := (code c - 128)%N.

(** The code units of a code point. *)
Definition units (cp : N) : list N :=
  (if cp <? 65536 then [cp]
   else [55296 + (cp - 65536) `div` 1024; 56320 + (cp - 65536) `mod` 1024])%N.

Fixpoint code_units (s : string) : list N :=
  match s with
  | "" => []
  | String b0 r0 =>
      let replaced := 65533%N :: code_units r0 in
      if (code b0 <? 128)%N then code b0 :: code_units r0
      else if in_range 194 223 b0 then
        match r0 with
        | String b1 r1 =>
            if is_cont b1 then ((code b0 - 192) * 64 + cont b1)%N :: code_units r1
            else replaced
        | _ => replaced
        end
      else if in_range 224 239 b0 then
        match r0 with
        | String b1 (String b2 r2) =>
            let cp := (((code b0 - 224) * 64 + cont b1) * 64 + cont b2)%N in
            if is_cont b1 && is_cont b2 && (2048 <=? cp)%N
            then cp :: code_units r2
            else replaced
        | _ => replaced
        end
      else if in_range 240 244 b0 then
        match r0 with
        | String b1 (String b2 (String b3 r3)) =>
            let cp := ((((code b0 - 240) * 64 + cont b1) * 64 + cont b2) * 64 + cont b3)%N in
            if is_cont b1 && is_cont b2 && is_cont b3 && (65536 <=? cp)%N && (cp <=? 1114111)%N
            then units cp ++ code_units r3
            else replaced
        | _ => replaced
        end
      else replaced
  end.

(** The lexicographic order of sequences of code units: a proper prefix
    comes first. *)
Fixpoint units_leb (l1 l2 : list N) : bool :=
  match l1, l2 with
  | [], _ => true
  | _ :: _, [] => false
  | a :: l1', b :: l2' =>
      if (a <? b)%N then true else if (b <? a)%N then false else units_leb l1' l2'
  end.

(** [x <= y] in the order of [sort] *)
Definition code_unit_le (x y : string) : Prop :=
  units_leb (code_units x) (code_units y) = true.

#[global] Instance code_unit_le_dec : RelDecision code_unit_le :=
  λ x y, decide (units_leb (code_units x) (code_units y) = true).

(** [l.sort()]: the result is determined by the order wherever the order
    tells two strings apart, whatever algorithm the engine uses. *)
Definition sort (l : list string) : list string := merge_sort code_unit_le l.

(** ** Numbers and dates *)

(** [n.toString()] for an integer-valued number (plain decimal below
    [10^21]). *)
Definition Number_toString (z : Z) : string := pretty z.

Definition pad (width : nat) (z : Z) : string :=
  let s := pretty z in
  String.concat "" (replicate (width - String.length s) "0") +:+ s.

(** Days since 1970-01-01 to (year, month, day) in the proleptic Gregorian
    calendar. *)
Definition civil_from_days (days : Z) : Z * Z * Z :=
  let z := (days + 719468)%Z in
  let era := (z `div` 146097)%Z in
  let doe := (z `mod` 146097)%Z in
  let yoe := ((doe - doe `div` 1460 + doe `div` 36524 - doe `div` 146096) `div` 365)%Z in
  let doy := (doe - (365 * yoe + yoe `div` 4 - yoe `div` 100))%Z in
  let mp := ((5 * doy + 2) `div` 153)%Z in
  let d := (doy - (153 * mp + 2) `div` 5 + 1)%Z in
  let m := (if mp <? 10 then mp + 3 else mp - 9)%Z in
  let y := (yoe + era * 400 + (if m <=? 2 then 1 else 0))%Z in
  (y, m, d).

(** [new Date(ms).toISOString()], [ms] a time value in milliseconds since
    the epoch, as [Date.now()] and [new Date()] read it from the clock. *)
Definition toISOString (ms : Z) : string :=
  let '(y, m, d) := civil_from_days (ms `div` 86400000) in
  let r := (ms `mod` 86400000)%Z in
  let year :=
    if ((0 <=? y) && (y <=? 9999))%Z then pad 4 y
    else (if (y <? 0)%Z then "-" else "+") +:+ pad 6 (Z.abs y) in
  year +:+ "-" +:+ pad 2 m +:+ "-" +:+ pad 2 d +:+ "T" +:+
  pad 2 (r `div` 3600000) +:+ ":" +:+ pad 2 ((r `div` 60000) `mod` 60) +:+ ":" +:+
  pad 2 ((r `div` 1000) `mod` 60) +:+ "." +:+ pad 3 (r `mod` 1000) +:+ "Z".

(** ** JSON *)

(** JSON values. [JNum] holds the integer-valued numbers, written in plain
    decimal (as JavaScript writes them below [10^21]); a numeric literal
    with a fraction or an exponent is kept as its text in [JNumLit]. *)
Inductive json :=
| JNull
| JBool (b : bool)
| JNum (z : Z)
| JNumLit (lit : string)
| JStr (s : string)
| JArr (items : list json)
| JObj (members : list (string * json)).

Definition dquote : ascii := "034"%char.
Definition backslash : ascii := "092"%char.
Definition nl : string := String "010"%char "".

Definition hex_digit (n : N) : ascii :=
  match n with
  | 0 => "0" | 1 => "1" | 2 => "2" | 3 => "3" | 4 => "4" | 5 => "5"
  | 6 => "6" | 7 => "7" | 8 => "8" | 9 => "9" | 10 => "a" | 11 => "b"
  | 12 => "c" | 13 => "d" | 14 => "e" | _ => "f"
  end%char%N.

(** One character of [QuoteJSONString]. *)
Definition escape_char (c : ascii) : string :=
  if bool_decide (c = dquote) then String backslash (String dquote "")
  else if bool_decide (c = backslash) then String backslash (String backslash "")
  else match code c with
       | 8 => String backslash "b"
       | 9 => String backslash "t"
       | 10 => String backslash "n"
       | 12 => String backslash "f"
       | 13 => String backslash "r"
       | n => if (n <? 32)%N
              then String backslash
                     (String "u" (String "0" (String "0"
                        (String (hex_digit (n `div` 16)) (String (hex_digit (n `mod` 16)) "")))))
              else String c ""
       end%N.

Fixpoint escape (s : string) : string :=
  match s with
  | "" => ""
  | String c s' => escape_char c +:+ escape s'
  end.

Definition quote (s : string) : string :=
  String dquote (escape s +:+ String dquote "").

Fixpoint indent (n : nat) : string :=
  match n with
  | 0 => ""
  | S n' => "  " +:+ indent n'
  end.

(** [SerializeJSONProperty] with a gap of two spaces, at nesting depth
    [ind]. *)
Fixpoint print (ind : nat) (v : json) : string :=
  match v with
  | JNull => "null"
  | JBool b => if b then "true" else "false"
  | JNum z => pretty z
  | JNumLit lit => lit
  | JStr s => quote s
  | JArr [] => "[]"
  | JArr (x :: xs) =>
      "[" +:+ nl +:+ indent (S ind) +:+ print (S ind) x +:+
      (fix rest (l : list json) : string :=
         match l with
         | [] => ""
         | y :: l' => "," +:+ nl +:+ indent (S ind) +:+ print (S ind) y +:+ rest l'
         end) xs +:+
      nl +:+ indent ind +:+ "]"
  | JObj [] => "{}"
  | JObj ((k, x) :: ms) =>
      "{" +:+ nl +:+ indent (S ind) +:+ quote k +:+ ": " +:+ print (S ind) x +:+
      (fix rest (l : list (string * json)) : string :=
         match l with
         | [] => ""
         | (k', y) :: l' =>
             "," +:+ nl +:+ indent (S ind) +:+ quote k' +:+ ": " +:+ print (S ind) y +:+ rest l'
         end) ms +:+
      nl +:+ indent ind +:+ "}"
  end.

(** [JSON.stringify(v, null, 2)] *)
Definition stringify (v : json) : string := print 0 v.

(** The text of an array after its first element, and of an object after
    its first member: the inner loops of [print]. *)
Fixpoint more_elements (ind : nat) (l : list json) : string :=
  match l with
  | [] => ""
  | y :: l' => "," +:+ nl +:+ indent (S ind) +:+ print (S ind) y +:+ more_elements ind l'
  end.

Fixpoint more_members (ind : nat) (l : list (string * json)) : string :=
  match l with
  | [] => ""
  | (k', y) :: l' =>
      "," +:+ nl +:+ indent (S ind) +:+ quote k' +:+ ": " +:+ print (S ind) y +:+
      more_members ind l'
  end.

(** The fuel [parse_value] needs to read a value back. *)
Fixpoint weight (v : json) : nat :=
  match v with
  | JArr xs =>
      S ((fix go (l : list json) : nat :=
            match l with
            | [] => 0
            | x :: l' => S (weight x `max` go l')
            end) xs)
  | JObj ms =>
      S ((fix go (l : list (string * json)) : nat :=
            match l with
            | [] => 0
            | (_, x) :: l' => S (weight x `max` go l')
            end) ms)
  | _ => 1
  end.

Fixpoint elements_weight (l : list json) : nat :=
  match l with
  | [] => 0
  | x :: l' => S (weight x `max` elements_weight l')
  end.

Fixpoint members_weight (l : list (string * json)) : nat :=
  match l with
  | [] => 0
  | (_, x) :: l' => S (weight x `max` members_weight l')
  end.

(** What may follow a value in the text [print] writes: nothing, a comma or
    a line feed. *)
Definition delim (rest : string) : Prop :=
  match rest with
  | "" => True
  | String c _ => c = ","%char ∨ c = "010"%char
  end.

(** The values without [JNumLit]: those [JSON.stringify] writes for records
    whose numbers are integers. *)
Inductive plain : json → Prop :=
| plain_null : plain JNull
| plain_bool b : plain (JBool b)
| plain_num z : plain (JNum z)
| plain_str s : plain (JStr s)
| plain_arr xs : Forall plain xs → plain (JArr xs)
| plain_obj ms : Forall (λ m, plain m.2) ms → plain (JObj ms).

(** *** Parsing *)

Definition is_ws (c : ascii) : bool :=
  match code c with
  | 32 | 9 | 10 | 13 => true
  | _ => false
  end%N.

Fixpoint skip_ws (s : string) : string :=
  match s with
  | "" => ""
  | String c s' => if is_ws c then skip_ws s' else s
  end.

Definition hex_val (c : ascii) : option N :=
  if is_digit c then Some (code c - 48)%N
  else if in_range 97 102 c then Some (code c - 87)%N
  else if in_range 65 70 c then Some (code c - 55)%N
  else None.

Definition hex4 (a b c d : ascii) : option N :=
  x ← hex_val a; y ← hex_val b; z ← hex_val c; w ← hex_val d;
  Some (((x * 16 + y) * 16 + z) * 16 + w)%N.

Definition byte (n : N) : ascii := ascii_of_N n.

(** UTF-8 encoding of a code point (a lone surrogate is encoded like any
    other three-byte code point). *)
Definition utf8 (cp : N) : string :=
  (if cp <? 128 then String (byte cp) ""
   else if cp <? 2048 then
     String (byte (192 + cp `div` 64)) (String (byte (128 + cp `mod` 64)) "")
   else if cp <? 65536 then
     String (byte (224 + cp `div` 4096))
       (String (byte (128 + (cp `div` 64) `mod` 64))
          (String (byte (128 + cp `mod` 64)) ""))
   else
     String (byte (240 + cp `div` 262144))
       (String (byte (128 + (cp `div` 4096) `mod` 64))
          (String (byte (128 + (cp `div` 64) `mod` 64))
             (String (byte (128 + cp `mod` 64)) ""))))%N.

Definition is_high_surrogate (cu : N) : bool := (55296 <=? cu)%N && (cu <=? 56319)%N.
Definition is_low_surrogate (cu : N) : bool := (56320 <=? cu)%N && (cu <=? 57343)%N.
Definition surrogate_pair (hi lo : N) : N :=
  (65536 + (hi - 55296) * 1024 + (lo - 56320))%N.

Definition unescape (e : ascii) : option ascii :=
  if bool_decide (e = dquote) then Some dquote
  else if bool_decide (e = backslash) then Some backslash
  else if bool_decide (e = "/"%char) then Some "/"%char
  else if bool_decide (e = "b"%char) then Some "008"%char
  else if bool_decide (e = "f"%char) then Some "012"%char
  else if bool_decide (e = "n"%char) then Some "010"%char
  else if bool_decide (e = "r"%char) then Some "013"%char
  else if bool_decide (e = "t"%char) then Some "009"%char
  else None.

Definition cons_result (t : string) (p : option (string * string)) :
    option (string * string) :=
  '(u, rest) ← p; Some (t +:+ u, rest).

(** The characters of a string literal after its opening quote: the decoded
    string and the text after the closing quote. *)
Fixpoint parse_chars (s : string) : option (string * string) :=
  match s with
  | "" => None
  | String c r =>
      if bool_decide (c = dquote) then Some ("", r)
      else if bool_decide (c = backslash) then
        match r with
        | "" => None
        | String e r1 =>
            match unescape e with
            | Some d => cons_result (String d "") (parse_chars r1)
            | None =>
                if bool_decide (e = "u"%char) then
                  match r1 with
                  | String h1 (String h2 (String h3 (String h4 r2))) =>
                      match hex4 h1 h2 h3 h4 with
                      | None => None
                      | Some cu =>
                          if is_high_surrogate cu then
                            match r2 with
                            | String b (String u (String g1 (String g2 (String g3 (String g4 r3))))) =>
                                match hex4 g1 g2 g3 g4 with
                                | Some lo =>
                                    if bool_decide (b = backslash) && bool_decide (u = "u"%char)
                                       && is_low_surrogate lo
                                    then cons_result (utf8 (surrogate_pair cu lo)) (parse_chars r3)
                                    else cons_result (utf8 cu) (parse_chars r2)
                                | None => cons_result (utf8 cu) (parse_chars r2)
                                end
                            | _ => cons_result (utf8 cu) (parse_chars r2)
                            end
                          else cons_result (utf8 cu) (parse_chars r2)
                      end
                  | _ => None
                  end
                else None
            end
        end
      else if (code c <? 32)%N then None
      else cons_result (String c "") (parse_chars r)
  end.

Fixpoint span (f : ascii → bool) (s : string) : string * string :=
  match s with
  | "" => ("", "")
  | String c r => if f c then let '(a, b) := span f r in (String c a, b) else ("", s)
  end.

Fixpoint digits_value (acc : N) (s : string) : N :=
  match s with
  | "" => acc
  | String c r => digits_value (acc * 10 + (code c - 48))%N r
  end.

(** A number literal: an optional minus sign; an integer part, that is a
    single 0 or digits that start with a nonzero one; an optional fraction,
    a dot and one digit or more; an optional exponent, e or E, an optional
    sign and one digit or more. [number_body] reads what follows the sign. *)
Definition number_body (neg : bool) (s1 : string) : option (json * string) :=
  let '(ip, s2) := span is_digit s1 in
  if bool_decide (ip = "") then None
  else if String.prefix "0" ip && negb (bool_decide (ip = "0")) then None
  else
    let '(frac, s3) :=
      match s2 with
      | String c r =>
          if bool_decide (c = "."%char)
          then let '(f, r') := span is_digit r in (Some (String c f), r')
          else (None, s2)
      | "" => (None, s2)
      end in
    if bool_decide (frac = Some ".") then None
    else
      let '(ex, s4) :=
        match s3 with
        | String c r =>
            if bool_decide (c = "e"%char) || bool_decide (c = "E"%char) then
              let '(sg, r1) :=
                match r with
                | String g r' =>
                    if bool_decide (g = "+"%char) || bool_decide (g = "-"%char)
                    then (String g "", r') else ("", r)
                | "" => ("", r)
                end in
              let '(e, r2) := span is_digit r1 in
              (Some (String c sg, e), r2)
            else (None, s3)
        | "" => (None, s3)
        end in
      match ex with
      | Some (_, "") => None
      | _ =>
          let sign := if neg then "-" else "" in
          match frac, ex with
          | None, None =>
              let n := Z.of_N (digits_value 0 ip) in
              Some (JNum (if neg then - n else n)%Z, s2)
          | _, _ =>
              Some (JNumLit (sign +:+ ip +:+ default "" frac +:+
                             from_option (λ p, p.1 +:+ p.2) "" ex), s4)
          end
      end.

Definition parse_number (s : string) : option (json * string) :=
  match s with
  | String c r => if bool_decide (c = "-"%char) then number_body true r else number_body false s
  | "" => None
  end.

(** [strip_prefix w s]: what follows [w] in [s], when [s] starts with [w]. *)
Fixpoint strip_prefix (w s : string) : option string :=
  match w with
  | "" => Some s
  | String a w' =>
      match s with
      | String b s' => if bool_decide (a = b) then strip_prefix w' s' else None
      | "" => None
      end
  end.

Definition literal (word : string) (v : json) (s : string) : option (json * string) :=
  r ← strip_prefix word s; Some (v, r).

(** Recursive descent; [fuel] bounds the nesting and the number of
    siblings. [parse_elements] reads the elements of an array up to its
    closing bracket, [parse_members] the members of an object up to its
    closing brace. *)
Fixpoint parse_value (fuel : nat) (s : string) : option (json * string) :=
  match fuel with
  | 0 => None
  | S fuel' =>
      match skip_ws s with
      | "" => None
      | String c r =>
          if bool_decide (c = "{"%char) then
            match skip_ws r with
            | "" => None
            | String c' r' =>
                if bool_decide (c' = "}"%char) then Some (JObj [], r')
                else '(ms, r'') ← parse_members fuel' (String c' r'); Some (JObj ms, r'')
            end
          else if bool_decide (c = "["%char) then
            match skip_ws r with
            | "" => None
            | String c' r' =>
                if bool_decide (c' = "]"%char) then Some (JArr [], r')
                else '(xs, r'') ← parse_elements fuel' (String c' r'); Some (JArr xs, r'')
            end
          else if bool_decide (c = dquote) then
            '(t, r') ← parse_chars r; Some (JStr t, r')
          else if bool_decide (c = "-"%char) || is_digit c then parse_number (String c r)
          else if bool_decide (c = "t"%char) then literal "true" (JBool true) (String c r)
          else if bool_decide (c = "f"%char) then literal "false" (JBool false) (String c r)
          else if bool_decide (c = "n"%char) then literal "null" JNull (String c r)
          else None
      end
  end
with parse_elements (fuel : nat) (s : string) : option (list json * string) :=
  match fuel with
  | 0 => None
  | S fuel' =>
      '(x, r) ← parse_value fuel' s;
      match skip_ws r with
      | "" => None
      | String c r' =>
          if bool_decide (c = ","%char)
          then '(xs, r'') ← parse_elements fuel' r'; Some (x :: xs, r'')
          else if bool_decide (c = "]"%char) then Some ([x], r')
          else None
      end
  end
with parse_members (fuel : nat) (s : string) : option (list (string * json) * string) :=
  match fuel with
  | 0 => None
  | S fuel' =>
      match skip_ws s with
      | "" => None
      | String c r =>
          if bool_decide (c = dquote) then
            '(k, r1) ← parse_chars r;
            match skip_ws r1 with
            | "" => None
            | String c1 r2 =>
                if bool_decide (c1 = ":"%char) then
                  '(x, r3) ← parse_value fuel' r2;
                  match skip_ws r3 with
                  | "" => None
                  | String c3 r4 =>
                      if bool_decide (c3 = ","%char)
                      then '(ms, r5) ← parse_members fuel' r4; Some ((k, x) :: ms, r5)
                      else if bool_decide (c3 = "}"%char) then Some ([(k, x)], r4)
                      else None
                  end
                else None
            end
          else None
      end
  end.

(** [JSON.parse(s)]: [None] is a [SyntaxError]. *)
Definition parse (s : string) : option json :=
  '(v, r) ← parse_value (2 * String.length s + 2) s;
  if bool_decide (skip_ws r = "") then Some v else None.

End Js.

(** ** The records of [types.ts] *)

(** [types.ts] is not among the sources: the fields of the four records are
    those of the object literals in [storage.ts], with the types the data
    model gives them. *)

Module Goal.
(** Modelled from the spec: a goal, [{ id, description, createdAt }], the
    three of them strings. *)
Record t := mk {
  id : string;
  description : string;
  createdAt : string;
}.
End Goal.

Module Todo.
(** Modelled from the spec: a todo. [complexity] is a JavaScript number; the
    model holds the integer-valued ones. An absent [codeExample] is
    [undefined]. *)
Record t := mk {
  id : string;
  title : string;
  description : string;
  complexity : Z;
  codeExample : option string;
  isComplete : bool;
  createdAt : string;
  updatedAt : string;
}.
End Todo.

Module ImplementationPlan.
(** Modelled from the spec: the plan of a goal, with its todos in the order
    of the array. *)
Record t := mk {
  goalId : string;
  todos : list Todo.t;
  updatedAt : string;
}.
End ImplementationPlan.

Module StorageData.
(** Modelled from the spec: the record, [{ goals, plans }]. The two objects
    used as maps are finite maps; the order of their keys is not kept. *)
Record t := mk {
  goals : gmap string Goal.t;
  plans : gmap string ImplementationPlan.t;
}.

(** [{ goals: {}, plans: {} }] *)
Definition empty : t := mk ∅ ∅.
End StorageData.

(** ** What a file holds

    A file holds text, or one of the two reports. The text of a report is not
    modelled: it renders dates with [toLocaleString('zh-CN')], which depends
    on the time zone and the locale data of the host, and percentages with
    floating-point arithmetic. A report file records which report it is and
    the arguments its text is computed from. Both reports start with a
    [#] heading, so neither is JSON. *)
Inductive Content :=
| Text (s : string)
| PlanMarkdown (currentPlan : string) (goals : list Goal.t) (plans : list ImplementationPlan.t)
| TasksMarkdown (currentPlan : string) (plans : list ImplementationPlan.t).

Module Fs.

(** ** The directory tree *)

Inductive Node :=
| File (content : Content)
| Dir (entries : gmap string Node).

(** A path is the list of its components below the working directory. *)
Definition path := list string.

Inductive Kind := KFile | KDir.

Definition kind (n : Node) : Kind :=
  match n with
  | File _ => KFile
  | Dir _ => KDir
  end.

Definition isFile (k : Kind) : bool :=
  match k with KFile => true | KDir => false end.

Definition isDirectory (k : Kind) : bool :=
  match k with KFile => false | KDir => true end.

Fixpoint get (p : path) (n : Node) : option Node :=
  match p with
  | [] => Some n
  | x :: p' =>
      match n with
      | Dir es =>
          match es !! x with
          | Some c => get p' c
          | None => None
          end
      | File _ => None
      end
  end.

(** [put p v n] sets what [p] names to [v] ([None] removes it); [None]
    when the parent of [p] is not an existing directory. *)
Fixpoint put (p : path) (v : option Node) (n : Node) : option Node :=
  match p with
  | [] => v
  | x :: p' =>
      match n with
      | File _ => None
      | Dir es =>
          match p' with
          | [] =>
              Some (Dir (match v with
                         | Some c => <[x:=c]> es
                         | None => delete x es
                         end))
          | _ :: _ =>
              match es !! x with
              | Some c =>
                  match put p' v c with
                  | Some c' => Some (Dir (<[x:=c']> es))
                  | None => None
                  end
              | None => None
              end
          end
      end
  end.

(** [mkdir -p]: creates [p] and its missing ancestors; [None] when a
    component on the way is a file. *)
Fixpoint mkdirp (p : path) (n : Node) : option Node :=
  match n with
  | File _ => None
  | Dir es =>
      match p with
      | [] => Some n
      | x :: p' =>
          match mkdirp p' (default (Dir ∅) (es !! x)) with
          | Some c => Some (Dir (<[x:=c]> es))
          | None => None
          end
      end
  end.

Definition parent (p : path) : path := removelast p.

(** Two paths diverge when they differ at a component both have: neither
    names the other nor something inside it. *)
Fixpoint diverge (p q : path) : bool :=
  match p, q with
  | x :: p', y :: q' => if decide (x = y) then diverge p' q' else true
  | _, _ => false
  end.

Definition is_dir (p : path) (n : Node) : bool :=
  match get p n with
  | Some (Dir _) => true
  | _ => false
  end.

Definition is_file (p : path) (n : Node) : bool :=
  match get p n with
  | Some (File _) => true
  | _ => false
  end.

(** ** The calls of [fs/promises] the class makes

    Each is a partial function of the tree: [None] is a rejected promise
    (ENOENT, ENOTDIR, EISDIR, EEXIST, ENOTEMPTY ...). *)

Definition stat_sem (p : path) (d : Node) : option (Kind * Node) :=
  n ← get p d; Some (kind n, d).

(** [fs.mkdir(p, { recursive: true })] *)
Definition mkdir_sem (p : path) (d : Node) : option (unit * Node) :=
  d' ← mkdirp p d; Some ((), d').

(** [fs.rename(from, to)], as rename(2): a file replaces a file, a
    directory replaces an empty directory, and the parent of [to] must
    exist. *)
Definition rename_sem (from to : path) (d : Node) : option (unit * Node) :=
  n ← get from d;
  let compatible :=
    match n, get to d with
    | _, None => true
    | File _, Some (File _) => true
    | Dir _, Some (Dir es) => bool_decide (es = ∅) || bool_decide (from = to)
    | _, _ => false
    end in
  if compatible then
    d1 ← put from None d;
    d2 ← put to (Some n) d1;
    Some ((), d2)
  else None.

(** [fs.copyFile(src, dst)] *)
Definition copyFile_sem (src dst : path) (d : Node) : option (unit * Node) :=
  match get src d with
  | Some (File c) =>
      if is_dir (parent dst) d && negb (is_dir dst d)
      then d' ← put dst (Some (File c)) d; Some ((), d')
      else None
  | _ => None
  end.

(** [fs.rmdir(p, { recursive: true })] *)
Definition rmdir_sem (p : path) (d : Node) : option (unit * Node) :=
  if is_dir p d then d' ← put p None d; Some ((), d') else None.

(** [fs.readdir(p, { withFileTypes: true })]: the entries with their
    kinds, in some order. *)
Definition readdir_sem (p : path) (d : Node) : option (list (string * Kind) * Node) :=
  match get p d with
  | Some (Dir es) => Some (prod_map id kind <$> map_to_list es, d)
  | _ => None
  end.

(** [fs.readFile(p, 'utf-8')] *)
Definition readFile_sem (p : path) (d : Node) : option (Content * Node) :=
  match get p d with
  | Some (File c) => Some (c, d)
  | _ => None
  end.

(** [fs.writeFile(p, content)] *)
Definition writeFile_sem (p : path) (content : Content) (d : Node) : option (unit * Node) :=
  if is_dir (parent p) d && negb (is_dir p d)
  then d' ← put p (Some (File content)) d; Some ((), d')
  else None.

(** ** The world: the tree, the failures to come, the calls made *)

Inductive Call :=
| Stat (p : path)
| Mkdir (p : path)
| Rename (from to : path)
| CopyFile (src dst : path)
| Rmdir (p : path)
| Readdir (p : path)
| ReadFile (p : path)
| WriteFile (p : path) (content : Content).

(** [faults] says which of the coming calls fail for a reason the tree
    does not show (permissions, a full disk, an I/O error): the next call
    fails when the head is [true]; past the end of the list no call does.
    [trace] lists the calls made, oldest first. *)
Record World := mkWorld {
  disk : Node;
  faults : list bool;
  trace : list Call;
}.

Definition call {A} (c : Call) (f : Node → option (A * Node)) (w : World) :
    option A * World :=
  let w' d := mkWorld d (tail (faults w)) (trace w ++ [c])%list in
  match faults w with
  | true :: _ => (None, w' (disk w))
  | _ =>
      match f (disk w) with
      | Some (a, d') => (Some a, w' d')
      | None => (None, w' (disk w))
      end
  end.

Definition stat (p : path) := call (Stat p) (stat_sem p).
Definition mkdir (p : path) := call (Mkdir p) (mkdir_sem p).
Definition rename (from to : path) := call (Rename from to) (rename_sem from to).
Definition copyFile (src dst : path) := call (CopyFile src dst) (copyFile_sem src dst).
Definition rmdir (p : path) := call (Rmdir p) (rmdir_sem p).
Definition readdir (p : path) := call (Readdir p) (readdir_sem p).
Definition readFile (p : path) := call (ReadFile p) (readFile_sem p).
Definition writeFile (p : path) (content : Content) :=
  call (WriteFile p content) (writeFile_sem p content).

End Fs.

(** ** The records as JSON values

    [encode] is the value [JSON.stringify] walks: the properties in the order
    the object literals of [storage.ts] create them, a property whose value
    is [undefined] left out. [decode] reads a parsed value at the type the
    code gives it; of a repeated key [JSON.parse] keeps the last value. It is
    [None] on a value that does not inhabit the TypeScript type. *)
Module Codec.
Import Js.

(** The value of property [k]: the last member with that key. *)
Fixpoint field (k : string) (ms : list (string * json)) : option json :=
  match ms with
  | [] => None
  | (k', v) :: ms' =>
      match field k ms' with
      | Some v' => Some v'
      | None => if decide (k' = k) then Some v else None
      end
  end.

Definition as_string (v : json) : option string :=
  match v with JStr s => Some s | _ => None end.
Definition as_bool (v : json) : option bool :=
  match v with JBool b => Some b | _ => None end.
Definition as_int (v : json) : option Z :=
  match v with JNum z => Some z | _ => None end.
Definition as_object (v : json) : option (list (string * json)) :=
  match v with JObj ms => Some ms | _ => None end.
Definition as_array (v : json) : option (list json) :=
  match v with JArr xs => Some xs | _ => None end.

Definition encode_goal (g : Goal.t) : json :=
  JObj [("id", JStr (Goal.id g));
        ("description", JStr (Goal.description g));
        ("createdAt", JStr (Goal.createdAt g))].

Definition decode_goal (v : json) : option Goal.t :=
  ms ← as_object v;
  id ← field "id" ms ≫= as_string;
  description ← field "description" ms ≫= as_string;
  createdAt ← field "createdAt" ms ≫= as_string;
  Some (Goal.mk id description createdAt).

Definition encode_todo (t : Todo.t) : json :=
  JObj ([("id", JStr (Todo.id t));
         ("title", JStr (Todo.title t));
         ("description", JStr (Todo.description t));
         ("complexity", JNum (Todo.complexity t))] ++
        match Todo.codeExample t with
        | Some c => [("codeExample", JStr c)]
        | None => []
        end ++
        [("isComplete", JBool (Todo.isComplete t));
         ("createdAt", JStr (Todo.createdAt t));
         ("updatedAt", JStr (Todo.updatedAt t))]).

Definition decode_todo (v : json) : option Todo.t :=
  ms ← as_object v;
  id ← field "id" ms ≫= as_string;
  title ← field "title" ms ≫= as_string;
  description ← field "description" ms ≫= as_string;
  complexity ← field "complexity" ms ≫= as_int;
  codeExample ← match field "codeExample" ms with
                | None => Some None
                | Some c => Some <$> as_string c
                end;
  isComplete ← field "isComplete" ms ≫= as_bool;
  createdAt ← field "createdAt" ms ≫= as_string;
  updatedAt ← field "updatedAt" ms ≫= as_string;
  Some (Todo.mk id title description complexity codeExample isComplete createdAt updatedAt).

Definition encode_plan (p : ImplementationPlan.t) : json :=
  JObj [("goalId", JStr (ImplementationPlan.goalId p));
        ("todos", JArr (encode_todo <$> ImplementationPlan.todos p));
        ("updatedAt", JStr (ImplementationPlan.updatedAt p))].

Definition decode_plan (v : json) : option ImplementationPlan.t :=
  ms ← as_object v;
  goalId ← field "goalId" ms ≫= as_string;
  items ← field "todos" ms ≫= as_array;
  todos ← mapM decode_todo items;
  updatedAt ← field "updatedAt" ms ≫= as_string;
  Some (ImplementationPlan.mk goalId todos updatedAt).

Definition encode_map {A} (enc : A → json) (m : gmap string A) : json :=
  JObj (prod_map id enc <$> map_to_list m).

Definition decode_member {A} (dec : json → option A) (m : string * json) :
    option (string * A) :=
  a ← dec m.2; Some (m.1, a).

Definition decode_map {A} (dec : json → option A) (v : json) : option (gmap string A) :=
  ms ← as_object v;
  l ← mapM (decode_member dec) ms;
  Some (list_to_map (reverse l)).

Definition encode (d : StorageData.t) : json :=
  JObj [("goals", encode_map encode_goal (StorageData.goals d));
        ("plans", encode_map encode_plan (StorageData.plans d))].

Definition decode (v : json) : option StorageData.t :=
  ms ← as_object v;
  goals ← field "goals" ms ≫= decode_map decode_goal;
  plans ← field "plans" ms ≫= decode_map decode_plan;
  Some (StorageData.mk goals plans).

End Codec.


(** ** The class [Storage] *)
Module Storage.

(** What the code throws. A rejected [fs] promise is an [IOError] tagged
    with the call; the others are the [new Error(...)] of the source, the
    wrapped cause kept where the message embeds it. *)
Inductive Error :=
| IOError (c : Fs.Call)
| SyntaxError
| InvalidPlanName (planName : string)
| PlanAlreadyExists (planName : string)
| PlanDoesNotExist (planName : string) (available : list string)
| BackupRequiredFailed (name : string) (cause : Error)
| CopyToMainFailed (cause : Error)
| MigrationFailed (cause : Error)
| NoPlanFound (goalId : string)
| NoTodoFound (todoId : string).

(** How a call ends: it returns, it throws, or it leaves the typed fragment,
    where it is followed no further: [JSON.parse] has produced a value that
    does not inhabit [StorageData], which the type annotation does not
    check, or a name has reached [Object.prototype] instead of the
    record. *)
Inductive result (A : Type) :=
| Ok (a : A)
| Throw (e : Error)
| Untyped.
Arguments Ok {A} a.
Arguments Throw {A} e.
Arguments Untyped {A}.

(** The fields of the class. The working directory is the root of the tree
    of [Fs]; the methods that choose it ([detectProjectRoot],
    [setWorkingDirectory]) are left out. *)
Record t := mk {
  storagePath : Fs.path;
  cursorDir : Fs.path;
  planPath : Fs.path;
  tasksPath : Fs.path;
  data : StorageData.t;
  currentPlan : string;
  baseStorageDir : Fs.path;
}.

(** [this.data = d] and [this.currentPlan = planName] *)
Definition with_data (d : StorageData.t) (s : t) : t :=
  mk (storagePath s) (cursorDir s) (planPath s) (tasksPath s) d
     (currentPlan s) (baseStorageDir s).

Definition with_currentPlan (planName : string) (s : t) : t :=
  mk (storagePath s) (cursorDir s) (planPath s) (tasksPath s) (data s)
     planName (baseStorageDir s).

Record State := mkState {
  self : t;
  world : Fs.World;
}.

(** Methods run in a state-and-exception monad; what a method did to the
    object and to the disk before it threw stays done. *)
Definition M (A : Type) : Type := State → result A * State.

Definition ret {A} (a : A) : M A := λ st, (Ok a, st).

Definition bind {A B} (m : M A) (k : A → M B) : M B :=
  λ st,
    match m st with
    | (Ok a, st') => k a st'
    | (Throw e, st') => (Throw e, st')
    | (Untyped, st') => (Untyped, st')
    end.

Definition throw {A} (e : Error) : M A := λ st, (Throw e, st).

Definition untyped {A} : M A := λ st, (Untyped, st).

(** [try { m } catch (e) { h e }] *)
Definition try_catch {A} (m : M A) (h : Error → M A) : M A :=
  λ st,
    match m st with
    | (Throw e, st') => h e st'
    | r => r
    end.

Definition this : M t := λ st, (Ok (self st), st).

Definition assign (f : t → t) : M unit :=
  λ st, (Ok (), mkState (f (self st)) (world st)).

(** [await] of an [fs] call *)
Definition await {A} (c : Fs.Call) (io : Fs.World → option A * Fs.World) : M A :=
  λ st,
    match io (world st) with
    | (Some a, w) => (Ok a, mkState (self st) w)
    | (None, w) => (Throw (IOError c), mkState (self st) w)
    end.

Declare Scope M_scope.
Delimit Scope M_scope with M.
Notation "x <- m ;; k" := (bind m (λ x, k))
  (at level 100, m at next level, right associativity) : M_scope.
Notation "m ;; k" := (bind m (λ _, k))
  (at level 100, right associativity) : M_scope.
#[local] Open Scope M_scope.

Definition stat (p : Fs.path) : M Fs.Kind := await (Fs.Stat p) (Fs.stat p).
Definition mkdir (p : Fs.path) : M unit := await (Fs.Mkdir p) (Fs.mkdir p).
Definition rename (from to : Fs.path) : M unit :=
  await (Fs.Rename from to) (Fs.rename from to).
Definition copyFile (src dst : Fs.path) : M unit :=
  await (Fs.CopyFile src dst) (Fs.copyFile src dst).
Definition rmdir (p : Fs.path) : M unit := await (Fs.Rmdir p) (Fs.rmdir p).
Definition readdir (p : Fs.path) : M (list (string * Fs.Kind)) :=
  await (Fs.Readdir p) (Fs.readdir p).
Definition readFile (p : Fs.path) : M Content := await (Fs.ReadFile p) (Fs.readFile p).
Definition writeFile (p : Fs.path) (content : Content) : M unit :=
  await (Fs.WriteFile p content) (Fs.writeFile p content).

(** [for (const x of l) { body x }] *)
Fixpoint for_of {A} (l : list A) (body : A → M unit) : M unit :=
  match l with
  | [] => ret ()
  | x :: l' => body x ;; for_of l' body
  end.

(** [path.join(dir, name)] for a single component [name] *)
Definition join (dir : Fs.path) (name : string) : Fs.path := (dir ++ [name])%list.

(** [path.basename(p)] *)
Definition basename (p : Fs.path) : string := default "" (last p).

(** [Object.values(o)] *)
Definition Object_values {A} (o : gmap string A) : list A := snd <$> map_to_list o.

(** *** Names and paths *)

Definition sanitizePlanName (planName : string) : string :=
  let validPlanRegex := Js.validPlanRegex_test in
  if bool_decide (planName = "") || negb (validPlanRegex planName) then "main"
  else if Js.includes ".." planName || Js.includes "/" planName
          || Js.includes (String Js.backslash "") planName
          || Js.includes (String "000"%char "") planName
  then "main"
  else planName.

Definition updatePaths (s : t) : t :=
  let safePlanName := sanitizePlanName (currentPlan s) in
  let currentPlan' :=
    if bool_decide (safePlanName ≠ currentPlan s) then safePlanName else currentPlan s in
  let baseStorageDir' := [".cursor"; "softwareplan"] in
  let cursorDir' := join baseStorageDir' currentPlan' in
  {| storagePath := join cursorDir' "data.json";
     cursorDir := cursorDir';
     planPath := join cursorDir' "plan.md";
     tasksPath := join cursorDir' "tasks.md";
     data := data s;
     currentPlan := currentPlan';
     baseStorageDir := baseStorageDir' |}.

(** [new Storage()] *)
Definition new : t :=
  updatePaths
    {| storagePath := []; cursorDir := []; planPath := []; tasksPath := [];
       data := StorageData.empty; currentPlan := "main"; baseStorageDir := [] |}.

Definition getCurrentPlan : M string := s <- this ;; ret (currentPlan s).

(** *** The legacy layout and its migration *)

Definition isV1Project : M bool :=
  s <- this ;;
  let v1DataPath := join (baseStorageDir s) "data.json" in
  try_catch (stats <- stat v1DataPath ;; ret (Fs.isFile stats)) (λ _, ret false).

Record MigrateFile := mkFile {
  source : Fs.path;
  name : string;
  required : bool;
}.

Record BackupOperation := mkOp {
  from : Fs.path;
  to : Fs.path;
}.

Definition rollbackMigration (backupOperations : list BackupOperation)
    (mainPlanDir : Fs.path) : M unit :=
  try_catch
    (try_catch (rmdir mainPlanDir) (λ _, ret ()) ;;
     for_of backupOperations (λ operation,
       try_catch (rename (to operation) (from operation)) (λ _, ret ())))
    (λ _, ret ()).

(** The body of the first loop of [migrateV1ToV2]: it returns the array
    [backupOperations], with the operation pushed when the file was moved. *)
Definition backupFile (backupDir : Fs.path) (file : MigrateFile)
    (backupOperations : list BackupOperation) : M (list BackupOperation) :=
  try_catch
    (let backupPath := join backupDir (name file) in
     stat (source file) ;;
     rename (source file) backupPath ;;
     ret (backupOperations ++ [mkOp (source file) backupPath]))
    (λ error,
       if required file then throw (BackupRequiredFailed (name file) error)
       else ret backupOperations).

Fixpoint backupFiles (backupDir : Fs.path) (filesToMigrate : list MigrateFile)
    (backupOperations : list BackupOperation) : M (list BackupOperation) :=
  match filesToMigrate with
  | [] => ret backupOperations
  | file :: rest =>
      backupOperations' <- backupFile backupDir file backupOperations ;;
      backupFiles backupDir rest backupOperations'
  end.

(** The body of the second loop. *)
Definition copyToMain (backupOperations : list BackupOperation) (mainPlanDir : Fs.path)
    (operation : BackupOperation) : M unit :=
  try_catch
    (let fileName := basename (to operation) in
     let targetPath := join mainPlanDir fileName in
     copyFile (to operation) targetPath)
    (λ error,
       rollbackMigration backupOperations mainPlanDir ;;
       throw (CopyToMainFailed error)).

Fixpoint copyFiles (backupOperations : list BackupOperation) (mainPlanDir : Fs.path)
    (todo : list BackupOperation) : M unit :=
  match todo with
  | [] => ret ()
  | operation :: rest =>
      copyToMain backupOperations mainPlanDir operation ;;
      copyFiles backupOperations mainPlanDir rest
  end.

Definition migrateV1ToV2 : M unit :=
  s <- this ;;
  let v1DataPath := join (baseStorageDir s) "data.json" in
  let v1PlanPath := join (baseStorageDir s) "plan.md" in
  let v1TasksPath := join (baseStorageDir s) "tasks.md" in
  let backupDir := join (baseStorageDir s) "v1-backup" in
  let mainPlanDir := join (baseStorageDir s) "main" in
  let filesToMigrate :=
    [mkFile v1DataPath "data.json" true;
     mkFile v1PlanPath "plan.md" false;
     mkFile v1TasksPath "tasks.md" false] in
  try_catch
    (mkdir backupDir ;;
     mkdir mainPlanDir ;;
     backupOperations <- backupFiles backupDir filesToMigrate [] ;;
     copyFiles backupOperations mainPlanDir backupOperations)
    (λ error, throw (MigrationFailed error)).

(** Lines 374 to 377 of [initialize]. *)
Definition migrateIfV1 : M unit :=
  isV1 <- isV1Project ;;
  if isV1 : bool then migrateV1ToV2 else ret ().

(** *** Plans *)

Definition listPlans : M (list string) :=
  s <- this ;;
  try_catch
    (entries <- readdir (baseStorageDir s) ;;
     let plans :=
       Js.sort
         (fst <$> filter (λ entry, Fs.isDirectory entry.2 ∧ entry.1 ≠ "v1-backup") entries) in
     ret plans)
    (λ _, ret []).

(** *** Loading and saving *)

(** [JSON.parse(content)] at type [StorageData] *)
Definition JSON_parse (content : Content) : M StorageData.t :=
  match content with
  | Text s =>
      match Js.parse s with
      | None => throw SyntaxError
      | Some v =>
          match Codec.decode v with
          | Some d => ret d
          | None => untyped
          end
      end
  | _ => throw SyntaxError
  end.

(** [JSON.stringify(data, null, 2)] *)
Definition JSON_stringify (d : StorageData.t) : Content :=
  Text (Js.stringify (Codec.encode d)).

Definition generateMarkdownFiles : M unit :=
  s <- this ;;
  let goals := Object_values (StorageData.goals (data s)) in
  let plans := Object_values (StorageData.plans (data s)) in
  if bool_decide (length goals = 0) then ret ()
  else
    writeFile (planPath s) (PlanMarkdown (currentPlan s) goals plans) ;;
    writeFile (tasksPath s) (TasksMarkdown (currentPlan s) plans).

Definition save : M unit :=
  try_catch
    (s <- this ;;
     writeFile (storagePath s) (JSON_stringify (data s)) ;;
     generateMarkdownFiles)
    (λ error, throw error).

Definition set_data (d : StorageData.t) : M unit := assign (with_data d).

Definition initialize : M unit :=
  try_catch
    (set_data StorageData.empty ;;
     migrateIfV1 ;;
     s <- this ;;
     mkdir (cursorDir s) ;;
     try_catch
       (content <- readFile (storagePath s) ;;
        d <- JSON_parse content ;;
        set_data d)
       (λ readError, save))
    (λ error, throw error).

(** *** Creating and selecting plans

    The time values a method reads from the clock, with [Date.now()] and
    [new Date()], are arguments, in the order of the reads. *)

Definition createNewPlan (planName : string) (goal : option string)
    (now_id now_createdAt now_updatedAt : Z) : M unit :=
  let sanitizedName := sanitizePlanName planName in
  if bool_decide (sanitizedName ≠ planName) then throw (InvalidPlanName planName)
  else
    s <- this ;;
    let planDir := join (baseStorageDir s) planName in
    (* an error of [fs.stat] is dropped: its message names the path, and
       holds the words "already exists" only if the path of the working
       directory does *)
    try_catch
      (stat planDir ;; throw (PlanAlreadyExists planName))
      (λ error,
         match error with
         | PlanAlreadyExists _ => throw error
         | _ => ret ()
         end) ;;
    mkdir planDir ;;
    let emptyData := StorageData.empty in
    let emptyData :=
      match goal with
      | Some goal =>
          if bool_decide (goal ≠ "") then
            let goalObj :=
              Goal.mk (Js.Number_toString now_id) goal (Js.toISOString now_createdAt) in
            let plan :=
              ImplementationPlan.mk (Goal.id goalObj) [] (Js.toISOString now_updatedAt) in
            StorageData.mk
              (<[Goal.id goalObj := goalObj]> (StorageData.goals emptyData))
              (<[Goal.id goalObj := plan]> (StorageData.plans emptyData))
          else emptyData
      | None => emptyData
      end in
    writeFile (join planDir "data.json") (JSON_stringify emptyData).

Definition set_currentPlan (planName : string) : M unit :=
  assign (with_currentPlan planName).

Definition setActivePlan (planName : string) : M unit :=
  let sanitizedName := sanitizePlanName planName in
  if bool_decide (sanitizedName ≠ planName) then throw (InvalidPlanName planName)
  else
    plans <- listPlans ;;
    if bool_decide (planName ∈ plans) then
      set_currentPlan planName ;;
      assign updatePaths ;;
      initialize
    else throw (PlanDoesNotExist planName plans).

(** *** Goals, plans and todos *)

Definition set_goals (f : gmap string Goal.t → gmap string Goal.t) : M unit :=
  s <- this ;;
  set_data (StorageData.mk (f (StorageData.goals (data s))) (StorageData.plans (data s))).

Definition set_plans
    (f : gmap string ImplementationPlan.t → gmap string ImplementationPlan.t) : M unit :=
  s <- this ;;
  set_data (StorageData.mk (StorageData.goals (data s)) (f (StorageData.plans (data s)))).

Definition createGoal (description : string) (now_id now_createdAt : Z) : M Goal.t :=
  let goal := Goal.mk (Js.Number_toString now_id) description (Js.toISOString now_createdAt) in
  set_goals <[Goal.id goal := goal]> ;;
  save ;;
  ret goal.

(** [this.data.goals[id] || null]. A name that the object does not hold is
    looked up in [Object.prototype]: for the names found there the value is
    a function, or the prototype itself, and no goal. *)
Definition getGoal (id : string) : M (option Goal.t) :=
  s <- this ;;
  match StorageData.goals (data s) !! id with
  | Some goal => ret (Some goal)
  | None => if bool_decide (id ∈ Js.Object_prototype_names) then untyped else ret None
  end.

Definition getAllGoals : M (list Goal.t) :=
  s <- this ;; ret (Object_values (StorageData.goals (data s))).

(** [this.data.plans[goalId] = plan] under the name "__proto__" replaces
    the prototype of [data.plans] and adds no entry: from there on the
    object is no map of plans. *)
Definition createPlan (goalId : string) (now_updatedAt : Z) : M ImplementationPlan.t :=
  let plan := ImplementationPlan.mk goalId [] (Js.toISOString now_updatedAt) in
  if bool_decide (goalId = "__proto__") then untyped
  else
    set_plans <[goalId := plan]> ;;
    save ;;
    ret plan.

(** [this.data.plans[goalId] || null], with the same lookup as [getGoal]. *)
Definition getPlan (goalId : string) : M (option ImplementationPlan.t) :=
  s <- this ;;
  match StorageData.plans (data s) !! goalId with
  | Some plan => ret (Some plan)
  | None => if bool_decide (goalId ∈ Js.Object_prototype_names) then untyped else ret None
  end.

(** [Omit<Todo, 'id' | 'isComplete' | 'createdAt' | 'updatedAt'>] *)
Record TodoFields := mkFields {
  title : string;
  description : string;
  complexity : Z;
  codeExample : option string;
}.

(** [plan] is the object held in [data.plans] under [goalId]: what the
    methods below do to it, they do to the record. *)
Definition addTodo (goalId : string) (fields : TodoFields)
    (now_id now_createdAt now_updatedAt now_plan : Z) : M Todo.t :=
  plan <- getPlan goalId ;;
  match plan with
  | None => throw (NoPlanFound goalId)
  | Some plan =>
      let todo :=
        {| Todo.id := Js.Number_toString now_id;
           Todo.title := title fields;
           Todo.description := description fields;
           Todo.complexity := complexity fields;
           Todo.codeExample := codeExample fields;
           Todo.isComplete := false;
           Todo.createdAt := Js.toISOString now_createdAt;
           Todo.updatedAt := Js.toISOString now_updatedAt |} in
      let plan := ImplementationPlan.mk (ImplementationPlan.goalId plan)
                    (ImplementationPlan.todos plan ++ [todo])%list
                    (ImplementationPlan.updatedAt plan) in
      let plan := ImplementationPlan.mk (ImplementationPlan.goalId plan)
                    (ImplementationPlan.todos plan)
                    (Js.toISOString now_plan) in
      set_plans <[goalId := plan]> ;;
      save ;;
      ret todo
  end.

Definition removeTodo (goalId : string) (todoId : string) (now_plan : Z) : M unit :=
  plan <- getPlan goalId ;;
  match plan with
  | None => throw (NoPlanFound goalId)
  | Some plan =>
      let plan := ImplementationPlan.mk (ImplementationPlan.goalId plan)
                    (filter (λ todo, Todo.id todo ≠ todoId) (ImplementationPlan.todos plan))
                    (ImplementationPlan.updatedAt plan) in
      let plan := ImplementationPlan.mk (ImplementationPlan.goalId plan)
                    (ImplementationPlan.todos plan)
                    (Js.toISOString now_plan) in
      set_plans <[goalId := plan]> ;;
      save
  end.

Definition updateTodoStatus (goalId : string) (todoId : string) (isComplete : bool)
    (now_todo now_plan : Z) : M Todo.t :=
  plan <- getPlan goalId ;;
  match plan with
  | None => throw (NoPlanFound goalId)
  | Some plan =>
      match list_find (λ t, Todo.id t = todoId) (ImplementationPlan.todos plan) with
      | None => throw (NoTodoFound todoId)
      | Some (i, todo) =>
          let todo :=
            {| Todo.id := Todo.id todo;
               Todo.title := Todo.title todo;
               Todo.description := Todo.description todo;
               Todo.complexity := Todo.complexity todo;
               Todo.codeExample := Todo.codeExample todo;
               Todo.isComplete := isComplete;
               Todo.createdAt := Todo.createdAt todo;
               Todo.updatedAt := Js.toISOString now_todo |} in
          let plan := ImplementationPlan.mk (ImplementationPlan.goalId plan)
                        (<[i := todo]> (ImplementationPlan.todos plan))
                        (Js.toISOString now_plan) in
          set_plans <[goalId := plan]> ;;
          save ;;
          ret todo
      end
  end.

Definition getTodos (goalId : string) : M (list Todo.t) :=
  plan <- getPlan goalId ;;
  ret (from_option ImplementationPlan.todos [] plan).

End Storage.

(** ** The vocabulary of the statements *)

Section Vocabulary.
Import Storage Fs.
#[local] Open Scope M_scope.

(** The next call meets no failure from outside. *)
Definition no_fault (w : World) : Prop := head (faults w) ≠ Some true.

(** [frame R m]: a run of [m], however it ends, relates the state before
    to the state after by [R]. *)
Definition frame (R : relation State) {A} (m : M A) : Prop :=
  ∀ st r st', m st = (r, st') → R st st'.

(** The plan names that hold "..", "/", a backslash or a null character. *)
Definition unsafe (planName : string) : Prop :=
  Js.includes ".." planName = true ∨ Js.includes "/" planName = true ∨
  Js.includes (String Js.backslash "") planName = true ∨
  Js.includes (String "000"%char "") planName = true.

(** The instance is the same before and after. *)
Definition same_self : relation State := λ st st', self st' = self st.

(** The paths are those of the current plan. *)
Definition wf (s : t) : Prop := updatePaths s = s.

(** What [save] has done when it returns or throws. *)
Inductive save_outcome (st st' : State) : result unit → Prop :=
| save_failed c :
    self st' = self st →
    (∀ q, diverge (cursorDir (self st)) q = true →
          get q (disk (world st')) = get q (disk (world st))) →
    save_outcome st st' (Throw (IOError c))
| save_done :
    self st' = self st →
    (∀ q, diverge (cursorDir (self st)) q = true →
          get q (disk (world st')) = get q (disk (world st))) →
    get (storagePath (self st)) (disk (world st')) =
      Some (File (JSON_stringify (data (self st)))) →
    is_dir (cursorDir (self st)) (disk (world st')) = true →
    save_outcome st st' (Ok ()).

(** The directory of the current plan exists, and none of the three files
    [save] writes is a directory. *)
Definition can_save (st : State) : Prop :=
  wf (self st) ∧ faults (world st) = [] ∧
  is_dir (cursorDir (self st)) (disk (world st)) = true ∧
  is_dir (storagePath (self st)) (disk (world st)) = false ∧
  is_dir (planPath (self st)) (disk (world st)) = false ∧
  is_dir (tasksPath (self st)) (disk (world st)) = false.

(** The todo [addTodo] builds. *)
Definition new_todo (fields : TodoFields) (now_id now_createdAt now_updatedAt : Z) : Todo.t :=
  Todo.mk (Js.Number_toString now_id) (title fields) (description fields)
          (complexity fields) (codeExample fields) false
          (Js.toISOString now_createdAt) (Js.toISOString now_updatedAt).

(** The record with the plan of [goalId] replaced. *)
Definition with_plan (goalId : string) (plan : ImplementationPlan.t) (st : State) : State :=
  mkState
    (with_data (StorageData.mk (StorageData.goals (data (self st)))
                               (<[goalId := plan]> (StorageData.plans (data (self st)))))
               (self st))
    (world st).

(** The plan the record holds for [goalId]. *)
Definition plan_of (goalId : string) (st : State) : option ImplementationPlan.t :=
  StorageData.plans (data (self st)) !! goalId.

(** The ids of the todos of a plan, in order. *)
Definition ids (plan : ImplementationPlan.t) : list string :=
  Todo.id <$> ImplementationPlan.todos plan.

(** What [q] names is the same before and after. *)
Definition same_at (q : path) : relation State :=
  λ st st', get q (disk (world st')) = get q (disk (world st)).

(** The calls a run makes are added to the trace, and each takes one
    element of [faults]. *)
Definition calls_added : relation State :=
  λ st st', ∃ calls, trace (world st') = trace (world st) ++ calls ∧
                     faults (world st') = drop (length calls) (faults (world st)).

(** The operation [backupFile] records for [file]. *)
Definition op_of (dir : path) (file : MigrateFile) : BackupOperation :=
  mkOp (source file) (join dir (name file)).

(** The three ways the backup of one file ends. *)
Inductive backup_outcome (dir : path) (file : MigrateFile) (ops : list BackupOperation)
    (st st' : State) : result (list BackupOperation) → Prop :=
| backup_moved :
    rename_sem (source file) (join dir (name file)) (disk (world st)) =
      Some ((), disk (world st')) →
    backup_outcome dir file ops st st' (Ok (ops ++ [op_of dir file]))
| backup_skipped :
    required file = false → disk (world st') = disk (world st) →
    backup_outcome dir file ops st st' (Ok ops)
| backup_failed cause :
    required file = true → disk (world st') = disk (world st) →
    backup_outcome dir file ops st st' (Throw (BackupRequiredFailed (name file) cause)).

(** The calls of [rollbackMigration], in order. *)
Definition rollback_calls (main : path) (ops : list BackupOperation) : list Call :=
  Rmdir main :: ((λ op, Rename (to op) (from op)) <$> ops).

(** The operation that moves the legacy file [n] to the backup directory. *)
Definition mv (base : path) (n : string) : BackupOperation :=
  mkOp (join base n) (join (join base "v1-backup") n).

(** The loop of [rollbackMigration]. *)
Definition restore (ops : list BackupOperation) : M unit :=
  for_of ops (λ operation,
    try_catch (Storage.rename (to operation) (from operation)) (λ _, ret ())).

(** The legacy file [n] is in the backup directory, its place in the base
    directory is free, and the backup holds what the place held in [d0]. *)
Definition moved (base : path) (d0 d : Node) (n : string) : Prop :=
  is_Some (get (join (join base "v1-backup") n) d) ∧
  get (join base n) d = None ∧
  get (join (join base "v1-backup") n) d = get (join base n) d0.

(** The names of the files of the legacy layout. *)
Definition legacy_names : list string := ["data.json"; "plan.md"; "tasks.md"].

(** The calls a run adds to the trace all satisfy [P]. *)
Definition calls_in (P : Call → Prop) : relation State :=
  λ st st', ∃ calls, trace (world st') = trace (world st) ++ calls ∧ Forall P calls.

(** The calls other than [rmdir]. *)
Definition not_rmdir (c : Call) : Prop :=
  match c with Rmdir _ => False | _ => True end.

(** No record file of the legacy layout lies in the base directory. *)
Definition no_legacy (st : Storage.State) : Prop :=
  Fs.get (Storage.join (Storage.baseStorageDir (Storage.self st)) "data.json")
    (Fs.disk (Storage.world st)) = None.

(** The record file of plan [name] holds the record [d]. *)
Definition record_at (name : string) (d : StorageData.t) (st : Storage.State) : Prop :=
  Fs.get (Storage.join (Storage.join (Storage.baseStorageDir (Storage.self st)) name)
            "data.json")
    (Fs.disk (Storage.world st)) = Some (Fs.File (Storage.JSON_stringify d)).

(** From [st] to [st']: the paths and the plan selected are the same, no
    failure is to come, and the tree differs inside the directory of the
    current plan only. *)
Definition local_activity (st st' : Storage.State) : Prop :=
  (∃ d', Storage.self st' = Storage.with_data d' (Storage.self st)) ∧
  Fs.faults (Storage.world st') = [] ∧
  ∀ q, Fs.diverge (Storage.cursorDir (Storage.self st)) q = true →
       Fs.get q (Fs.disk (Storage.world st')) = Fs.get q (Fs.disk (Storage.world st)).

(** The day of the 400-year era, from year of era, month and day. *)
Definition day_of_era (yoe m d : Z) : Z :=
  let mp := (if m <? 3 then m + 9 else m - 3)%Z in
  let doy := ((153 * mp + 2) `div` 5 + d - 1)%Z in
  (yoe * 365 + yoe `div` 4 - yoe `div` 100 + doy)%Z.

(** The inverse of [civil_from_days]. *)
Definition days_from_civil (ymd : Z * Z * Z) : Z :=
  let '(y, m, d) := ymd in
  let y := (if m <=? 2 then y - 1 else y)%Z in
  let era := (y `div` 400)%Z in
  let yoe := (y `mod` 400)%Z in
  (era * 146097 + day_of_era yoe m d - 719468)%Z.

(** [civil_from_days] on the days of one era. *)
Definition civil_of_era (doe : Z) : Z * Z * Z :=
  let yoe := ((doe - doe `div` 1460 + doe `div` 36524 - doe `div` 146096) `div` 365)%Z in
  let doy := (doe - (365 * yoe + yoe `div` 4 - yoe `div` 100))%Z in
  let mp := ((5 * doy + 2) `div` 153)%Z in
  let d := (doy - (153 * mp + 2) `div` 5 + 1)%Z in
  let m := (if mp <? 10 then mp + 3 else mp - 9)%Z in
  (yoe, m, d).

(** On day [doe] of an era, [civil_of_era] gives a year of the era, a month
    and a day in their ranges, from which [day_of_era] gives [doe] back. *)
Definition era_day_ok (doe : Z) : bool :=
  let '(yoe, m, d) := civil_of_era doe in
  ((0 <=? yoe) && (yoe <? 400) && (1 <=? m) && (m <=? 12) && (1 <=? d) && (d <=? 31) &&
   (day_of_era yoe m d =? doe))%Z.

(** [f] holds of the [n] integers from [z] on. *)
Fixpoint range_forallb (f : Z → bool) (n : nat) (z : Z) : bool :=
  match n with
  | O => true
  | S n => f z && range_forallb f n (z + 1)
  end.

(** [pad w z] has [w] characters. *)
Definition pad_length_ok (w : nat) (z : Z) : bool :=
  bool_decide (String.length (Js.pad w z) = w).

(** The year in [toISOString]. *)
Definition year_text (y : Z) : string :=
  if ((0 <=? y) && (y <=? 9999))%Z then Js.pad 4 y
  else (if (y <? 0)%Z then "-" else "+") +:+ Js.pad 6 (Z.abs y).

(** What follows the year in [toISOString]. *)
Definition time_text (m d h mi s f : Z) : string :=
  "-" +:+ Js.pad 2 m +:+ "-" +:+ Js.pad 2 d +:+ "T" +:+
  Js.pad 2 h +:+ ":" +:+ Js.pad 2 mi +:+ ":" +:+ Js.pad 2 s +:+ "." +:+ Js.pad 3 f +:+ "Z".

End Vocabulary.

(** ** The scenarios of the examples *)

Module Scenario.
Import Storage.
#[local] Open Scope M_scope.

(** An empty working directory and a new [Storage]. *)
Definition fresh : State := mkState new (Fs.mkWorld (Fs.Dir ∅) [] []).

Definition t0 : Z := 1700000000000.

Definition goalId : string := "1700000000000".

(** The plan "feat-x" is created with the goal "build widget" at time [t0],
    and selected. *)
Definition feat_x : State :=
  ((createNewPlan "feat-x" (Some "build widget") t0 t0 t0 ;; setActivePlan "feat-x") fresh).2.

(** After [feat_x], a first todo is added to the plan, one millisecond
    later. *)
Definition one_todo : State :=
  (addTodo goalId (mkFields "first" "D" 1 None) 1700000000001 1700000000001 1700000000001
     1700000000001 feat_x).2.

(** [feat_x], when the next [fs] call fails. *)
Definition feat_x_failing : State :=
  mkState (self feat_x) (Fs.mkWorld (Fs.disk (world feat_x)) [true] []).

End Scenario.

Module ScenarioDirs.
Import Storage.
#[local] Open Scope M_scope.

(** The names U+1F600 and U+FF21, in UTF-8. *)
Definition grinning : string :=
  String "240" (String "159" (String "152" (String "128" ""))).

Definition fullwidth_A : string := String "239" (String "188" (String "161" "")).

(** After [Scenario.feat_x], the base directory also holds the directories
    "z", U+FF21, "v1-backup", U+1F600 and "Zeta", and the file "notes.txt". *)
Definition many_dirs : State :=
  let base := baseStorageDir (self Scenario.feat_x) in
  ((mkdir (join base "z") ;;
    mkdir (join base fullwidth_A) ;;
    mkdir (join base "v1-backup") ;;
    mkdir (join base grinning) ;;
    mkdir (join base "Zeta") ;;
    writeFile (join base "notes.txt") (Text "notes")) Scenario.feat_x).2.

End ScenarioDirs.

Module Scenario2.
Import Storage.
#[local] Open Scope M_scope.

(** A record with one goal, its plan and one todo. *)
Definition record : StorageData.t :=
  StorageData.mk
    {[ "1690000000000" := Goal.mk "1690000000000" "ship it" "2023-07-22T04:26:40.000Z" ]}
    {[ "1690000000000" :=
         ImplementationPlan.mk "1690000000000"
           [Todo.mk "1690000000500" "write tests" "cover the parser" 3 (Some "assert(ok)")
                    false "2023-07-22T04:26:40.500Z" "2023-07-22T04:26:40.500Z"]
           "2023-07-22T04:26:40.500Z" ]}.

(** The legacy layout: the record file directly in the base directory. *)
Definition legacy_disk : Fs.Node :=
  Fs.Dir {[ ".cursor" :=
    Fs.Dir {[ "softwareplan" :=
      Fs.Dir {[ "data.json" := Fs.File (JSON_stringify record) ]} ]} ]}.

(** A new [Storage] over the legacy layout, with the failures to come. *)
Definition legacy (faults : list bool) : State :=
  mkState new (Fs.mkWorld legacy_disk faults []).

Definition base : Fs.path := [".cursor"; "softwareplan"].

End Scenario2.

Module Scenario3.
Import Storage.
#[local] Open Scope M_scope.

(** After [Scenario.feat_x], a second plan "feat-y" is created, without a
    goal; "feat-x" stays selected. *)
Definition two_plans : State :=
  (createNewPlan "feat-y" None Scenario.t0 Scenario.t0 Scenario.t0 Scenario.feat_x).2.

End Scenario3.

(* ===================================================================== *)
(** * Part II: theorems                                                   *)
(* ===================================================================== *)

(** ** The directory tree *)
Section FsLemmas.

Import Fs.
Implicit Types (p q : path) (n : Node) (v : option Node).

Lemma diverge_nil_l q : diverge [] q = false.
Proof. done. Qed.

Lemma diverge_sym p q : diverge p q = diverge q p.
Proof.
  revert q; induction p as [|x p IH]; intros [|y q]; simpl; try done.
  repeat case_decide; subst; auto; done.
Qed.

Lemma diverge_app p q1 q2 : diverge (p ++ q1) (p ++ q2) = diverge q1 q2.
Proof. induction p as [|x p IH]; simpl; [done|]. by rewrite decide_True. Qed.

Lemma diverge_app_r p q k : diverge p q = true → diverge p (q ++ k) = true.
Proof.
  revert q; induction p as [|x p IH]; intros [|y q]; simpl; try done.
  case_decide; auto.
Qed.

Lemma get_app p q n : get (p ++ q) n = get p n ≫= get q.
Proof.
  revert n; induction p as [|x p IH]; intros n; simpl; [done|].
  destruct n as [c|es]; [done|]. destruct (es !! x); [apply IH|done].
Qed.

Lemma get_put_eq p v n n' : put p v n = Some n' → get p n' = v.
Proof.
  revert n n'; induction p as [|x p IH]; intros n n' H; simpl in *.
  { by subst. }
  destruct n as [c|es]; [done|]. destruct p as [|y p].
  - injection H as <-. simpl. destruct v.
    + by rewrite lookup_insert_eq.
    + by rewrite lookup_delete_eq.
  - destruct (es !! x) as [c|] eqn:E; [|done].
    destruct (put (y :: p) v c) as [c'|] eqn:E'; [|done].
    injection H as <-. cbn [get]. rewrite lookup_insert_eq. by apply IH in E'.
Qed.

Lemma get_put_diverge p q v n n' :
  diverge p q = true → put p v n = Some n' → get q n' = get q n.
Proof.
  revert q n n'; induction p as [|x p IH]; intros [|y q] n n' Hd H; simpl in Hd; try done.
  simpl in H. destruct n as [c|es]; [done|]. destruct p as [|z p].
  - injection H as <-. case_decide; [done|].
    simpl. destruct v; by rewrite ?lookup_insert_ne, ?lookup_delete_ne.
  - destruct (es !! x) as [c|] eqn:E; [|done].
    destruct (put (z :: p) v c) as [c'|] eqn:E'; [|done].
    injection H as <-. cbn [get]. case_decide as Hxy.
    + subst y. rewrite lookup_insert_eq, E. eapply IH; eauto.
    + by rewrite lookup_insert_ne.
Qed.

Lemma put_cons y p v es :
  p ≠ [] →
  put (y :: p) v (Dir es) =
  match es !! y with
  | Some c =>
      match put p v c with
      | Some c' => Some (Dir (<[y:=c']> es))
      | None => None
      end
  | None => None
  end.
Proof. by destruct p. Qed.

Lemma app_ne_nil p k : k ≠ [] → p ++ k ≠ [].
Proof. by destruct p, k. Qed.

(** [put] succeeds exactly when the parent is a directory. *)
Lemma put_is_Some p x v n :
  is_dir p n = true → is_Some (put (p ++ [x]) v n).
Proof.
  unfold is_dir. revert n; induction p as [|y p IH]; intros n H.
  - destruct n; [done|]. simpl. eauto.
  - destruct n as [c|es]; [done|]. simpl in H.
    change ((y :: p) ++ [x]) with (y :: (p ++ [x])).
    rewrite put_cons by by apply app_ne_nil.
    destruct (es !! y) as [c|] eqn:E; [|done].
    destruct (IH c H) as [c' ->]. eauto.
Qed.

Lemma put_Some_is_dir p x v n n' :
  put (p ++ [x]) v n = Some n' → is_dir p n = true.
Proof.
  unfold is_dir. revert n n'; induction p as [|y p IH]; intros n n' H.
  - by destruct n.
  - destruct n as [c|es]; [done|].
    change ((y :: p) ++ [x]) with (y :: (p ++ [x])) in H.
    rewrite put_cons in H by by apply app_ne_nil. simpl.
    destruct (es !! y) as [c|] eqn:E; [|done].
    destruct (put (p ++ [x]) v c) eqn:E'; [|done]. eauto.
Qed.

(** What lies on the way to [p] stays a directory. *)
Lemma is_dir_put_prefix q k v n n' :
  k ≠ [] → put (q ++ k) v n = Some n' → is_dir q n' = true.
Proof.
  unfold is_dir. revert n n'; induction q as [|y q IH]; intros n n' Hk H.
  - destruct k as [|x k]; [done|]. simpl in H. destruct n as [|es]; [done|].
    destruct k; [by injection H as <-|].
    destruct (es !! x); [|done]. destruct (put _ _ _); [|done]. by injection H as <-.
  - destruct n as [c|es]; [done|].
    change ((y :: q) ++ k) with (y :: (q ++ k)) in H.
    rewrite put_cons in H by by apply app_ne_nil.
    destruct (es !! y) as [c|] eqn:E; [|done].
    destruct (put (q ++ k) v c) eqn:E'; [|done]. injection H as <-.
    simpl. rewrite lookup_insert_eq. eauto.
Qed.

Lemma mkdirp_get_diverge p q n n' :
  diverge p q = true → mkdirp p n = Some n' → get q n' = get q n.
Proof.
  revert q n n'; induction p as [|x p IH]; intros [|y q] n n' Hd H; simpl in Hd; try done.
  destruct n as [c|es]; simpl in H; [done|].
  destruct (mkdirp p (default (Dir ∅) (es !! x))) as [c'|] eqn:E; [|done].
  injection H as <-. cbn [get]. case_decide as Hxy.
  - subst y. rewrite lookup_insert_eq. erewrite IH by eauto.
    destruct (es !! x); simpl; [done|].
    destruct q; [by destruct p|]. simpl. by rewrite lookup_empty.
  - by rewrite lookup_insert_ne.
Qed.

Lemma mkdirp_is_dir p n n' : mkdirp p n = Some n' → is_dir p n' = true.
Proof.
  unfold is_dir. revert n n'; induction p as [|x p IH]; intros n n' H.
  - destruct n; simpl in *; [done|]. by injection H as <-.
  - destruct n as [c|es]; simpl in H; [done|].
    destruct (mkdirp p (default (Dir ∅) (es !! x))) as [c'|] eqn:E; [|done].
    injection H as <-. simpl. rewrite lookup_insert_eq. eauto.
Qed.

(** [mkdir -p] of a directory that exists changes nothing. *)
Lemma mkdirp_exists p n : is_dir p n = true → mkdirp p n = Some n.
Proof.
  unfold is_dir. revert n; induction p as [|x p IH]; intros n H.
  - by destruct n.
  - destruct n as [c|es]; simpl in *; [done|].
    destruct (es !! x) as [c|] eqn:E; [|done]. simpl.
    rewrite (IH c H). by rewrite insert_id.
Qed.

(** [mkdir -p] creates no file and removes none. *)
Lemma mkdirp_get_file p q n n' c :
  mkdirp p n = Some n' → get q n' = Some (File c) ↔ get q n = Some (File c).
Proof.
  revert q n n'; induction p as [|x p IH]; intros q n n' H.
  - destruct n; simpl in H; [done|]. by injection H as <-.
  - destruct n as [c0|es]; simpl in H; [done|].
    destruct (mkdirp p (default (Dir ∅) (es !! x))) as [c'|] eqn:E; [|done].
    injection H as <-. destruct q as [|y q]; [done|]. cbn [get].
    destruct (decide (x = y)) as [<-|Hxy].
    + rewrite lookup_insert_eq, (IH _ _ _ E).
      destruct (es !! x); simpl; [done|]. destruct q; simpl; [done|].
      by rewrite lookup_empty.
    + by rewrite lookup_insert_ne.
Qed.

Lemma mkdirp_is_dir_mono p q n n' :
  mkdirp p n = Some n' → is_dir q n = true → is_dir q n' = true.
Proof.
  unfold is_dir. revert q n n'; induction p as [|x p IH]; intros q n n' H Hq.
  - destruct n; simpl in H; [done|]. by injection H as <-.
  - destruct n as [c0|es]; simpl in H; [done|].
    destruct (mkdirp p (default (Dir ∅) (es !! x))) as [c'|] eqn:E; [|done].
    injection H as <-. destruct q as [|y q]; [done|]. cbn [get] in *.
    destruct (decide (x = y)) as [<-|Hxy].
    + rewrite lookup_insert_eq. destruct (es !! x); simpl in *; [|done]. eauto.
    + by rewrite lookup_insert_ne.
Qed.

End FsLemmas.

(** ** The calls, one at a time *)
Section CallLemmas.

Import Fs.

Lemma call_ok {A} (c : Call) (f : Node → option (A * Node)) w :
  no_fault w →
  call c f w =
  (fst <$> f (disk w),
   mkWorld (from_option snd (disk w) (f (disk w))) (tail (faults w)) (trace w ++ [c])).
Proof.
  unfold call, no_fault. destruct (faults w) as [|[] l]; simpl; intros H;
    [|done|]; by destruct (f (disk w)) as [[]|].
Qed.

Lemma call_fault {A} (c : Call) (f : Node → option (A * Node)) w :
  ¬ no_fault w →
  call c f w = (None, mkWorld (disk w) (tail (faults w)) (trace w ++ [c])).
Proof.
  unfold call, no_fault. destruct (faults w) as [|[] l]; simpl; intros H;
    [by destruct H|done|by destruct H].
Qed.

Lemma no_fault_dec w : Decision (no_fault w).
Proof. unfold no_fault. apply _. Qed.

Lemma call_faults {A} (c : Call) (f : Node → option (A * Node)) w :
  faults (call c f w).2 = tail (faults w).
Proof.
  destruct (no_fault_dec w); [by rewrite call_ok|by rewrite call_fault].
Qed.

Lemma call_trace {A} (c : Call) (f : Node → option (A * Node)) w :
  trace (call c f w).2 = trace w ++ [c].
Proof.
  destruct (no_fault_dec w); [by rewrite call_ok|by rewrite call_fault].
Qed.

(** The tree after a call: what the call computes, or the tree as it was. *)
Lemma call_disk {A} (c : Call) (f : Node → option (A * Node)) w :
  disk (call c f w).2 = disk w ∨
  ∃ a, f (disk w) = Some (a, disk (call c f w).2) ∧ (call c f w).1 = Some a.
Proof.
  destruct (no_fault_dec w); [rewrite call_ok by done|rewrite call_fault by done; by left].
  simpl. destruct (f (disk w)) as [[a d']|]; [right; eauto|by left].
Qed.

Lemma call_Some {A} (c : Call) (f : Node → option (A * Node)) w a :
  (call c f w).1 = Some a →
  no_fault w ∧ f (disk w) = Some (a, disk (call c f w).2).
Proof.
  destruct (no_fault_dec w); [rewrite call_ok by done|by rewrite call_fault by done].
  simpl. destruct (f (disk w)) as [[a' d']|]; [|done]. by intros [= ->].
Qed.

End CallLemmas.

(** ** The monad *)
Section MonadLemmas.

Import Storage.
#[local] Open Scope M_scope.
Context {A B : Type}.
Implicit Types (m : M A) (k : A → M B) (st : State).

Lemma bind_Ok m k st a st1 : m st = (Ok a, st1) → bind m k st = k a st1.
Proof. unfold bind. by intros ->. Qed.

Lemma bind_Throw m k st e st1 : m st = (Throw e, st1) → bind m k st = (Throw e, st1).
Proof. unfold bind. by intros ->. Qed.

Lemma bind_inv_Ok m k st b st' :
  bind m k st = (Ok b, st') → ∃ a st1, m st = (Ok a, st1) ∧ k a st1 = (Ok b, st').
Proof. unfold bind. destruct (m st) as [[a|e|] st1]; [eauto|done..]. Qed.

Lemma try_catch_Ok m (h : Error → M A) st a st1 :
  m st = (Ok a, st1) → try_catch m h st = (Ok a, st1).
Proof. unfold try_catch. by intros ->. Qed.

Lemma try_catch_Throw m (h : Error → M A) st e st1 :
  m st = (Throw e, st1) → try_catch m h st = h e st1.
Proof. unfold try_catch. by intros ->. Qed.

End MonadLemmas.

(** ** Frames: what a method leaves alone *)
Section Frames.

Import Storage.
#[local] Open Scope M_scope.
Context (R : relation State) `{!PreOrder R}.

Lemma frame_ret {A} (a : A) : frame R (ret a).
Proof. intros st r st' [= <- <-]. done. Qed.

Lemma frame_throw {A} e : frame R (@throw A e).
Proof. intros st r st' [= <- <-]. done. Qed.

Lemma frame_untyped {A} : frame R (@untyped A).
Proof. intros st r st' [= <- <-]. done. Qed.

Lemma frame_this : frame R this.
Proof. intros st r st' [= <- <-]. done. Qed.

Lemma frame_bind {A B} (m : M A) (k : A → M B) :
  frame R m → (∀ a, frame R (k a)) → frame R (bind m k).
Proof.
  intros Hm Hk st r st'. unfold bind.
  destruct (m st) as [[a|e|] st1] eqn:E; intros H.
  - etrans; [by eapply Hm|by eapply Hk].
  - injection H as <- <-. by eapply Hm.
  - injection H as <- <-. by eapply Hm.
Qed.

Lemma frame_try_catch {A} (m : M A) (h : Error → M A) :
  frame R m → (∀ e, frame R (h e)) → frame R (try_catch m h).
Proof.
  intros Hm Hh st r st'. unfold try_catch.
  destruct (m st) as [[a|e|] st1] eqn:E; intros H.
  - injection H as <- <-. by eapply Hm.
  - etrans; [by eapply Hm|by eapply Hh].
  - injection H as <- <-. by eapply Hm.
Qed.

Lemma frame_for_of {A} (l : list A) (body : A → M unit) :
  (∀ x, x ∈ l → frame R (body x)) → frame R (for_of l body).
Proof.
  induction l as [|x l IH]; intros H; simpl.
  - apply frame_ret.
  - apply frame_bind; [apply H; left|intros _; apply IH].
    intros y Hy. apply H. by right.
Qed.

Lemma frame_if {A} (b : bool) (m1 m2 : M A) :
  frame R m1 → frame R m2 → frame R (if b then m1 else m2).
Proof. by destruct b. Qed.

End Frames.

(** ** Plan names *)
Section PlanNames.

Import Storage.

Lemma sanitizePlanName_unsafe planName : unsafe planName → sanitizePlanName planName = "main".
Proof.
  unfold unsafe, sanitizePlanName. intros H.
  destruct (bool_decide _ || negb _); [done|].
  destruct H as [-> | [-> | [-> | ->]]]; by rewrite ?orb_true_r.
Qed.

Lemma unsafe_not_main planName : unsafe planName → planName ≠ "main".
Proof. intros H ->. destruct H as [H|[H|[H|H]]]; by vm_compute in H. Qed.

(** C2: for a plan name that holds "..", "/", a backslash or a null
    character, [createNewPlan] and [setActivePlan] throw the invalid-name
    error and leave the state as it is, whereas [sanitizePlanName], and with
    it [updatePaths] for an instance whose current plan has that name, give
    "main". *)
Theorem unsafe_names_rejected planName goal now1 now2 now3 st s :
  unsafe planName →
  sanitizePlanName planName = "main" ∧
  createNewPlan planName goal now1 now2 now3 st = (Throw (InvalidPlanName planName), st) ∧
  setActivePlan planName st = (Throw (InvalidPlanName planName), st) ∧
  currentPlan (updatePaths (with_currentPlan planName s)) = "main".
Proof.
  intros H. pose proof (sanitizePlanName_unsafe _ H) as Hs.
  pose proof (unsafe_not_main _ H) as Hne.
  split; [done|]. unfold createNewPlan, setActivePlan, updatePaths, with_currentPlan. simpl. rewrite Hs.
  rewrite !bool_decide_true by done. done.
Qed.

Lemma unsafe_names_rejected_witness :
  unsafe "../etc" ∧
  createNewPlan "../etc" None 0 0 0 (mkState new (Fs.mkWorld (Fs.Dir ∅) [] []))
  = (Throw (InvalidPlanName "../etc"), mkState new (Fs.mkWorld (Fs.Dir ∅) [] [])).
Proof.
  assert (H : unsafe "../etc") by (by left).
  split; [exact H|].
  exact (proj1 (proj2 (unsafe_names_rejected "../etc" None 0 0 0 _ new H))).
Defined.

End PlanNames.

(** ** The instance and its paths *)
Section Paths.

Import Storage.
#[local] Open Scope M_scope.

#[global] Instance same_self_po : PreOrder same_self.
Proof. split; [by intros ?|intros ??? H1 H2; unfold same_self in *; congruence]. Qed.

Lemma frame_await {A} (R : relation State) c (io : Fs.World → option A * Fs.World) :
  (∀ st, R st (mkState (self st) (io (world st)).2)) → frame R (await c io).
Proof.
  intros H st r st'. unfold await. specialize (H st).
  destruct (io (world st)) as [[a|] w]; intros [= <- <-]; exact H.
Qed.

Lemma frame_await_self {A} c (io : Fs.World → option A * Fs.World) :
  frame same_self (await c io).
Proof. by apply frame_await. Qed.

Lemma sanitizePlanName_cases n :
  sanitizePlanName n = "main" ∨ sanitizePlanName n = n.
Proof. unfold sanitizePlanName. repeat case_match; auto. Qed.

Lemma sanitizePlanName_idemp n : sanitizePlanName (sanitizePlanName n) = sanitizePlanName n.
Proof. destruct (sanitizePlanName_cases n) as [H | H]; rewrite H; [by vm_compute|done]. Qed.

Lemma updatePaths_eq s :
  updatePaths s =
  let base := [".cursor"; "softwareplan"] in
  let dir := join base (sanitizePlanName (currentPlan s)) in
  mk (join dir "data.json") dir (join dir "plan.md") (join dir "tasks.md")
     (data s) (sanitizePlanName (currentPlan s)) base.
Proof.
  unfold updatePaths. case_bool_decide as H; [done|].
  by rewrite H.
Qed.

Lemma updatePaths_currentPlan s : currentPlan (updatePaths s) = sanitizePlanName (currentPlan s).
Proof. by rewrite updatePaths_eq. Qed.

Lemma updatePaths_wf s : wf (updatePaths s).
Proof.
  unfold wf. rewrite (updatePaths_eq (updatePaths s)), updatePaths_currentPlan.
  rewrite sanitizePlanName_idemp. by rewrite updatePaths_eq.
Qed.

Lemma new_wf : wf new.
Proof. apply updatePaths_wf. Qed.

Lemma wf_paths s :
  wf s →
  sanitizePlanName (currentPlan s) = currentPlan s ∧
  baseStorageDir s = [".cursor"; "softwareplan"] ∧
  cursorDir s = join (baseStorageDir s) (currentPlan s) ∧
  storagePath s = join (cursorDir s) "data.json" ∧
  planPath s = join (cursorDir s) "plan.md" ∧
  tasksPath s = join (cursorDir s) "tasks.md".
Proof.
  intros H. pose proof (updatePaths_currentPlan s) as Hc. rewrite H in Hc.
  rewrite <-H, updatePaths_eq. simpl. by rewrite <-Hc.
Qed.

End Paths.

(** ** Runs of single calls *)
Section Runs.

Import Storage Fs.
#[local] Open Scope M_scope.

(** A call made by a method: it returns what the tree gives, or it throws
    and leaves the tree as it was. *)
Lemma await_cases {A} c (f : Node → option (A * Node)) st :
  let w := world st in
  (∃ a d', no_fault w ∧ f (disk w) = Some (a, d') ∧
     await c (call c f) st =
     (Ok a, mkState (self st) (mkWorld d' (tail (faults w)) (trace w ++ [c]))))
  ∨ ((¬ no_fault w ∨ f (disk w) = None) ∧
     await c (call c f) st =
     (Throw (IOError c), mkState (self st) (mkWorld (disk w) (tail (faults w)) (trace w ++ [c])))).
Proof.
  simpl. unfold await. destruct (no_fault_dec (world st)) as [H|H].
  - rewrite call_ok by done. destruct (f (disk (world st))) as [[a d']|] eqn:E; simpl.
    + left. eauto 10.
    + right. eauto.
  - rewrite call_fault by done. right. eauto.
Qed.

Lemma no_fault_nil w : faults w = [] → no_fault w.
Proof. unfold no_fault. by intros ->. Qed.

(** Without failures to come, a call returns what the tree gives. *)
Lemma await_ok {A} c (f : Node → option (A * Node)) st a d' :
  faults (world st) = [] → f (disk (world st)) = Some (a, d') →
  await c (call c f) st = (Ok a, mkState (self st) (mkWorld d' [] (trace (world st) ++ [c]))).
Proof.
  intros Hf E. unfold await. rewrite call_ok by by apply no_fault_nil.
  by rewrite E, Hf.
Qed.

Lemma await_err {A} c (f : Node → option (A * Node)) st :
  faults (world st) = [] → f (disk (world st)) = None →
  await c (call c f) st =
  (Throw (IOError c), mkState (self st) (mkWorld (disk (world st)) [] (trace (world st) ++ [c]))).
Proof.
  intros Hf E. unfold await. rewrite call_ok by by apply no_fault_nil.
  by rewrite E, Hf.
Qed.

Lemma parent_join p x : parent (join p x) = p.
Proof. apply removelast_last. Qed.

Lemma is_dir_put_diverge p q v n n' :
  diverge p q = true → put p v n = Some n' → is_dir q n' = is_dir q n.
Proof. intros Hd H. unfold is_dir. by erewrite get_put_diverge. Qed.

Lemma diverge_join p x y : x ≠ y → diverge (join p x) (join p y) = true.
Proof. intros H. unfold join. rewrite diverge_app. simpl. by rewrite decide_False. Qed.

Lemma diverge_join_l p q x : diverge p q = true → diverge (join p x) q = true.
Proof. intros H. rewrite diverge_sym. apply diverge_app_r. by rewrite diverge_sym. Qed.

(** [writeFile] in a directory that exists, on a name that is not a
    directory's. *)
Lemma writeFile_sem_Some dir x c d :
  is_dir dir d = true → is_dir (join dir x) d = false →
  ∃ d', writeFile_sem (join dir x) c d = Some ((), d') ∧
        put (join dir x) (Some (File c)) d = Some d'.
Proof.
  intros H1 H2. unfold writeFile_sem. rewrite parent_join, H1, H2. simpl.
  destruct (put_is_Some dir x (Some (File c)) d H1) as [d' Hd'].
  unfold join. rewrite Hd'. eauto.
Qed.

Lemma writeFile_sem_inv p c d d' :
  writeFile_sem p c d = Some ((), d') → put p (Some (File c)) d = Some d'.
Proof.
  unfold writeFile_sem. destruct (_ && _); [|done].
  destruct (put p _ d); simpl; [|done]. by intros [= ->].
Qed.

End Runs.

(** ** [save] *)
Section Save.

Import Storage Fs.
#[local] Open Scope M_scope.

Lemma try_catch_rethrow {A} (m : M A) st : try_catch m (λ e, throw e) st = m st.
Proof. unfold try_catch, throw. by destruct (m st) as [[| |] ?]. Qed.

(** One [writeFile] of [save], seen from a path [q] that lies elsewhere. *)
Lemma writeFile_cases p c st :
  ∃ r d',
    Storage.writeFile p c st =
    (r, mkState (self st)
          (mkWorld d' (tail (faults (world st))) (trace (world st) ++ [WriteFile p c]))) ∧
    ((r = Ok () ∧ no_fault (world st) ∧ writeFile_sem p c (disk (world st)) = Some ((), d')) ∨
     (r = Throw (IOError (WriteFile p c)) ∧ d' = disk (world st))).
Proof.
  unfold Storage.writeFile, Fs.writeFile.
  destruct (await_cases (WriteFile p c) (writeFile_sem p c) st)
    as [([] & d' & H1 & H2 & ->)|(H & ->)]; eauto 10.
Qed.

Lemma save_spec st r st' :
  wf (self st) → save st = (r, st') → save_outcome st st' r.
Proof.
  intros Hwf E. destruct (wf_paths _ Hwf) as (_ & _ & _ & Hsp & Hpp & Htp).
  unfold save in E. rewrite try_catch_rethrow in E. unfold bind at 1, this at 1 in E.
  assert (Hdiv : ∀ x q, diverge (cursorDir (self st)) q = true →
                        diverge (join (cursorDir (self st)) x) q = true).
  { intros. by apply diverge_join_l. }
  destruct (writeFile_cases (storagePath (self st)) (JSON_stringify (data (self st))) st)
    as (r1 & d1 & E1 & [(-> & Hnf1 & Hw1)|(-> & ->)]);
    unfold bind at 1 in E; rewrite E1 in E.
  2:{ injection E as <- <-. by constructor. }
  apply writeFile_sem_inv in Hw1.
  assert (F1 : ∀ q, diverge (cursorDir (self st)) q = true →
                    get q d1 = get q (disk (world st))).
  { intros q Hq. eapply get_put_diverge; [|done]. rewrite Hsp. by apply Hdiv. }
  assert (G1 : get (storagePath (self st)) d1 = Some (File (JSON_stringify (data (self st))))).
  { by eapply get_put_eq. }
  assert (D1 : is_dir (cursorDir (self st)) d1 = true).
  { rewrite Hsp in Hw1. by eapply (is_dir_put_prefix _ ["data.json"]). }
  unfold generateMarkdownFiles in E. unfold bind at 1, this at 1 in E. cbn [self] in E.
  case_bool_decide.
  { injection E as <- <-. by constructor. }
  set (st1 := mkState _ _) in E.
  destruct (writeFile_cases (planPath (self st))
              (PlanMarkdown (currentPlan (self st))
                 (Object_values (StorageData.goals (data (self st))))
                 (Object_values (StorageData.plans (data (self st))))) st1)
    as (r2 & d2 & E2 & [(-> & Hnf2 & Hw2)|(-> & ->)]);
    unfold bind at 1 in E; rewrite E2 in E.
  2:{ injection E as <- <-. by constructor. }
  apply writeFile_sem_inv in Hw2. cbn [world disk st1] in Hw2.
  assert (F2 : ∀ q, diverge (cursorDir (self st)) q = true →
                    get q d2 = get q (disk (world st))).
  { intros q Hq. rewrite <-F1 by done. eapply get_put_diverge; [|done].
    rewrite Hpp. by apply Hdiv. }
  assert (G2 : get (storagePath (self st)) d2 = Some (File (JSON_stringify (data (self st))))).
  { rewrite <-G1. eapply get_put_diverge; [|done]. rewrite Hpp, Hsp. by apply diverge_join. }
  assert (D2 : is_dir (cursorDir (self st)) d2 = true).
  { rewrite Hpp in Hw2. by eapply (is_dir_put_prefix _ ["plan.md"]). }
  set (st2 := mkState _ _) in E.
  destruct (writeFile_cases (tasksPath (self st))
              (TasksMarkdown (currentPlan (self st))
                 (Object_values (StorageData.plans (data (self st))))) st2)
    as (r3 & d3 & E3 & [(-> & Hnf3 & Hw3)|(-> & ->)]); rewrite E3 in E.
  2:{ injection E as <- <-. by constructor. }
  apply writeFile_sem_inv in Hw3. cbn [world disk st2] in Hw3.
  injection E as <- <-. constructor; [done|..].
  - intros q Hq. cbn [world disk]. rewrite <-F2 by done. eapply get_put_diverge; [|done].
    rewrite Htp. by apply Hdiv.
  - cbn [world disk]. rewrite <-G2. eapply get_put_diverge; [|done].
    rewrite Htp, Hsp. by apply diverge_join.
  - cbn [world disk]. rewrite Htp in Hw3. by eapply (is_dir_put_prefix _ ["tasks.md"]).
Qed.

End Save.

Section SaveOk.
Import Storage Fs.
#[local] Open Scope M_scope.

Lemma writeFile_ok dir x c st :
  faults (world st) = [] →
  is_dir dir (disk (world st)) = true → is_dir (join dir x) (disk (world st)) = false →
  ∃ d', put (join dir x) (Some (File c)) (disk (world st)) = Some d' ∧
        Storage.writeFile (join dir x) c st =
        (Ok (), mkState (self st) (mkWorld d' [] (trace (world st) ++ [WriteFile (join dir x) c]))).
Proof.
  intros Hf H1 H2. destruct (writeFile_sem_Some dir x c _ H1 H2) as (d' & Hw & Hp).
  exists d'. split; [done|]. by apply await_ok.
Qed.

Lemma is_dir_put_sibling dir x y v d d' :
  x ≠ y → put (join dir x) v d = Some d' →
  is_dir (join dir y) d' = is_dir (join dir y) d.
Proof. intros Hxy H. eapply is_dir_put_diverge; [|done]. by apply diverge_join. Qed.

Lemma save_ok st :
  can_save st → ∃ st', save st = (Ok (), st') ∧ faults (world st') = [].
Proof.
  intros (Hwf & Hf & Hd & H1 & H2 & H3).
  destruct (wf_paths _ Hwf) as (_ & _ & _ & Hsp & Hpp & Htp).
  unfold save. rewrite try_catch_rethrow. unfold bind at 1, this at 1.
  rewrite Hsp in *. rewrite Hpp in *. rewrite Htp in *.
  destruct (writeFile_ok _ "data.json" (JSON_stringify (data (self st))) st Hf Hd H1)
    as (d1 & Hp1 & E1). unfold bind at 1. rewrite E1.
  unfold generateMarkdownFiles. unfold bind at 1, this at 1. cbn [self].
  case_bool_decide; [by eexists|].
  set (st1 := mkState _ _).
  edestruct (writeFile_ok (cursorDir (self st)) "plan.md") with (st := st1)
    as (d2 & Hp2 & E2); [done|..].
  { by eapply (is_dir_put_prefix _ ["data.json"]). }
  { cbn [st1 world disk].
    by rewrite (is_dir_put_sibling _ "data.json" "plan.md" _ _ _ ltac:(done) Hp1). }
  rewrite Hpp. unfold bind at 1. rewrite E2.
  set (st2 := mkState _ _).
  edestruct (writeFile_ok (cursorDir (self st)) "tasks.md") with (st := st2)
    as (d3 & Hp3 & E3); [done|..].
  { by eapply (is_dir_put_prefix _ ["plan.md"]). }
  { cbn [st2 st1 world disk] in *.
    rewrite (is_dir_put_sibling _ "plan.md" "tasks.md" _ _ _ ltac:(done) Hp2).
    by rewrite (is_dir_put_sibling _ "data.json" "tasks.md" _ _ _ ltac:(done) Hp1). }
  rewrite Htp, E3. by eexists.
Qed.

End SaveOk.

(** Frames of a method follow its syntax. *)
Ltac frame_step :=
  first
    [ apply frame_ret; apply _ | apply frame_throw; apply _
    | apply frame_untyped; apply _ | apply frame_this; apply _
    | apply frame_await_self
    | apply frame_bind; [apply _| |intros ?]
    | apply frame_try_catch; [apply _| |intros ?]
    | apply frame_for_of; [apply _|intros ? _]
    | case_bool_decide
    | case_match ].

(** ** Todos *)
Section Todos.

Import Storage Fs.
#[local] Open Scope M_scope.

Lemma frame_assign R `{!Reflexive R} (f : t → t) :
  (∀ st, R st (mkState (f (self st)) (world st))) → frame R (assign f).
Proof. intros H st r st' [= <- <-]. apply H. Qed.

Lemma save_frame_self : frame same_self save.
Proof. unfold save, generateMarkdownFiles. repeat frame_step. Qed.

Lemma save_self st : self (save st).2 = self st.
Proof. by eapply save_frame_self, surjective_pairing. Qed.

Lemma addTodo_run goalId fields t1 t2 t3 t4 st plan :
  plan_of goalId st = Some plan →
  addTodo goalId fields t1 t2 t3 t4 st =
  (save ;; ret (new_todo fields t1 t2 t3))
    (with_plan goalId
       (ImplementationPlan.mk (ImplementationPlan.goalId plan)
          (ImplementationPlan.todos plan ++ [new_todo fields t1 t2 t3])
          (Js.toISOString t4)) st).
Proof.
  unfold plan_of. intros H. unfold addTodo, getPlan. unfold bind at 1 2, this at 1, ret at 1.
  rewrite H. done.
Qed.

Lemma addTodo_no_plan goalId fields t1 t2 t3 t4 st :
  plan_of goalId st = None →
  addTodo goalId fields t1 t2 t3 t4 st =
  (if bool_decide (goalId ∈ Js.Object_prototype_names) then Untyped
   else Throw (NoPlanFound goalId), st).
Proof.
  unfold plan_of. intros H. unfold addTodo, getPlan. unfold bind at 1 2, this at 1.
  rewrite H. by destruct (bool_decide _).
Qed.

Lemma removeTodo_run goalId todoId now st plan :
  plan_of goalId st = Some plan →
  removeTodo goalId todoId now st =
  save
    (with_plan goalId
       (ImplementationPlan.mk (ImplementationPlan.goalId plan)
          (filter (λ todo, Todo.id todo ≠ todoId) (ImplementationPlan.todos plan))
          (Js.toISOString now)) st).
Proof.
  unfold plan_of. intros H. unfold removeTodo, getPlan. unfold bind at 1 2, this at 1, ret at 1.
  rewrite H. done.
Qed.

Lemma plan_of_with_plan goalId plan st : plan_of goalId (with_plan goalId plan st) = Some plan.
Proof. unfold plan_of, with_plan. simpl. by rewrite lookup_insert_eq. Qed.

Lemma wf_with_data d s : wf s → wf (with_data d s).
Proof.
  intros H. destruct (wf_paths s H) as (H1 & H2 & H3 & H4 & H5 & H6).
  unfold wf. rewrite updatePaths_eq. destruct s; simpl in *.
  rewrite H1, <-H2, <-H3, <-H4, <-H5, <-H6. done.
Qed.

Lemma can_save_with_plan goalId plan st : can_save st → can_save (with_plan goalId plan st).
Proof.
  intros (Hwf & H). split; [|exact H]. by apply wf_with_data.
Qed.

Lemma save_then_ret {A} (a : A) st :
  ((save ;; ret a) st).2 = (save st).2 ∧
  (∀ st', save st = (Ok (), st') → (save ;; ret a) st = (Ok a, st')) ∧
  (∀ b, ((save ;; ret a) st).1 = Ok b → b = a ∧ (save st).1 = Ok ()).
Proof.
  unfold bind, ret. destruct (save st) as [[[]|e|] st1]; simpl; repeat split; try done.
  all: congruence.
Qed.

Lemma filter_id {A} (P : A → Prop) `{!∀ x, Decision (P x)} (l : list A) :
  Forall P l → filter P l = l.
Proof.
  induction 1 as [|x l Hx _ IH]; [done|]. by rewrite filter_cons_True, IH.
Qed.

End Todos.

(** *** [addTodo] and [removeTodo] *)
Section AddRemoveTodo.

Import Storage Fs.
#[local] Open Scope M_scope.

Lemma feat_x_can_save : can_save Scenario.feat_x.
Proof. by vm_compute. Qed.

Lemma feat_x_plan :
  plan_of Scenario.goalId Scenario.feat_x =
  Some (ImplementationPlan.mk Scenario.goalId [] "2023-11-14T22:13:20.000Z").
Proof. by vm_compute. Qed.

(** The plan after [addTodo], and its result when [save] can write. *)
Lemma addTodo_plan goalId fields t1 t2 t3 t4 st plan :
  plan_of goalId st = Some plan →
  plan_of goalId (addTodo goalId fields t1 t2 t3 t4 st).2 =
    Some (ImplementationPlan.mk (ImplementationPlan.goalId plan)
            (ImplementationPlan.todos plan ++ [new_todo fields t1 t2 t3])
            (Js.toISOString t4)).
Proof.
  intros Hp. rewrite (addTodo_run _ _ _ _ _ _ _ _ Hp). set (st1 := with_plan _ _ _).
  destruct (save_then_ret (new_todo fields t1 t2 t3) st1) as (H2 & _ & _).
  unfold plan_of. rewrite H2, save_self. apply plan_of_with_plan.
Qed.

Lemma addTodo_ok goalId fields t1 t2 t3 t4 st plan :
  plan_of goalId st = Some plan → can_save st →
  (addTodo goalId fields t1 t2 t3 t4 st).1 = Ok (new_todo fields t1 t2 t3).
Proof.
  intros Hp Hs. rewrite (addTodo_run _ _ _ _ _ _ _ _ Hp). set (st1 := with_plan _ _ _).
  destruct (save_then_ret (new_todo fields t1 t2 t3) st1) as (_ & Hok & _).
  destruct (save_ok st1) as (st' & E & _).
  { by apply can_save_with_plan. }
  by rewrite (Hok _ E).
Qed.

(** [save] returns, or throws the error of the [writeFile] that failed. *)
Lemma save_result st r st' :
  save st = (r, st') → r = Ok () ∨ ∃ p c, r = Throw (IOError (WriteFile p c)).
Proof.
  intros E. unfold save in E. rewrite try_catch_rethrow in E.
  unfold bind at 1, this at 1 in E.
  destruct (writeFile_cases (storagePath (self st)) (JSON_stringify (data (self st))) st)
    as (r1 & d1 & E1 & [(-> & _)|(-> & _)]); unfold bind at 1 in E; rewrite E1 in E;
    [|injection E as <- _; by eauto].
  unfold generateMarkdownFiles in E. unfold bind at 1, this at 1 in E.
  set (st1 := mkState _ _) in E. destruct (bool_decide _); [injection E as <- _; by left|].
  destruct (writeFile_cases (planPath (self st1))
              (PlanMarkdown (currentPlan (self st1))
                 (Object_values (StorageData.goals (data (self st1))))
                 (Object_values (StorageData.plans (data (self st1))))) st1)
    as (r2 & d2 & E2 & [(-> & _)|(-> & _)]); unfold bind at 1 in E; rewrite E2 in E;
    [|injection E as <- _; by eauto].
  set (st2 := mkState _ _) in E.
  destruct (writeFile_cases (tasksPath (self st1))
              (TasksMarkdown (currentPlan (self st1))
                 (Object_values (StorageData.plans (data (self st1))))) st2)
    as (r3 & d3 & E3 & [(-> & _)|(-> & _)]); rewrite E3 in E; injection E as <- _; by eauto.
Qed.

(** [addTodo] on a goal that has a plan returns the todo, or throws the
    error of [save]. *)
Lemma addTodo_result goalId fields t1 t2 t3 t4 st plan :
  plan_of goalId st = Some plan →
  (addTodo goalId fields t1 t2 t3 t4 st).1 = Ok (new_todo fields t1 t2 t3) ∨
  ∃ p c, (addTodo goalId fields t1 t2 t3 t4 st).1 = Throw (IOError (WriteFile p c)).
Proof.
  intros Hp. rewrite (addTodo_run _ _ _ _ _ _ _ _ Hp). set (st1 := with_plan _ _ _).
  unfold bind, ret. destruct (save st1) as [r st2] eqn:E.
  destruct (save_result _ _ _ E) as [->|(p & c & ->)]; simpl; eauto.
Qed.

(** C6, as stated, fails: in the scenario of the specification, [addTodo]
    with complexity 11 returns the todo and the plan holds it. *)
Lemma addTodo_complexity_11_accepted :
  let fields := mkFields "T" "D" 11 None in
  let r := addTodo Scenario.goalId fields 1700000000001 1700000000001 1700000000001
             1700000000001 Scenario.feat_x in
  ∃ todo, r.1 = Ok todo ∧ Todo.complexity todo = 11%Z ∧
          ¬ (0 ≤ Todo.complexity todo ≤ 10)%Z ∧
          (getTodos Scenario.goalId r.2).1 = Ok [todo].
Proof. vm_compute. eexists. repeat split. intros [_ H]. by apply H. Qed.

(** C6, amended: [addTodo] makes no check of the complexity. Whatever its
    value, when the goal has a plan, the todo built from the fields, with
    that complexity, is appended to the plan in memory. [addTodo] then
    returns that todo or throws the error of the [writeFile] of [save] that
    failed, and nothing else; it returns the todo when the files of the
    current plan can be written. *)
Theorem addTodo_any_complexity goalId fields t1 t2 t3 t4 st plan :
  plan_of goalId st = Some plan →
  let todo := new_todo fields t1 t2 t3 in
  let r := addTodo goalId fields t1 t2 t3 t4 st in
  Todo.complexity todo = complexity fields ∧
  plan_of goalId r.2 =
    Some (ImplementationPlan.mk (ImplementationPlan.goalId plan)
            (ImplementationPlan.todos plan ++ [todo]) (Js.toISOString t4)) ∧
  (r.1 = Ok todo ∨ ∃ p c, r.1 = Throw (IOError (WriteFile p c))) ∧
  (can_save st → r.1 = Ok todo).
Proof.
  intros Hp todo r. split; [done|]. split; [|split].
  - by apply addTodo_plan.
  - by apply (addTodo_result _ _ _ _ _ _ _ plan).
  - by apply (addTodo_ok _ _ _ _ _ _ _ plan).
Qed.

(** In [Scenario.feat_x], [addTodo] with complexity 42 returns the todo;
    when the first call of [writeFile] fails, it throws, and the plan in
    memory holds the todo all the same. *)
Lemma addTodo_any_complexity_witness :
  (addTodo Scenario.goalId (mkFields "T" "D" 42 None) 1700000000001 1700000000001
     1700000000001 1700000000001 Scenario.feat_x).1
  = Ok (new_todo (mkFields "T" "D" 42 None) 1700000000001 1700000000001 1700000000001) ∧
  (∃ p c,
     (addTodo Scenario.goalId (mkFields "T" "D" 42 None) 1700000000001 1700000000001
        1700000000001 1700000000001 Scenario.feat_x_failing).1
     = Throw (IOError (WriteFile p c))) ∧
  plan_of Scenario.goalId
    (addTodo Scenario.goalId (mkFields "T" "D" 42 None) 1700000000001 1700000000001
       1700000000001 1700000000001 Scenario.feat_x_failing).2
  = Some (ImplementationPlan.mk Scenario.goalId
            [new_todo (mkFields "T" "D" 42 None) 1700000000001 1700000000001 1700000000001]
            "2023-11-14T22:13:20.001Z").
Proof.
  pose proof (addTodo_any_complexity Scenario.goalId (mkFields "T" "D" 42 None)
                1700000000001 1700000000001 1700000000001 1700000000001
                Scenario.feat_x _ feat_x_plan) as (_ & _ & _ & Hok).
  pose proof (addTodo_any_complexity Scenario.goalId (mkFields "T" "D" 42 None)
                1700000000001 1700000000001 1700000000001 1700000000001
                Scenario.feat_x_failing _ feat_x_plan) as (_ & Hplan & [Hr|Hthrow] & _).
  - by vm_compute in Hr.
  - split; [exact (Hok feat_x_can_save)|]. split; [exact Hthrow|exact Hplan].
Defined.

(** C7, as stated, fails: removing a todo that is not there changes the
    plan's [updatedAt]. *)
Lemma removeTodo_absent_touches_updatedAt :
  let r := removeTodo Scenario.goalId "no-such-todo" 1700000000001 Scenario.feat_x in
  r.1 = Ok () ∧
  ImplementationPlan.updatedAt <$> plan_of Scenario.goalId Scenario.feat_x
    = Some "2023-11-14T22:13:20.000Z" ∧
  ImplementationPlan.updatedAt <$> plan_of Scenario.goalId r.2
    = Some "2023-11-14T22:13:20.001Z".
Proof. by vm_compute. Qed.

(** C7, amended: for a plan that holds no todo with id [todoId],
    [removeTodo] leaves the todo sequence as it is and sets the plan's
    [updatedAt] to the current time; when the files of the current plan can
    be written, it returns without error. *)
Theorem removeTodo_absent goalId todoId now st plan :
  plan_of goalId st = Some plan →
  todoId ∉ ids plan →
  let r := removeTodo goalId todoId now st in
  plan_of goalId r.2 =
    Some (ImplementationPlan.mk (ImplementationPlan.goalId plan)
            (ImplementationPlan.todos plan) (Js.toISOString now)) ∧
  (can_save st → r.1 = Ok ()).
Proof.
  intros Hp Hid r. subst r. rewrite (removeTodo_run _ _ _ _ _ Hp).
  rewrite filter_id.
  2:{ apply Forall_forall. intros todo Hin Heq. apply Hid. unfold ids.
      rewrite <-Heq. by apply list_elem_of_fmap_2. }
  set (st1 := with_plan _ _ _). split.
  - unfold plan_of. rewrite save_self. apply plan_of_with_plan.
  - intros Hs. destruct (save_ok st1) as (st' & E & _).
    { by apply can_save_with_plan. }
    by rewrite E.
Qed.

Lemma removeTodo_absent_witness :
  (removeTodo Scenario.goalId "no-such-todo" 1700000000001 Scenario.feat_x).1 = Ok ().
Proof.
  refine (proj2 (removeTodo_absent Scenario.goalId "no-such-todo" 1700000000001
                   Scenario.feat_x _ feat_x_plan _) feat_x_can_save).
  vm_compute. by intros ?%elem_of_nil.
Defined.

End AddRemoveTodo.

(** *** Ids of todos *)
Section TodoIds.

Import Storage Fs.
#[local] Open Scope M_scope.

(** After [save] has returned, the files can be written again. *)
Lemma save_keeps_can_save st :
  can_save st → ∃ st', save st = (Ok (), st') ∧ self st' = self st ∧ can_save st'.
Proof.
  intros (Hwf & Hf & Hd & H1 & H2 & H3).
  destruct (wf_paths _ Hwf) as (_ & _ & _ & Hsp & Hpp & Htp).
  unfold save. rewrite try_catch_rethrow. unfold bind at 1, this at 1.
  unfold can_save. rewrite Hsp in *. rewrite Hpp in *. rewrite Htp in *.
  destruct (writeFile_ok _ "data.json" (JSON_stringify (data (self st))) st Hf Hd H1)
    as (d1 & Hp1 & E1). unfold bind at 1. rewrite E1.
  assert (Hfile : ∀ p c d d', put p (Some (File c)) d = Some d' → is_dir p d' = false).
  { intros p c d d' H. unfold is_dir. by rewrite (get_put_eq _ _ _ _ H). }
  unfold generateMarkdownFiles. unfold bind at 1, this at 1. cbn [self].
  case_bool_decide.
  { eexists. split; [done|]. cbn [self world disk faults]. rewrite Hsp, Hpp, Htp.
    split; [done|]. split; [done|]. split; [done|].
    split; [by eapply (is_dir_put_prefix _ ["data.json"])|].
    split; [by eapply Hfile|].
    rewrite (is_dir_put_sibling _ "data.json" "plan.md" _ _ _ ltac:(done) Hp1).
    by rewrite (is_dir_put_sibling _ "data.json" "tasks.md" _ _ _ ltac:(done) Hp1). }
  set (st1 := mkState _ _).
  edestruct (writeFile_ok (cursorDir (self st)) "plan.md") with (st := st1)
    as (d2 & Hp2 & E2); [done|..].
  { by eapply (is_dir_put_prefix _ ["data.json"]). }
  { cbn [st1 world disk].
    by rewrite (is_dir_put_sibling _ "data.json" "plan.md" _ _ _ ltac:(done) Hp1). }
  rewrite Hpp. unfold bind at 1. rewrite E2.
  set (st2 := mkState _ _).
  edestruct (writeFile_ok (cursorDir (self st)) "tasks.md") with (st := st2)
    as (d3 & Hp3 & E3); [done|..].
  { by eapply (is_dir_put_prefix _ ["plan.md"]). }
  { cbn [st2 st1 world disk] in *.
    rewrite (is_dir_put_sibling _ "plan.md" "tasks.md" _ _ _ ltac:(done) Hp2).
    by rewrite (is_dir_put_sibling _ "data.json" "tasks.md" _ _ _ ltac:(done) Hp1). }
  rewrite Htp, E3. cbn [st2 st1 world disk self] in *.
  eexists. split; [done|]. cbn [self world disk faults]. rewrite Hsp, Hpp, Htp.
  split; [done|]. split; [done|]. split; [done|].
  split; [by eapply (is_dir_put_prefix _ ["tasks.md"])|].
  split; [|split; [|by eapply Hfile]].
  - rewrite (is_dir_put_sibling _ "tasks.md" "data.json" _ _ _ ltac:(done) Hp3).
    rewrite (is_dir_put_sibling _ "plan.md" "data.json" _ _ _ ltac:(done) Hp2).
    by eapply Hfile.
  - rewrite (is_dir_put_sibling _ "tasks.md" "plan.md" _ _ _ ltac:(done) Hp3).
    by eapply Hfile.
Qed.

Lemma addTodo_can_save goalId fields t1 t2 t3 t4 st plan :
  plan_of goalId st = Some plan → can_save st →
  can_save (addTodo goalId fields t1 t2 t3 t4 st).2.
Proof.
  intros Hp Hs. rewrite (addTodo_run _ _ _ _ _ _ _ _ Hp). set (st1 := with_plan _ _ _).
  destruct (save_then_ret (new_todo fields t1 t2 t3) st1) as (-> & _ & _).
  destruct (save_keeps_can_save st1) as (st' & E & _ & Hs').
  { by apply can_save_with_plan. }
  by rewrite E.
Qed.

Lemma one_todo_plan :
  plan_of Scenario.goalId Scenario.one_todo =
  Some (ImplementationPlan.mk Scenario.goalId
          [new_todo (mkFields "first" "D" 1 None) 1700000000001 1700000000001 1700000000001]
          "2023-11-14T22:13:20.001Z").
Proof. by vm_compute. Qed.

Lemma one_todo_can_save : can_save Scenario.one_todo.
Proof. by vm_compute. Qed.

(** C8, as stated, fails: two calls of [addTodo] that read the same time
    from the clock give the two todos the same id. *)
Lemma addTodo_same_tick_same_id :
  let now := 1700000000001%Z in
  let r1 := addTodo Scenario.goalId (mkFields "first" "D" 1 None) now now now now
              Scenario.feat_x in
  let r2 := addTodo Scenario.goalId (mkFields "second" "D" 2 None) now now now now r1.2 in
  ∃ todo1 todo2 plan,
    r1.1 = Ok todo1 ∧ r2.1 = Ok todo2 ∧ Todo.id todo1 = Todo.id todo2 ∧
    plan_of Scenario.goalId r2.2 = Some plan ∧
    ImplementationPlan.todos plan = [todo1; todo2] ∧ ¬ NoDup (ids plan).
Proof.
  vm_compute. do 3 eexists. repeat split.
  intros H. apply NoDup_cons in H as [H _]. apply H. by left.
Qed.

(** C8, amended: the id of a new todo is the decimal form of the time
    [addTodo] reads from the clock. After two calls of [addTodo] on a goal
    that has a plan, the plan holds the two new todos at its end, with the
    decimal forms of the two times read as ids; these are what the calls
    return, when they return, and they return when the files of the current
    plan can be written. The two ids are equal exactly when the two times
    read are; and the ids of the plan are pairwise distinct after the calls
    exactly when they were before, the two times read differ, and neither
    was the id of a todo of the plan. *)
Theorem addTodo_ids_distinct goalId f1 a1 a2 a3 a4 f2 b1 b2 b3 b4 st plan :
  plan_of goalId st = Some plan →
  let r1 := addTodo goalId f1 a1 a2 a3 a4 st in
  let r2 := addTodo goalId f2 b1 b2 b3 b4 r1.2 in
  ∃ todo1 todo2 plan2,
    plan_of goalId r2.2 = Some plan2 ∧
    ImplementationPlan.todos plan2 = ImplementationPlan.todos plan ++ [todo1; todo2] ∧
    ids plan2 = ids plan ++ [Js.Number_toString a1; Js.Number_toString b1] ∧
    Todo.id todo1 = Js.Number_toString a1 ∧ Todo.id todo2 = Js.Number_toString b1 ∧
    (Todo.id todo1 = Todo.id todo2 ↔ a1 = b1) ∧
    (NoDup (ids plan2) ↔
       NoDup (ids plan) ∧ a1 ≠ b1 ∧
       (Js.Number_toString a1 ∉ ids plan) ∧ (Js.Number_toString b1 ∉ ids plan)) ∧
    (∀ todo, r1.1 = Ok todo → todo = todo1) ∧
    (∀ todo, r2.1 = Ok todo → todo = todo2) ∧
    (can_save st → r1.1 = Ok todo1 ∧ r2.1 = Ok todo2).
Proof.
  intros Hp r1 r2.
  pose proof (addTodo_plan goalId f1 a1 a2 a3 a4 st plan Hp) as Hp1. fold r1 in Hp1.
  pose proof (addTodo_plan goalId f2 b1 b2 b3 b4 r1.2 _ Hp1) as Hp2. fold r2 in Hp2.
  cbn [ImplementationPlan.goalId ImplementationPlan.todos] in Hp2.
  exists (new_todo f1 a1 a2 a3), (new_todo f2 b1 b2 b3). eexists.
  split; [exact Hp2|]. cbn [ImplementationPlan.todos].
  assert (Hinj : Js.Number_toString a1 = Js.Number_toString b1 ↔ a1 = b1).
  { unfold Js.Number_toString. split; [apply (inj pretty)|by intros ->]. }
  split; [by rewrite <-app_assoc|]. split.
  { unfold ids. cbn [ImplementationPlan.todos]. by rewrite !fmap_app, <-app_assoc. }
  split; [done|]. split; [done|]. split; [exact Hinj|]. split.
  { unfold ids at 1. cbn [ImplementationPlan.todos]. rewrite !fmap_app, <-app_assoc.
    fold (ids plan). cbn [fmap list_fmap Todo.id new_todo app].
    rewrite NoDup_app, NoDup_cons, list_elem_of_singleton, Hinj. split.
    - intros (Hnd & Hfresh & Hne & _). split; [done|]. split; [done|].
      split; intros Hin; apply (Hfresh _ Hin); [by left|by right; left].
    - intros (Hnd & Hne & Ha & Hb). split; [done|]. split.
      + intros x Hx [->|[->|[]%elem_of_nil]%elem_of_cons]%elem_of_cons; done.
      + split; [done|]. apply NoDup_singleton. }
  split; [|split].
  - intros todo E. destruct (addTodo_result goalId f1 a1 a2 a3 a4 st plan Hp) as [H|(p & c & H)];
      fold r1 in H; rewrite H in E; [by injection E as <-|done].
  - intros todo E.
    destruct (addTodo_result goalId f2 b1 b2 b3 b4 r1.2 _ Hp1) as [H|(p & c & H)];
      fold r2 in H; rewrite H in E; [by injection E as <-|done].
  - intros Hs. split.
    + by apply (addTodo_ok _ _ _ _ _ _ _ plan).
    + eapply addTodo_ok; [exact Hp1|]. by apply (addTodo_can_save _ _ _ _ _ _ _ plan).
Qed.

(** In [Scenario.one_todo] the plan holds a todo; two more calls, at later
    times, return, and the three ids are pairwise distinct. *)
Lemma addTodo_ids_distinct_witness :
  ∃ todo1 todo2 plan2,
    (addTodo Scenario.goalId (mkFields "second" "D" 2 None) 1700000000002 1700000000002
       1700000000002 1700000000002 Scenario.one_todo).1 = Ok todo1 ∧
    (addTodo Scenario.goalId (mkFields "third" "D" 3 None) 1700000000003 1700000000003
       1700000000003 1700000000003
       (addTodo Scenario.goalId (mkFields "second" "D" 2 None) 1700000000002 1700000000002
          1700000000002 1700000000002 Scenario.one_todo).2).1 = Ok todo2 ∧
    plan_of Scenario.goalId
      (addTodo Scenario.goalId (mkFields "third" "D" 3 None) 1700000000003 1700000000003
         1700000000003 1700000000003
         (addTodo Scenario.goalId (mkFields "second" "D" 2 None) 1700000000002 1700000000002
            1700000000002 1700000000002 Scenario.one_todo).2).2 = Some plan2 ∧
    ids plan2 = ["1700000000001"; "1700000000002"; "1700000000003"] ∧
    Todo.id todo1 ≠ Todo.id todo2 ∧ NoDup (ids plan2).
Proof.
  destruct (addTodo_ids_distinct Scenario.goalId
              (mkFields "second" "D" 2 None) 1700000000002 1700000000002 1700000000002
              1700000000002
              (mkFields "third" "D" 3 None) 1700000000003 1700000000003 1700000000003
              1700000000003 Scenario.one_todo _ one_todo_plan)
    as (todo1 & todo2 & plan2 & Hp & _ & Hids & _ & _ & Hiff & Hnd & _ & _ & Hok).
  destruct (Hok one_todo_can_save) as [Hr1 Hr2].
  exists todo1, todo2, plan2. split; [exact Hr1|]. split; [exact Hr2|].
  split; [exact Hp|]. split; [exact Hids|]. split.
  - intros H. by apply Hiff in H.
  - apply Hnd. split; [apply NoDup_singleton|]. split; [done|].
    split; intros [=]%list_elem_of_singleton.
Defined.

End TodoIds.

(** ** [listPlans] *)
Section ListPlans.

Import Storage Fs.
#[local] Open Scope M_scope.

Lemma units_leb_total l1 l2 : Js.units_leb l1 l2 = true ∨ Js.units_leb l2 l1 = true.
Proof.
  revert l2. induction l1 as [|a l1 IH]; intros [|b l2]; simpl; auto.
  destruct (N.ltb_spec a b), (N.ltb_spec b a); auto.
Qed.

Lemma units_leb_trans l1 l2 l3 :
  Js.units_leb l1 l2 = true → Js.units_leb l2 l3 = true → Js.units_leb l1 l3 = true.
Proof.
  revert l2 l3. induction l1 as [|a l1 IH]; intros [|b l2] [|c l3]; simpl; try done.
  destruct (N.ltb_spec a b), (N.ltb_spec b a), (N.ltb_spec b c), (N.ltb_spec c b),
    (N.ltb_spec a c), (N.ltb_spec c a); try done; try lia; apply IH.
Qed.

#[global] Instance code_unit_le_total : Total Js.code_unit_le.
Proof. intros x y. apply units_leb_total. Qed.

#[global] Instance code_unit_le_trans : Transitive Js.code_unit_le.
Proof. intros x y z. apply units_leb_trans. Qed.

Lemma listPlans_run st :
  no_fault (world st) →
  ∃ st',
    listPlans st =
    (Ok (match get (baseStorageDir (self st)) (disk (world st)) with
         | Some (Dir es) =>
             Js.sort (fst <$> filter (λ entry, isDirectory entry.2 ∧ entry.1 ≠ "v1-backup")
                                     (prod_map id kind <$> map_to_list es))
         | _ => []
         end), st') ∧
    self st' = self st ∧ disk (world st') = disk (world st) ∧
    faults (world st') = tail (faults (world st)).
Proof.
  intros Hnf. unfold listPlans. unfold bind at 1, this at 1. unfold try_catch.
  unfold bind at 1. unfold Storage.readdir, Fs.readdir, await.
  rewrite call_ok by done. unfold readdir_sem.
  destruct (get _ _) as [[c|es]|]; simpl; eauto.
Qed.

Lemma listPlans_fault st :
  ¬ no_fault (world st) → (listPlans st).1 = Ok [].
Proof.
  intros Hnf. unfold listPlans. unfold bind at 1, this at 1. unfold try_catch.
  unfold bind at 1. unfold Storage.readdir, Fs.readdir, await.
  by rewrite call_fault by done.
Qed.

Lemma get_join p x n :
  get (join p x) n =
  match get p n with
  | Some (Dir es) => es !! x
  | _ => None
  end.
Proof.
  unfold join. rewrite get_app. destruct (get p n) as [[c|es]|]; simpl; try done.
  by destruct (es !! x).
Qed.

(** C9: [listPlans] always returns a list of names, in ascending order of
    their UTF-16 code units (the order of [sort()]) and each once. When the
    call of [readdir] meets no failure from outside, the names are those of
    the directories in the base directory other than "v1-backup"; when the
    base directory does not exist, or the call fails, the list is empty. *)
Theorem listPlans_spec st :
  ∃ plans,
    (listPlans st).1 = Ok plans ∧
    StronglySorted Js.code_unit_le plans ∧ NoDup plans ∧
    (no_fault (world st) →
     ∀ name, name ∈ plans ↔
       is_dir (join (baseStorageDir (self st)) name) (disk (world st)) = true ∧
       name ≠ "v1-backup") ∧
    (get (baseStorageDir (self st)) (disk (world st)) = None → plans = []) ∧
    (¬ no_fault (world st) → plans = []).
Proof.
  destruct (decide (no_fault (world st))) as [Hnf|Hnf].
  2: { rewrite (listPlans_fault st Hnf). exists []. repeat split; try done; constructor. }
  destruct (listPlans_run st Hnf) as (st' & E & _). rewrite E. simpl.
  eexists. split; [done|].
  assert (Hdir : ∀ name, is_dir (join (baseStorageDir (self st)) name) (disk (world st)) =
                 match get (baseStorageDir (self st)) (disk (world st)) with
                 | Some (Dir es) => match es !! name with Some (Dir _) => true | _ => false end
                 | _ => false
                 end).
  { intros name. unfold is_dir. rewrite get_join.
    by destruct (get _ _) as [[|]|]. }
  destruct (get (baseStorageDir (self st)) (disk (world st))) as [[c|es]|] eqn:Eb.
  1,3: (split; [constructor|]; split; [constructor|]; split; [|done]);
       intros _ name; rewrite Hdir; split; [by intros ?%elem_of_nil|by intros []].
  split; [apply Sorted_StronglySorted; [apply _|apply (Sorted_merge_sort _)]|].
  split.
  { unfold Js.sort. rewrite merge_sort_Permutation.
    eapply sublist_NoDup; [|apply fmap_sublist, sublist_filter].
    rewrite <-list_fmap_compose.
    replace (fst ∘ prod_map id kind) with (@fst string Node) by done.
    apply NoDup_fst_map_to_list. }
  split; [|done].
  intros _ name. unfold Js.sort. rewrite merge_sort_Permutation, Hdir.
  rewrite list_elem_of_fmap. split.
  - intros ([k k'] & -> & [[Hk Hne] Hin]%list_elem_of_filter). simpl in *.
    apply list_elem_of_fmap in Hin as ([k1 n1] & [= -> ->] & Hin).
    apply elem_of_map_to_list in Hin. rewrite Hin. by destruct n1.
  - intros [Hk Hne]. destruct (es !! name) as [[c|es']|] eqn:En; try done.
    exists (name, KDir). split; [done|]. apply list_elem_of_filter. split; [done|].
    apply list_elem_of_fmap. exists (name, Dir es'). split; [done|].
    by apply elem_of_map_to_list.
Qed.

(** In [ScenarioDirs.many_dirs] the list is "Zeta", "feat-x", "z", U+1F600,
    U+FF21: the file and "v1-backup" are left out, and U+1F600, whose first
    code unit is D83D, comes before U+FF21. *)
Lemma listPlans_spec_witness :
  (listPlans ScenarioDirs.many_dirs).1 =
    Ok ["Zeta"; "feat-x"; "z"; ScenarioDirs.grinning; ScenarioDirs.fullwidth_A] ∧
  ∃ plans,
    (listPlans ScenarioDirs.many_dirs).1 = Ok plans ∧
    StronglySorted Js.code_unit_le plans ∧ NoDup plans ∧
    (no_fault (world ScenarioDirs.many_dirs) →
     ∀ name, name ∈ plans ↔
       is_dir (join (baseStorageDir (self ScenarioDirs.many_dirs)) name)
         (disk (world ScenarioDirs.many_dirs)) = true ∧
       name ≠ "v1-backup") ∧
    (get (baseStorageDir (self ScenarioDirs.many_dirs)) (disk (world ScenarioDirs.many_dirs)) = None →
     plans = []) ∧
    (¬ no_fault (world ScenarioDirs.many_dirs) → plans = []).
Proof. split; [by vm_compute|apply listPlans_spec]. Defined.

End ListPlans.

(** ** What the calls leave alone *)
Section DiskFrames.

Import Storage Fs.
#[local] Open Scope M_scope.

#[global] Instance same_at_po q : PreOrder (same_at q).
Proof. split; [by intros ?|intros ??? H1 H2; unfold same_at in *; congruence]. Qed.

Lemma frame_call_same_at {A} q c (f : Node → option (A * Node)) :
  (∀ d a d', f d = Some (a, d') → get q d' = get q d) →
  frame (same_at q) (await c (call c f)).
Proof.
  intros H. apply frame_await. intros st. unfold same_at. simpl.
  destruct (call_disk c f (world st)) as [->|(a & Hf & _)]; [done|]. by eapply H.
Qed.

Lemma frame_stat q p : frame (same_at q) (Storage.stat p).
Proof.
  apply frame_call_same_at. unfold stat_sem. intros d a d' H.
  destruct (get p d); simpl in H; by simplify_eq.
Qed.

Lemma frame_readFile q p : frame (same_at q) (Storage.readFile p).
Proof.
  apply frame_call_same_at. unfold readFile_sem. intros d a d' H.
  repeat case_match; by simplify_eq.
Qed.

Lemma frame_readdir q p : frame (same_at q) (Storage.readdir p).
Proof.
  apply frame_call_same_at. unfold readdir_sem. intros d a d' H.
  repeat case_match; by simplify_eq.
Qed.

Lemma frame_mkdir q p : diverge p q = true → frame (same_at q) (Storage.mkdir p).
Proof.
  intros Hd. apply frame_call_same_at. unfold mkdir_sem. intros d a d' H.
  destruct (mkdirp p d) eqn:E; simpl in H; simplify_eq. by eapply mkdirp_get_diverge.
Qed.

Lemma rename_sem_inv from to d d' :
  rename_sem from to d = Some ((), d') →
  ∃ n d1, get from d = Some n ∧ put from None d = Some d1 ∧ put to (Some n) d1 = Some d'.
Proof.
  unfold rename_sem. destruct (get from d) as [n|]; simpl; [|done].
  case_match; [|done]. destruct (put from None d) as [d1|]; simpl; [|done].
  destruct (put to (Some n) d1) as [d2|] eqn:E; simpl; [|done].
  intros [= <-]. eauto.
Qed.

Lemma frame_rename q from to :
  diverge from q = true → diverge to q = true → frame (same_at q) (Storage.rename from to).
Proof.
  intros H1 H2. apply frame_call_same_at. intros d [] d' H.
  apply rename_sem_inv in H as (n & d1 & _ & Hp1 & Hp2).
  rewrite (get_put_diverge _ _ _ _ _ H2 Hp2). exact (get_put_diverge _ _ _ _ _ H1 Hp1).
Qed.

Lemma copyFile_sem_inv src dst d d' :
  copyFile_sem src dst d = Some ((), d') →
  ∃ c, get src d = Some (File c) ∧ put dst (Some (File c)) d = Some d'.
Proof.
  unfold copyFile_sem. destruct (get src d) as [[c|]|]; [|done..].
  case_match; [|done]. destruct (put dst _ d) eqn:E; simpl; [|done].
  intros [= <-]. eauto.
Qed.

Lemma frame_copyFile q src dst :
  diverge dst q = true → frame (same_at q) (Storage.copyFile src dst).
Proof.
  intros H1. apply frame_call_same_at. intros d [] d' H.
  apply copyFile_sem_inv in H as (c & _ & Hp). by eapply get_put_diverge.
Qed.

Lemma rmdir_sem_inv p d d' :
  rmdir_sem p d = Some ((), d') → is_dir p d = true ∧ put p None d = Some d'.
Proof.
  unfold rmdir_sem. case_match; [|done]. destruct (put p None d); simpl; [|done].
  by intros [= <-].
Qed.

Lemma frame_rmdir q p : diverge p q = true → frame (same_at q) (Storage.rmdir p).
Proof.
  intros H1. apply frame_call_same_at. intros d [] d' H.
  apply rmdir_sem_inv in H as [_ Hp]. by eapply get_put_diverge.
Qed.

Lemma frame_writeFile q p c : diverge p q = true → frame (same_at q) (Storage.writeFile p c).
Proof.
  intros H1. apply frame_call_same_at. intros d [] d' H.
  apply writeFile_sem_inv in H. by eapply get_put_diverge.
Qed.

#[global] Instance calls_added_po : PreOrder calls_added.
Proof.
  split.
  - intros st. exists []. by rewrite app_nil_r.
  - intros st1 st2 st3 (c1 & T1 & F1) (c2 & T2 & F2). exists (c1 ++ c2).
    rewrite T2, T1, F2, F1, <-app_assoc, drop_drop, length_app. done.
Qed.

Lemma frame_await_calls {A} c (f : Node → option (A * Node)) :
  frame calls_added (await c (call c f)).
Proof.
  apply frame_await. intros st. exists [c]. simpl.
  rewrite call_trace, call_faults. split; [done|]. by destruct (faults (world st)).
Qed.

Lemma frame_assign_world R `{!Reflexive R} (f : t → t) :
  (∀ st st', world st = world st' → R st st') → frame R (assign f).
Proof. intros H st r st' [= <- <-]. by apply H. Qed.

End DiskFrames.

(** ** The migration of the legacy layout *)
Section Migration.

Import Storage Fs.
#[local] Open Scope M_scope.

Lemma bind_throw_not_Ok {A B} (m : M A) e st (b : B) st' :
  (m ;; throw e) st ≠ (Ok b, st').
Proof. unfold bind, throw. by destruct (m st) as [[| |] ?]. Qed.

Lemma try_catch_inv_Ok {A} (m : M A) h st a st' :
  try_catch m h st = (Ok a, st') →
  m st = (Ok a, st') ∨ ∃ e st1, m st = (Throw e, st1) ∧ h e st1 = (Ok a, st').
Proof. unfold try_catch. destruct (m st) as [[| |] ?]; eauto. Qed.

Lemma try_catch_throw_inv_Ok {A} (m : M A) (h : Error → Error) st a st' :
  try_catch m (λ e, throw (h e)) st = (Ok a, st') → m st = (Ok a, st').
Proof. intros [H|(e & st1 & _ & H)]%try_catch_inv_Ok; done. Qed.

(** A successful [rename] between two places that diverge. *)
Lemma rename_sem_moved from to d d' :
  diverge from to = true → rename_sem from to d = Some ((), d') →
  get from d' = None ∧ get to d' = get from d ∧ is_Some (get from d) ∧
  ∀ q, diverge from q = true → diverge to q = true → get q d' = get q d.
Proof.
  intros Hd (n & d1 & Hn & Hp1 & Hp2)%rename_sem_inv. repeat split.
  - rewrite diverge_sym in Hd. rewrite (get_put_diverge _ _ _ _ _ Hd Hp2).
    by eapply get_put_eq.
  - rewrite Hn. by eapply get_put_eq.
  - by rewrite Hn.
  - intros q H1 H2. rewrite (get_put_diverge _ _ _ _ _ H2 Hp2).
    exact (get_put_diverge _ _ _ _ _ H1 Hp1).
Qed.

Lemma stat_cases p st :
  ∃ r,
    Storage.stat p st =
    (r, mkState (self st)
          (mkWorld (disk (world st)) (tail (faults (world st))) (trace (world st) ++ [Stat p]))) ∧
    ((∃ n, r = Ok (kind n) ∧ no_fault (world st) ∧ get p (disk (world st)) = Some n) ∨
     (r = Throw (IOError (Stat p)) ∧
      (¬ no_fault (world st) ∨ get p (disk (world st)) = None))).
Proof.
  unfold Storage.stat, Fs.stat.
  destruct (await_cases (Stat p) (stat_sem p) st) as [(a & d' & H1 & H2 & ->)|(H & ->)].
  - unfold stat_sem in H2. destruct (get p _) as [n|] eqn:E; simpl in H2; [|done].
    injection H2 as <- <-. eauto 10.
  - eexists. split; [done|]. right. split; [done|]. destruct H as [H|H]; [by left|right].
    unfold stat_sem in H. by destruct (get p _).
Qed.

Lemma rename_cases from to st :
  ∃ r d',
    Storage.rename from to st =
    (r, mkState (self st)
          (mkWorld d' (tail (faults (world st))) (trace (world st) ++ [Rename from to]))) ∧
    ((r = Ok () ∧ no_fault (world st) ∧ rename_sem from to (disk (world st)) = Some ((), d')) ∨
     (r = Throw (IOError (Rename from to)) ∧ d' = disk (world st) ∧
      (¬ no_fault (world st) ∨ rename_sem from to (disk (world st)) = None))).
Proof.
  unfold Storage.rename, Fs.rename.
  destruct (await_cases (Rename from to) (rename_sem from to) st)
    as [([] & d' & H1 & H2 & ->)|(H & ->)]; eauto 10.
Qed.

Lemma backupFile_spec dir file ops st r st' :
  backupFile dir file ops st = (r, st') →
  self st' = self st ∧ backup_outcome dir file ops st st' r.
Proof.
  unfold backupFile, try_catch. unfold bind at 1.
  destruct (stat_cases (source file) st) as (r1 & -> & [(n & -> & Hnf & Hn)|(-> & Hn)]).
  - set (st1 := mkState _ _). unfold bind at 1.
    destruct (rename_cases (source file) (join dir (name file)) st1)
      as (r2 & d2 & -> & [(-> & Hnf2 & Hr)|(-> & -> & Hr)]).
    + unfold ret. intros [= <- <-]. split; [done|]. by apply backup_moved.
    + destruct (required file) eqn:Er; intros [= <- <-]; split; try done.
      * by apply backup_failed.
      * by apply backup_skipped.
  - destruct (required file) eqn:Er; intros [= <- <-]; split; try done.
    + by apply backup_failed.
    + by apply backup_skipped.
Qed.

Lemma frame_backupFile q dir file ops :
  diverge (source file) q = true → diverge (join dir (name file)) q = true →
  frame (same_at q) (backupFile dir file ops).
Proof.
  intros H1 H2. unfold backupFile.
  repeat first [apply frame_stat | by apply frame_rename | frame_step].
Qed.

Lemma frame_backupFiles q dir files ops :
  Forall (λ file, diverge (source file) q = true ∧
                  diverge (join dir (name file)) q = true) files →
  frame (same_at q) (backupFiles dir files ops).
Proof.
  intros H. revert ops. induction H as [|file files [H1 H2] _ IH]; intros ops; simpl.
  - apply frame_ret, _.
  - apply frame_bind; [apply _|by apply frame_backupFile|done].
Qed.

Lemma copyToMain_Ok all main op st st' :
  copyToMain all main op st = (Ok (), st') →
  Storage.copyFile (to op) (join main (basename (to op))) st = (Ok (), st').
Proof.
  unfold copyToMain. intros [H|(e & st1 & _ & H)]%try_catch_inv_Ok; [done|].
  by apply bind_throw_not_Ok in H.
Qed.

Lemma copyFiles_Ok_frame q all main todo st st' :
  diverge main q = true →
  copyFiles all main todo st = (Ok (), st') → same_at q st st'.
Proof.
  intros Hd. revert st. induction todo as [|op todo IH]; intros st; simpl.
  - by intros [= <-].
  - intros ([] & st1 & H1 & H2)%bind_inv_Ok. apply copyToMain_Ok in H1.
    etrans; [|by apply IH]. eapply frame_copyFile; [|done]. by apply diverge_join_l.
Qed.

End Migration.

(** Frames that hold of every call hold of the methods made of calls. *)
Section GenericFrames.

Import Storage Fs.
#[local] Open Scope M_scope.
Context (R : relation State) `{!PreOrder R}.
Context (Hawait : ∀ A c (f : Node → option (A * Node)), frame R (await c (call c f))).

Ltac gen_step := first [apply Hawait | frame_step].

Lemma frame_rollbackMigration ops main : frame R (rollbackMigration ops main).
Proof. unfold rollbackMigration. repeat gen_step. Qed.

Lemma frame_backupFiles_gen dir files ops : frame R (backupFiles dir files ops).
Proof.
  revert ops. induction files as [|f fs IH]; intros ops; simpl; [apply frame_ret, _|].
  apply frame_bind; [apply _| |done]. unfold backupFile. repeat gen_step.
Qed.

Lemma frame_copyFiles_gen all main todo : frame R (copyFiles all main todo).
Proof.
  induction todo as [|op todo IH]; simpl; [apply frame_ret, _|].
  apply frame_bind; [apply _| |done]. unfold copyToMain.
  repeat first [apply frame_rollbackMigration | gen_step].
Qed.

Lemma frame_migrateV1ToV2_gen : frame R migrateV1ToV2.
Proof.
  unfold migrateV1ToV2.
  repeat first [apply frame_backupFiles_gen | apply frame_copyFiles_gen | gen_step].
Qed.

Lemma frame_migrateIfV1_gen : frame R migrateIfV1.
Proof.
  unfold migrateIfV1, isV1Project.
  repeat first [apply frame_migrateV1ToV2_gen | gen_step].
Qed.

Lemma frame_save_gen : frame R save.
Proof. unfold save, generateMarkdownFiles. repeat gen_step. Qed.

Lemma frame_listPlans_gen : frame R listPlans.
Proof. unfold listPlans. repeat gen_step. Qed.

End GenericFrames.

(** *** A second migration *)
Section MigrationTwice.

Import Storage Fs.
#[local] Open Scope M_scope.

Lemma backupFiles_cons dir file rest ops :
  backupFiles dir (file :: rest) ops =
  (ops' <- backupFile dir file ops ;; backupFiles dir rest ops').
Proof. done. Qed.

(** After a migration that succeeded, the record file is gone from the
    base directory. *)
Lemma migrateV1ToV2_Ok_moved st st' :
  migrateV1ToV2 st = (Ok (), st') →
  get (join (baseStorageDir (self st)) "data.json") (disk (world st')) = None.
Proof.
  unfold migrateV1ToV2. unfold bind at 1, this at 1.
  intros H%try_catch_throw_inv_Ok.
  apply bind_inv_Ok in H as ([] & st1 & _ & H).
  apply bind_inv_Ok in H as ([] & st2 & _ & H).
  apply bind_inv_Ok in H as (ops & st3 & H3 & H).
  set (base := baseStorageDir (self st)) in *.
  set (q := join base "data.json") in *.
  rewrite backupFiles_cons in H3.
  apply bind_inv_Ok in H3 as (ops1 & st2a & Hb & H3).
  apply backupFile_spec in Hb as [_ Hb]. inversion Hb as [Hr| |]; subst; [|done].
  cbn [source name] in Hr.
  apply rename_sem_moved in Hr as (Hnone & _).
  2:{ unfold q, join. rewrite <-app_assoc, diverge_app. done. }
  assert (same_at q st2a st3) as F3.
  { eapply frame_backupFiles; [|exact H3].
    repeat constructor; cbn [source name]; unfold q, join;
      rewrite <-?app_assoc, diverge_app; done. }
  assert (same_at q st3 st') as F4.
  { eapply copyFiles_Ok_frame; [|exact H]. unfold q, join. by rewrite diverge_app. }
  unfold same_at in *. congruence.
Qed.

Lemma isV1Project_absent st :
  get (join (baseStorageDir (self st)) "data.json") (disk (world st)) = None →
  ∃ st', isV1Project st = (Ok false, st') ∧
         self st' = self st ∧ disk (world st') = disk (world st) ∧
         faults (world st') = tail (faults (world st)).
Proof.
  intros Hg. unfold isV1Project. unfold bind at 1, this at 1. unfold try_catch, bind.
  destruct (stat_cases (join (baseStorageDir (self st)) "data.json") st)
    as (r & -> & [(n & -> & _ & Hn)|(-> & _)]); [congruence|].
  by eexists.
Qed.

(** C4: after a migration that succeeded, the record file is no longer in
    the base directory; from then on the check for the legacy layout
    answers no, whatever failures are to come, and the migration step of
    [initialize] leaves the whole tree, the directory of "main" included, as
    it is. *)
Theorem migration_twice_is_noop st st' :
  migrateV1ToV2 st = (Ok (), st') →
  get (join (baseStorageDir (self st)) "data.json") (disk (world st')) = None ∧
  ∀ st2, baseStorageDir (self st2) = baseStorageDir (self st) →
         disk (world st2) = disk (world st') →
         (isV1Project st2).1 = Ok false ∧
         (migrateIfV1 st2).1 = Ok () ∧
         disk (world (migrateIfV1 st2).2) = disk (world st').
Proof.
  intros H. pose proof (migrateV1ToV2_Ok_moved _ _ H) as Hg. split; [done|].
  intros st2 Hb Hd. rewrite <-Hb, <-Hd in Hg.
  destruct (isV1Project_absent st2 Hg) as (st3 & E & H2 & H3 & _).
  unfold migrateIfV1, bind. rewrite E. simpl. by rewrite H3.
Qed.

End MigrationTwice.

(** *** [rollbackMigration] *)
Section Rollback.

Import Storage Fs.
#[local] Open Scope M_scope.

Lemma bind_inv_Throw {A B} (m : M A) (k : A → M B) st e st' :
  bind m k st = (Throw e, st') →
  m st = (Throw e, st') ∨ ∃ a st1, m st = (Ok a, st1) ∧ k a st1 = (Throw e, st').
Proof.
  unfold bind. destruct (m st) as [[a|e'|] st1]; [|intros [= -> ->]; by left|done].
  intros H. right. by eexists _, _.
Qed.

Lemma try_catch_swallow (m : M unit) st :
  (∀ st', m st ≠ (Untyped, st')) →
  ∃ st', try_catch m (λ _, ret ()) st = (Ok (), st') ∧ st' = (m st).2.
Proof.
  intros H. unfold try_catch, ret. destruct (m st) as [[[]|e|] st1] eqn:E; eauto.
  by destruct (H st1).
Qed.

Lemma rmdir_cases p st :
  ∃ r d',
    Storage.rmdir p st =
    (r, mkState (self st)
          (mkWorld d' (tail (faults (world st))) (trace (world st) ++ [Rmdir p]))) ∧
    ((r = Ok () ∧ no_fault (world st) ∧ rmdir_sem p (disk (world st)) = Some ((), d')) ∨
     (r = Throw (IOError (Rmdir p)) ∧ d' = disk (world st) ∧
      (¬ no_fault (world st) ∨ rmdir_sem p (disk (world st)) = None))).
Proof.
  unfold Storage.rmdir, Fs.rmdir.
  destruct (await_cases (Rmdir p) (rmdir_sem p) st)
    as [([] & d' & H1 & H2 & ->)|(H & ->)]; eauto 10.
Qed.

Lemma drop_S_tail {A} n (l : list A) : drop (S n) l = drop n (tail l).
Proof. destruct l; [by destruct n|done]. Qed.

Lemma restore_cons op ops :
  restore (op :: ops) =
  (try_catch (Storage.rename (to op) (from op)) (λ _, ret ()) ;; restore ops).
Proof. done. Qed.

Lemma restore_run ops st :
  ∃ st', restore ops st = (Ok (), st') ∧ self st' = self st ∧
         trace (world st') = trace (world st) ++ ((λ op, Rename (to op) (from op)) <$> ops) ∧
         faults (world st') = drop (length ops) (faults (world st)).
Proof.
  revert st. induction ops as [|op ops IH]; intros st.
  - exists st. by rewrite app_nil_r.
  - rewrite restore_cons. unfold bind, try_catch.
    destruct (rename_cases (to op) (from op) st) as (r & d' & -> & H).
    set (st1 := mkState _ _). destruct (IH st1) as (st' & E & Hs & Ht & Hf).
    exists st'. rewrite Ht, Hf. simpl. rewrite <-app_assoc, drop_S_tail.
    destruct H as [(-> & _)|(-> & _)]; unfold ret; by rewrite E.
Qed.

Lemma frame_restore q ops :
  Forall (λ op, diverge (from op) q = true ∧ diverge (to op) q = true) ops →
  frame (same_at q) (restore ops).
Proof.
  intros H. apply frame_for_of; [apply _|]. intros op Hop.
  rewrite Forall_forall in H. destruct (H op Hop).
  apply frame_try_catch; [apply _|by apply frame_rename|intros; apply frame_ret, _].
Qed.

Lemma get_join_Some_is_dir p x d n : get (join p x) d = Some n → is_dir p d = true.
Proof. rewrite get_join. unfold is_dir. by destruct (get p d) as [[|]|]. Qed.

Lemma is_dir_join_parent p x d : is_dir (join p x) d = true → is_dir p d = true.
Proof.
  unfold is_dir at 1. destruct (get (join p x) d) eqn:E; [|done].
  intros _. by eapply get_join_Some_is_dir.
Qed.

Lemma diverge_backup_base base n n' :
  n' ≠ "v1-backup" → diverge (join (join base "v1-backup") n) (join base n') = true.
Proof.
  intros H. unfold join. rewrite <-app_assoc, diverge_app. simpl.
  by rewrite decide_False.
Qed.

Lemma diverge_backup_backup base n n' :
  n ≠ n' → diverge (join (join base "v1-backup") n) (join (join base "v1-backup") n') = true.
Proof. intros H. by apply diverge_join. Qed.

(** Moving a file back from the backup directory succeeds when the file is
    there and its place in the base directory is free. *)
Lemma rename_back_ok base n d x :
  n ≠ "v1-backup" →
  is_dir base d = true →
  get (join (join base "v1-backup") n) d = Some x →
  get (join base n) d = None →
  ∃ d', rename_sem (join (join base "v1-backup") n) (join base n) d = Some ((), d').
Proof.
  intros Hn Hb Hx Hfree. unfold rename_sem. rewrite Hx, Hfree. simpl.
  pose proof (get_join_Some_is_dir _ _ _ _ Hx) as Hbk.
  destruct (put_is_Some _ n None d Hbk) as [d1 Hd1]. fold (join (join base "v1-backup") n) in Hd1.
  rewrite Hd1. simpl.
  assert (is_dir base d1 = true) as Hb1.
  { unfold join in Hd1. rewrite <-app_assoc in Hd1.
    by eapply (is_dir_put_prefix base (["v1-backup"] ++ [n])). }
  destruct (put_is_Some _ n (Some x) d1 Hb1) as [d2 Hd2]. fold (join base n) in Hd2.
  rewrite Hd2. destruct x; simpl; eauto.
Qed.

Lemma rename_sem_is_dir_to_parent from p x d d' :
  rename_sem from (join p x) d = Some ((), d') → is_dir p d' = true.
Proof.
  intros (n & d1 & _ & _ & H)%rename_sem_inv. by eapply (is_dir_put_prefix _ [x]).
Qed.

Lemma restore_restores base ns st st' :
  restore (mv base <$> ns) st = (Ok (), st') →
  NoDup ns → "v1-backup" ∉ ns →
  Forall (λ b, b = false) (take (length ns) (faults (world st))) →
  is_dir base (disk (world st)) = true →
  Forall (λ n, is_Some (get (join (join base "v1-backup") n) (disk (world st))) ∧
               get (join base n) (disk (world st)) = None) ns →
  Forall (λ n, get (join base n) (disk (world st')) =
               get (join (join base "v1-backup") n) (disk (world st))) ns.
Proof.
  revert st. induction ns as [|n ns IH]; intros st E Hnd Hbk Hf Hb Hpre; [constructor|].
  apply NoDup_cons in Hnd as [Hn Hnd]. apply not_elem_of_cons in Hbk as [Hnb' Hbk].
  assert (Hnb : n ≠ "v1-backup") by done.
  apply Forall_cons in Hpre as [[[x Hx] Hfree] Hpre].
  rewrite fmap_cons, restore_cons in E. unfold bind at 1, try_catch in E. cbn [mv to from] in E.
  destruct (rename_cases (join (join base "v1-backup") n) (join base n) st)
    as (r & d1 & E1 & [(-> & _ & Hr)|(-> & -> & [Hnf|Hr])]); rewrite E1 in E.
  2:{ destruct Hnf. unfold no_fault. destruct (faults (world st)) as [|[]]; try done.
      simpl in Hf. by apply Forall_cons in Hf as [? _]. }
  2:{ destruct (rename_back_ok base n _ x Hnb Hb Hx Hfree) as [d' Hd']. congruence. }
  set (st1 := mkState _ _) in E.
  pose proof (rename_sem_is_dir_to_parent _ _ _ _ _ Hr) as Hb1.
  apply rename_sem_moved in Hr as (Hfrom & Hto & _ & Hframe);
    [|by apply diverge_backup_base].
  assert (Hrest : Forall (λ op, diverge (from op) (join base n) = true ∧
                                diverge (to op) (join base n) = true) (mv base <$> ns)).
  { apply Forall_fmap, Forall_forall. intros n' Hn'. simpl. split.
    - apply diverge_join. by intros ->.
    - by apply diverge_backup_base; intros ->. }
  constructor.
  - pose proof (frame_restore _ _ Hrest _ _ _ E) as F. unfold same_at in F.
    rewrite F. cbn [st1 world disk]. by rewrite Hto.
  - assert (Hsame : ∀ n', n' ∈ ns →
              get (join (join base "v1-backup") n') d1 =
                get (join (join base "v1-backup") n') (disk (world st)) ∧
              get (join base n') d1 = get (join base n') (disk (world st))).
    { intros n' Hn'. assert (n ≠ n') by (by intros ->).
      assert (n' ≠ "v1-backup") by (by intros ->).
      split; apply Hframe.
      - by apply diverge_backup_backup.
      - rewrite diverge_sym. by apply diverge_backup_base.
      - by apply diverge_backup_base.
      - by apply diverge_join. }
    specialize (IH st1 E Hnd Hbk).
    assert (IH' : Forall (λ n', get (join base n') (disk (world st')) =
                       get (join (join base "v1-backup") n') (disk (world st1))) ns).
    { apply IH; [|done|].
      - cbn [st1 world faults]. destruct (faults (world st)); cbn [tail].
        + rewrite take_nil. constructor.
        + simpl in Hf. by apply Forall_cons in Hf as [_ ?].
      - rewrite Forall_forall in Hpre |- *. intros n' Hn'. cbn [st1 world disk].
        destruct (Hsame n' Hn') as [-> ->]. by apply Hpre. }
    rewrite Forall_forall in IH' |- *. intros n' Hn'. rewrite (IH' n' Hn').
    cbn [st1 world disk]. by destruct (Hsame n' Hn') as [-> _].
Qed.

End Rollback.

Section RollbackRuns.
Import Storage Fs.
#[local] Open Scope M_scope.

Lemma rollbackMigration_eq ops main :
  rollbackMigration ops main =
  try_catch (try_catch (Storage.rmdir main) (λ _, ret ()) ;; restore ops) (λ _, ret ()).
Proof. done. Qed.

(** [rollbackMigration] never throws: it makes its calls, the removal of
    "main" and one [rename] for each operation, and returns. *)
Lemma rollback_run ops main st :
  ∃ st', rollbackMigration ops main st = (Ok (), st') ∧ self st' = self st ∧
         trace (world st') = trace (world st) ++ rollback_calls main ops ∧
         faults (world st') = drop (S (length ops)) (faults (world st)).
Proof.
  rewrite rollbackMigration_eq. unfold try_catch at 1, bind, try_catch.
  destruct (rmdir_cases main st) as (r & d' & -> & H).
  set (st1 := mkState _ _). destruct (restore_run ops st1) as (st' & E & Hs & Ht & Hf).
  exists st'. rewrite Ht, Hf. cbn [st1 world trace faults self].
  rewrite <-app_assoc, drop_S_tail. unfold rollback_calls.
  destruct H as [(-> & _)|(-> & _)]; unfold ret; by rewrite E.
Qed.

Lemma diverge_main_base base n :
  n ≠ "main" → diverge (join base "main") (join base n) = true.
Proof. intros H. apply diverge_join. by intros <-. Qed.

Lemma diverge_main_backup base n :
  diverge (join base "main") (join (join base "v1-backup") n) = true.
Proof. unfold join. by rewrite <-app_assoc, diverge_app. Qed.

(** When none of its calls fails, [rollbackMigration] removes "main" and
    puts every file moved to the backup directory back in its place. *)
Lemma rollback_restores base ns st st' :
  rollbackMigration (mv base <$> ns) (join base "main") st = (Ok (), st') →
  NoDup ns → "v1-backup" ∉ ns → "main" ∉ ns →
  Forall (λ b, b = false) (take (S (length ns)) (faults (world st))) →
  is_dir (join base "main") (disk (world st)) = true →
  Forall (λ n, is_Some (get (join (join base "v1-backup") n) (disk (world st))) ∧
               get (join base n) (disk (world st)) = None) ns →
  get (join base "main") (disk (world st')) = None ∧
  Forall (λ n, get (join base n) (disk (world st')) =
               get (join (join base "v1-backup") n) (disk (world st))) ns.
Proof.
  intros E Hnd Hbk Hmain Hf Hdir Hpre.
  rewrite rollbackMigration_eq in E. unfold try_catch at 1, bind, try_catch in E.
  destruct (rmdir_cases (join base "main") st)
    as (r & d1 & E1 & [(-> & _ & Hr)|(-> & -> & [Hnf|Hr])]); rewrite E1 in E.
  2:{ destruct Hnf. unfold no_fault. destruct (faults (world st)) as [|[]]; try done.
      simpl in Hf. by apply Forall_cons in Hf as [? _]. }
  2:{ unfold rmdir_sem in Hr. rewrite Hdir in Hr.
      destruct (put_is_Some base "main" None _ (is_dir_join_parent _ _ _ Hdir)) as [d' Hd'].
      fold (join base "main") in Hd'. by rewrite Hd' in Hr. }
  unfold ret in E. set (st1 := mkState _ _) in E.
  assert (E' : restore (mv base <$> ns) st1 = (Ok (), st')).
  { destruct (restore_run (mv base <$> ns) st1) as (st2 & E2 & _).
    rewrite E2 in E. by injection E as <-. }
  apply rmdir_sem_inv in Hr as [_ Hp].
  assert (Hgone : get (join base "main") d1 = None) by (by eapply get_put_eq).
  assert (Hframe : ∀ n, n ∈ ns →
            get (join (join base "v1-backup") n) d1 =
              get (join (join base "v1-backup") n) (disk (world st)) ∧
            get (join base n) d1 = get (join base n) (disk (world st))).
  { intros n Hn. split.
    - eapply get_put_diverge; [|done]. apply diverge_main_backup.
    - eapply get_put_diverge; [|done]. apply diverge_main_base. by intros ->. }
  split.
  - rewrite <-Hgone.
    assert (HF : Forall (λ op, diverge (from op) (join base "main") = true ∧
                               diverge (to op) (join base "main") = true) (mv base <$> ns)).
    { apply Forall_fmap, Forall_forall. intros n Hn. simpl. split.
      - rewrite diverge_sym. apply diverge_main_base. by intros ->.
      - rewrite diverge_sym. apply diverge_main_backup. }
    exact (frame_restore _ _ HF _ _ _ E').
  - assert (H : Forall (λ n, get (join base n) (disk (world st')) =
                   get (join (join base "v1-backup") n) (disk (world st1))) ns).
    { apply restore_restores; try done.
      - cbn [st1 world faults]. destruct (faults (world st)); cbn [tail].
        + rewrite take_nil. constructor.
        + simpl in Hf. by apply Forall_cons in Hf as [_ ?].
      - cbn [st1 world disk]. by eapply (is_dir_put_prefix base ["main"]).
      - rewrite Forall_forall in Hpre |- *. intros n Hn. cbn [st1 world disk].
        destruct (Hframe n Hn) as [-> ->]. by apply Hpre. }
    rewrite Forall_forall in H |- *. intros n Hn. rewrite (H n Hn).
    cbn [st1 world disk]. by destruct (Hframe n Hn) as [-> _].
Qed.

End RollbackRuns.

(** *** The two loops of [migrateV1ToV2] *)
Section BackupLoop.

Import Storage Fs.
#[local] Open Scope M_scope.

(** The first loop, when it returns: the files it moved are in the backup
    directory, and the others are where they were. *)
Lemma backupFiles_Ok base files ops0 st ops st' :
  Forall (λ f, source f = join base (name f)) files →
  NoDup (name <$> files) → "v1-backup" ∉ name <$> files →
  backupFiles (join base "v1-backup") files ops0 st = (Ok ops, st') →
  ∃ ns, ops = ops0 ++ (mv base <$> ns) ∧ NoDup ns ∧ ns ⊆ name <$> files ∧
        Forall (moved base (disk (world st)) (disk (world st'))) ns ∧
        (∀ n, n ∈ name <$> files → n ∉ ns →
              get (join base n) (disk (world st')) = get (join base n) (disk (world st))).
Proof.
  intros Hsrc. revert ops0 st. induction Hsrc as [|f fs Hf Hsrc IH]; intros ops0 st Hnd Hbk E.
  { injection E as <- <-. exists []. rewrite app_nil_r.
    repeat split; try done; try constructor. }
  rewrite fmap_cons in Hnd, Hbk.
  apply NoDup_cons in Hnd as [Hn Hnd]. apply not_elem_of_cons in Hbk as [Hnb' Hbk].
  assert (Hnb : name f ≠ "v1-backup") by done.
  rewrite backupFiles_cons in E. apply bind_inv_Ok in E as (ops1 & st1 & E1 & E).
  destruct (IH ops1 st1 Hnd Hbk E) as (ns & -> & Hnd' & Hsub & Hmoved & Hrest).
  (* what lies at the two places of [f] is left alone by the rest of the loop *)
  assert (Hkeep : ∀ q, (q = join base (name f) ∨ q = join (join base "v1-backup") (name f)) →
            get q (disk (world st')) = get q (disk (world st1))).
  { intros q Hq. eapply (frame_backupFiles q); [|exact E].
    rewrite Forall_forall in Hsrc |- *. intros f' Hf'. rewrite (Hsrc f' Hf').
    assert (name f' ≠ name f).
    { intros Heq. apply Hn. rewrite <-Heq. by apply list_elem_of_fmap_2. }
    assert (name f' ≠ "v1-backup").
    { intros Heq. apply Hbk. rewrite <-Heq. by apply list_elem_of_fmap_2. }
    destruct Hq as [-> | ->]; split.
    - by apply diverge_join.
    - by apply diverge_backup_base.
    - rewrite diverge_sym. by apply diverge_backup_base.
    - by apply diverge_backup_backup. }
  apply backupFile_spec in E1 as [_ Hout].
  inversion Hout as [Hr|Hreq Hd|]; subst.
  - (* moved *)
    rewrite Hf in Hr.
    apply rename_sem_moved in Hr as (Hfrom & Hto & Hsome & Hframe);
      [|rewrite diverge_sym; by apply diverge_backup_base].
    exists (name f :: ns). split; [|split; [|split; [|split]]].
    + rewrite <-app_assoc. unfold op_of. by rewrite Hf.
    + apply NoDup_cons. split; [|done]. intros Hin. by apply Hn, Hsub.
    + intros n [->|Hin]%elem_of_cons; [by left|right; by apply Hsub].
    + constructor.
      * unfold moved. rewrite !Hkeep by auto. rewrite Hto. by repeat split.
      * rewrite Forall_forall in Hmoved |- *. intros n Hin.
        destruct (Hmoved n Hin) as (H1 & H2 & H3). repeat split; try done.
        rewrite H3. assert (n ≠ name f) by (intros ->; by apply Hn, Hsub).
        assert (n ≠ "v1-backup") by (intros ->; by apply Hbk, Hsub).
        apply Hframe; [by apply diverge_join|].
        by apply diverge_backup_base.
    + intros n [->|Hin]%elem_of_cons Hnot.
      { destruct Hnot. by left. }
      rewrite Hrest; [|done|by intros ?; apply Hnot; right].
      assert (n ≠ name f) by (intros ->; by apply Hn).
      assert (n ≠ "v1-backup") by (intros ->; by apply Hbk).
      apply Hframe; [by apply diverge_join|by apply diverge_backup_base].
  - (* skipped *)
    exists ns. split; [done|]. split; [done|]. split; [|split].
    + intros n Hin. right. by apply Hsub.
    + by rewrite <-Hd.
    + intros n [->|Hin]%elem_of_cons Hnot.
      * rewrite Hkeep by auto. by rewrite Hd.
      * rewrite <-Hd. by apply Hrest.
Qed.

End BackupLoop.

Section CopyLoop.
Import Storage Fs.
#[local] Open Scope M_scope.

Lemma copyFile_cases src dst st :
  ∃ r d',
    Storage.copyFile src dst st =
    (r, mkState (self st)
          (mkWorld d' (tail (faults (world st))) (trace (world st) ++ [CopyFile src dst]))) ∧
    ((r = Ok () ∧ no_fault (world st) ∧ copyFile_sem src dst (disk (world st)) = Some ((), d')) ∨
     (r = Throw (IOError (CopyFile src dst)) ∧ d' = disk (world st))).
Proof.
  unfold Storage.copyFile, Fs.copyFile.
  destruct (await_cases (CopyFile src dst) (copyFile_sem src dst) st)
    as [([] & d' & H1 & H2 & ->)|(H & ->)]; eauto 10.
Qed.

Lemma mkdir_cases p st :
  ∃ r d',
    Storage.mkdir p st =
    (r, mkState (self st)
          (mkWorld d' (tail (faults (world st))) (trace (world st) ++ [Mkdir p]))) ∧
    ((r = Ok () ∧ no_fault (world st) ∧ mkdirp p (disk (world st)) = Some d') ∨
     (r = Throw (IOError (Mkdir p)) ∧ d' = disk (world st))).
Proof.
  unfold Storage.mkdir, Fs.mkdir.
  destruct (await_cases (Mkdir p) (mkdir_sem p) st)
    as [([] & d' & H1 & H2 & ->)|(H & ->)]; [|eauto 10].
  unfold mkdir_sem in H2. destruct (mkdirp p _) eqn:E; simpl in H2; [|done].
  injection H2 as ->. eauto 10.
Qed.

(** The second loop, when it throws: a copy failed in some state [st4], and
    [rollbackMigration] ran from there to the end. Up to [st4] the loop has
    written inside "main" only. *)
Lemma copyFiles_Throw all main todo st e st' :
  copyFiles all main todo st = (Throw e, st') →
  ∃ cause st4,
    e = CopyToMainFailed cause ∧
    rollbackMigration all main st4 = (Ok (), st') ∧
    self st4 = self st ∧ calls_added st st4 ∧
    (∀ q, diverge main q = true → same_at q st st4) ∧
    (is_dir main (disk (world st)) = true → is_dir main (disk (world st4)) = true).
Proof.
  revert st. induction todo as [|op todo IH]; intros st E; [done|].
  simpl in E. apply bind_inv_Throw in E as [E|([] & st1 & E1 & E)].
  - unfold copyToMain, try_catch in E.
    destruct (copyFile_cases (to op) (join main (basename (to op))) st)
      as (r & d' & E1 & [(-> & _)|(-> & ->)]); rewrite E1 in E; [done|].
    set (st4 := mkState _ _) in E. unfold bind in E.
    destruct (rollback_run all main st4) as (st2 & E2 & _). rewrite E2 in E.
    injection E as <- <-. exists (IOError (CopyFile (to op) (join main (basename (to op))))), st4.
    repeat split; try done.
    exists [CopyFile (to op) (join main (basename (to op)))]. split; [done|].
    cbn [st4 world faults]. by destruct (faults (world st)).
  - apply copyToMain_Ok in E1. destruct (IH st1 E) as (cause & st4 & -> & Hr & Hs & Hc & Hf & Hd).
    exists cause, st4. split; [done|]. split; [done|].
    destruct (copyFile_cases (to op) (join main (basename (to op))) st)
      as (r & d' & E2 & [(-> & _ & Hsem)|(-> & ->)]); rewrite E2 in E1; [|done].
    injection E1 as <-. split; [done|]. split; [|split].
    + etrans; [|exact Hc]. exists [CopyFile (to op) (join main (basename (to op)))].
      split; [done|]. simpl. by destruct (faults (world st)).
    + intros q Hq. etrans; [|by apply Hf]. unfold same_at. simpl.
      apply copyFile_sem_inv in Hsem as (c & _ & Hp).
      eapply get_put_diverge; [|done]. by apply diverge_join_l.
    + intros _. apply Hd. simpl.
      apply copyFile_sem_inv in Hsem as (c & _ & Hp).
      by eapply (is_dir_put_prefix main [basename (to op)]).
Qed.

(** The first loop does not throw when no file is required. *)
Lemma backupFiles_optional dir files ops st :
  Forall (λ f, required f = false) files →
  ∃ ops' st', backupFiles dir files ops st = (Ok ops', st').
Proof.
  intros H. revert ops st. induction H as [|f fs Hf _ IH]; intros ops st; [by eexists _, _|].
  rewrite backupFiles_cons. unfold bind.
  destruct (backupFile dir f ops st) as [r st1] eqn:E.
  apply backupFile_spec in E as [_ Hout]. inversion Hout; subst; [apply IH..|congruence].
Qed.

End CopyLoop.

(** *** A migration that fails *)
Section MigrationTrace.

Import Storage Fs.
#[local] Open Scope M_scope.

#[global] Instance calls_in_po P : PreOrder (calls_in P).
Proof.
  split.
  - intros st. exists []. by rewrite app_nil_r.
  - intros st1 st2 st3 (c1 & T1 & F1) (c2 & T2 & F2). exists (c1 ++ c2).
    rewrite T2, T1, <-app_assoc. split; [done|]. by apply Forall_app.
Qed.

Lemma frame_await_calls_in {A} (P : Call → Prop) c (f : Node → option (A * Node)) :
  P c → frame (calls_in P) (await c (call c f)).
Proof.
  intros H. apply frame_await. intros st. exists [c]. simpl.
  rewrite call_trace. split; [done|]. by constructor.
Qed.

Lemma frame_backupFile_not_rmdir dir file ops :
  frame (calls_in not_rmdir) (backupFile dir file ops).
Proof.
  unfold backupFile.
  repeat first [by apply frame_await_calls_in | frame_step].
Qed.

Lemma try_catch_throw_inv_Throw {A} (m : M A) (h : Error → Error) st e st' :
  try_catch m (λ e, throw (h e)) st = (Throw e, st') →
  ∃ cause, m st = (Throw cause, st') ∧ e = h cause.
Proof.
  unfold try_catch, throw. destruct (m st) as [[a|e'|] st1]; [done| |done].
  intros [= <- <-]. eauto.
Qed.

Lemma frame_rollback_same_at q ops main :
  diverge main q = true →
  Forall (λ op, diverge (from op) q = true ∧ diverge (to op) q = true) ops →
  frame (same_at q) (rollbackMigration ops main).
Proof.
  intros Hm Hops. rewrite rollbackMigration_eq.
  apply frame_try_catch; [apply _| |intros; apply frame_ret, _].
  apply frame_bind; [apply _| |intros; by apply frame_restore].
  apply frame_try_catch; [apply _|by apply frame_rmdir|intros; apply frame_ret, _].
Qed.

Lemma legacy_names_spec n :
  n ∈ legacy_names → n ≠ "v1-backup" ∧ n ≠ "main".
Proof.
  unfold legacy_names. rewrite !elem_of_cons, elem_of_nil.
  intros [->|[->|[->|[]]]]; by split.
Qed.

End MigrationTrace.

Section MigrationFailure.
Import Storage Fs.
#[local] Open Scope M_scope.

(** C1, amended: a migration that fails throws [MigrationFailed], in one of
    two ways.

    - A copy into "main" failed. Then [rollbackMigration] ran before the
      error was thrown: its calls, the removal of "main" and the renames back,
      are the last of the trace. When none of these calls fails, "main" is
      gone and the three legacy places in the base directory hold what they
      held before the migration.
    - It failed earlier, creating a directory or moving the record file.
      Then [rollbackMigration] did not run, nothing had been moved, and the
      three legacy places hold what they held before. *)
Theorem migration_failure st e st' :
  migrateV1ToV2 st = (Throw e, st') →
  let base := baseStorageDir (self st) in
  let main := join base "main" in
  (∃ cause pre ns,
     e = MigrationFailed (CopyToMainFailed cause) ∧
     trace (world st') = trace (world st) ++ pre ++ rollback_calls main (mv base <$> ns) ∧
     (Forall (λ b, b = false)
             (take (S (length ns)) (drop (length pre) (faults (world st)))) →
      get main (disk (world st')) = None ∧
      ∀ n, n ∈ legacy_names →
           get (join base n) (disk (world st')) = get (join base n) (disk (world st))))
  ∨
  (∃ cause calls,
     e = MigrationFailed cause ∧ (∀ c, cause ≠ CopyToMainFailed c) ∧
     trace (world st') = trace (world st) ++ calls ∧ Forall not_rmdir calls ∧
     ∀ n, n ∈ legacy_names →
          get (join base n) (disk (world st')) = get (join base n) (disk (world st))).
Proof.
  intros E base main. unfold migrateV1ToV2 in E. unfold bind at 1, this at 1 in E.
  fold base in E. fold main in E. set (backup := join base "v1-backup") in *.
  apply try_catch_throw_inv_Throw in E as (cause & E & ->).
  (* creating the backup directory *)
  unfold bind at 1 in E.
  destruct (mkdir_cases backup st) as (r1 & d1 & E1 & [(-> & _ & Hm1)|(-> & ->)]);
    rewrite E1 in E.
  2:{ injection E as <- <-. right. eexists _, [Mkdir backup]. simpl.
      repeat split; try done. by repeat constructor. }
  set (st1 := mkState _ _) in E.
  assert (L1 : ∀ n, n ∈ legacy_names → get (join base n) d1 = get (join base n) (disk (world st))).
  { intros n [Hn _]%legacy_names_spec. eapply mkdirp_get_diverge; [|done].
    apply diverge_join. by intros <-. }
  (* creating "main" *)
  unfold bind at 1 in E.
  destruct (mkdir_cases main st1) as (r2 & d2 & E2 & [(-> & _ & Hm2)|(-> & ->)]);
    rewrite E2 in E.
  2:{ injection E as <- <-. right. eexists _, [Mkdir backup; Mkdir main]. simpl.
      rewrite <-app_assoc. repeat split; try done. by repeat constructor. }
  set (st2 := mkState _ _) in E. cbn [st1 world disk] in Hm2.
  assert (L2 : ∀ n, n ∈ legacy_names → get (join base n) d2 = get (join base n) (disk (world st))).
  { intros n Hn. rewrite <-L1 by done. apply legacy_names_spec in Hn as [_ Hn].
    eapply mkdirp_get_diverge; [|done]. apply diverge_join. by intros <-. }
  assert (T2 : trace (world st2) = trace (world st) ++ [Mkdir backup; Mkdir main]).
  { cbn [st2 st1 world trace]. by rewrite <-app_assoc. }
  assert (F2 : faults (world st2) = drop 2 (faults (world st))).
  { cbn [st2 st1 world faults]. by destruct (faults (world st)) as [|? [|? ?]]. }
  apply bind_inv_Throw in E as [E|(ops & st3 & E3 & E)].
  - (* moving the record file *)
    right. rewrite backupFiles_cons in E. apply bind_inv_Throw in E as [E|(ops1 & st2a & _ & E)].
    2:{ edestruct backupFiles_optional as (? & ? & E'); [|rewrite E' in E; done].
        by repeat constructor. }
    pose proof (frame_backupFile_not_rmdir _ _ _ _ _ _ E) as (calls & Tc & Hc).
    apply backupFile_spec in E as [_ Hout]. inversion Hout as [| |c Hreq Hd]; subst.
    eexists _, ([Mkdir backup; Mkdir main] ++ calls). split; [done|]. split; [done|].
    split; [by rewrite Tc, T2, <-app_assoc|]. split; [by repeat constructor|].
    intros n Hn. rewrite Hd. by apply L2.
  - (* copying *)
    left.
    assert (Hfiles : Forall (λ f, source f = join base (name f))
              [mkFile (join base "data.json") "data.json" true;
               mkFile (join base "plan.md") "plan.md" false;
               mkFile (join base "tasks.md") "tasks.md" false]) by (by repeat constructor).
    pose proof (frame_backupFiles_gen calls_added (@frame_await_calls) _ _ _ _ _ _ E3) as C3.
    assert (D3 : is_dir main (disk (world st3)) = true).
    { assert (HF : Forall (λ file, diverge (source file) main = true ∧
                       diverge (join backup (name file)) main = true)
                [mkFile (join base "data.json") "data.json" true;
                 mkFile (join base "plan.md") "plan.md" false;
                 mkFile (join base "tasks.md") "tasks.md" false]).
      { repeat constructor; cbn [source name].
        all: first [ rewrite diverge_sym; apply diverge_main_base; done
                   | rewrite diverge_sym; apply diverge_main_backup ]. }
      pose proof (frame_backupFiles main _ _ _ HF _ _ _ E3) as Heq.
      unfold is_dir. rewrite Heq. by apply (mkdirp_is_dir _ _ _ Hm2). }
    apply backupFiles_Ok with (base := base) in E3
      as (ns & -> & Hnd & Hsub & Hmoved & Hrest);
      [|done|by apply (bool_decide_unpack _)|by apply (bool_decide_unpack _)].
    change ([] ++ (mv base <$> ns)) with (mv base <$> ns) in E.
    cbn [st2 world disk] in Hmoved, Hrest.
    apply copyFiles_Throw in E as (c & st4 & -> & Hroll & _ & C4 & F4 & D4).
    destruct (rollback_run (mv base <$> ns) main st4) as (st5 & E5 & _ & T5 & _).
    rewrite Hroll in E5. injection E5 as <-.
    destruct (transitivity C3 C4) as (calls & Tc & Fc).
    assert (Hns : ∀ n, n ∈ ns → n ∈ legacy_names) by (intros n Hn; by apply Hsub).
    exists c, ([Mkdir backup; Mkdir main] ++ calls), ns. split; [done|]. split.
    { rewrite T5, Tc, T2, <-!app_assoc. done. }
    rewrite length_app, <-drop_drop. cbn [length]. rewrite <-F2, <-Fc. intros Hnf.
    assert (Hat4 : Forall (λ n,
              is_Some (get (join (join base "v1-backup") n) (disk (world st4))) ∧
              get (join base n) (disk (world st4)) = None) ns).
    { rewrite Forall_forall in Hmoved |- *. intros n Hn.
      destruct (Hmoved n Hn) as (H1 & H2 & _).
      rewrite (F4 (join (join base "v1-backup") n)) by apply diverge_main_backup.
      rewrite (F4 (join base n)).
      2:{ apply diverge_main_base. by apply legacy_names_spec, Hns. }
      done. }
    assert (Hb' : "v1-backup" ∉ ns).
    { intros Hin. by apply Hns, legacy_names_spec in Hin as [? _]. }
    assert (Hm' : "main" ∉ ns).
    { intros Hin. by apply Hns, legacy_names_spec in Hin as [_ ?]. }
    destruct (rollback_restores base ns st4 st' Hroll Hnd Hb' Hm' Hnf (D4 D3) Hat4)
      as [Hgone Hback].
    split; [done|]. intros n Hn. rewrite <-L2 by done.
    destruct (decide (n ∈ ns)) as [Hin|Hout].
    + rewrite Forall_forall in Hback, Hmoved. rewrite (Hback n Hin).
      destruct (Hmoved n Hin) as (_ & _ & H3).
      rewrite (F4 (join (join base "v1-backup") n)) by apply diverge_main_backup.
      exact H3.
    + rewrite <-(Hrest n) by done.
      pose proof (legacy_names_spec n Hn) as [Hnb Hnm].
      rewrite <-(F4 (join base n)) by by apply diverge_main_base.
      eapply (frame_rollback_same_at (join base n)); [| |exact Hroll].
      * by apply diverge_main_base.
      * apply Forall_fmap, Forall_forall. intros n' Hn'. simpl.
        assert (n' ≠ n) by (by intros ->). split.
        -- by apply diverge_join.
        -- by apply diverge_backup_base.
Qed.

End MigrationFailure.

Section MigrationScenario.
Import Storage Fs.
#[local] Open Scope M_scope.

(** C1, as stated, fails, in both its parts. When the move of the record
    file fails, the error is thrown and no call of the rollback is made.
    When a copy fails and then the rename back fails, the record file is
    neither in the base directory nor in "main": it is in the backup
    directory only. *)
Lemma migration_failure_not_rolled_back :
  (let r := migrateV1ToV2 (Scenario2.legacy [false; false; false; true]) in
   r.1 = Throw (MigrationFailed
                  (BackupRequiredFailed "data.json"
                     (IOError (Rename (join Scenario2.base "data.json")
                                 (join (join Scenario2.base "v1-backup") "data.json"))))) ∧
   Forall not_rmdir (trace (world r.2))) ∧
  (let r := migrateV1ToV2
              (Scenario2.legacy [false; false; false; false; false; false; true; false; true]) in
   (∃ cause, r.1 = Throw (MigrationFailed cause)) ∧
   is_file (join Scenario2.base "data.json") Scenario2.legacy_disk = true ∧
   get (join Scenario2.base "data.json") (disk (world r.2)) = None ∧
   get (join Scenario2.base "main") (disk (world r.2)) = None ∧
   is_file (join (join Scenario2.base "v1-backup") "data.json") (disk (world r.2)) = true).
Proof.
  split.
  - vm_compute. split; [done|]. by repeat constructor.
  - vm_compute. repeat split. by eexists.
Qed.

Lemma migration_failure_witness :
  let st := Scenario2.legacy [false; false; false; false; false; false; true] in
  let e := MigrationFailed (CopyToMainFailed (IOError
             (CopyFile (join (join Scenario2.base "v1-backup") "data.json")
                       (join (join Scenario2.base "main") "data.json")))) in
  let st' := (migrateV1ToV2 st).2 in
  migrateV1ToV2 st = (Throw e, st') ∧
  ((∃ cause pre ns,
     e = MigrationFailed (CopyToMainFailed cause) ∧
     trace (world st') =
       trace (world st) ++ pre ++
       rollback_calls (join Scenario2.base "main") (mv Scenario2.base <$> ns) ∧
     (Forall (λ b, b = false)
             (take (S (length ns)) (drop (length pre) (faults (world st)))) →
      get (join Scenario2.base "main") (disk (world st')) = None ∧
      ∀ n, n ∈ legacy_names →
           get (join Scenario2.base n) (disk (world st')) =
           get (join Scenario2.base n) (disk (world st))))
   ∨
   (∃ cause calls,
     e = MigrationFailed cause ∧ (∀ c, cause ≠ CopyToMainFailed c) ∧
     trace (world st') = trace (world st) ++ calls ∧ Forall not_rmdir calls ∧
     ∀ n, n ∈ legacy_names →
          get (join Scenario2.base n) (disk (world st')) =
          get (join Scenario2.base n) (disk (world st)))).
Proof.
  intros st e st'.
  assert (E : migrateV1ToV2 st = (Throw e, st')) by (by vm_compute).
  split; [exact E|]. exact (migration_failure st e st' E).
Defined.

Lemma migration_twice_is_noop_witness :
  let r := migrateV1ToV2 (Scenario2.legacy []) in
  r = (Ok (), r.2) ∧
  get (join Scenario2.base "data.json") (disk (world r.2)) = None ∧
  (isV1Project r.2).1 = Ok false ∧
  disk (world (migrateIfV1 r.2).2) = disk (world r.2).
Proof.
  intros r. assert (E : r = (Ok (), r.2)) by (by vm_compute).
  split; [exact E|].
  destruct (migration_twice_is_noop _ _ E) as [H1 H2]. split; [exact H1|].
  destruct (H2 r.2) as (H3 & _ & H4); [by vm_compute|done|]. by split.
Defined.

End MigrationScenario.

(** ** Strings *)

Lemma append_cons (x : ascii) (a b : string) : String x a +:+ b = String x (a +:+ b).
Proof. done. Qed.

Lemma append_nil_l (b : string) : "" +:+ b = b.
Proof. done. Qed.

Lemma append_assoc (a b c : string) : (a +:+ b) +:+ c = a +:+ (b +:+ c).
Proof. induction a as [|x a IH]; [done|]. rewrite !append_cons. by f_equal. Qed.

Lemma append_nil_r (a : string) : a +:+ "" = a.
Proof. induction a as [|x a IH]; [done|]. rewrite append_cons. by f_equal. Qed.

Lemma length_append (a b : string) :
  String.length (a +:+ b) = String.length a + String.length b.
Proof. induction a as [|x a IH]; [done|]. rewrite append_cons. simpl. by f_equal. Qed.

Ltac str_norm :=
  repeat first [rewrite append_assoc | rewrite append_cons | rewrite append_nil_l].

(** ** JSON: the text read back *)
Section JsonText.

Import Js.

(** *** White space *)

Lemma skip_ws_indent n s : skip_ws (indent n +:+ s) = skip_ws s.
Proof.
  induction n as [|n IH]; [done|]. simpl indent.
  by rewrite append_assoc, !append_cons, append_nil_l.
Qed.

Lemma skip_ws_nl s : skip_ws (nl +:+ s) = skip_ws s.
Proof. done. Qed.

(** *** Strings *)

Lemma parse_chars_escape_char c r :
  parse_chars (escape_char c +:+ r) = cons_result (String c "") (parse_chars r).
Proof.
  destruct c as [[] [] [] [] [] [] [] []]; reflexivity.
Qed.

Lemma parse_chars_escape s rest :
  parse_chars (escape s +:+ String dquote rest) = Some (s, rest).
Proof.
  induction s as [|c s IH]; [done|]. simpl escape.
  by rewrite append_assoc, parse_chars_escape_char, IH.
Qed.

(** *** Numbers *)

Lemma string_forallb_app f a b :
  string_forallb f (a +:+ b) = string_forallb f a && string_forallb f b.
Proof.
  induction a as [|x a IH]; [done|]. rewrite append_cons. simpl.
  by rewrite IH, andb_assoc.
Qed.

Lemma digits_value_app acc a b :
  digits_value acc (a +:+ b) = digits_value (digits_value acc a) b.
Proof.
  revert acc; induction a as [|x a IH]; intros acc; [done|]. rewrite append_cons. simpl.
  by rewrite IH.
Qed.

Lemma span_digits ds rest :
  string_forallb is_digit ds = true → delim rest →
  span is_digit (ds +:+ rest) = (ds, rest).
Proof.
  intros Hds Hrest. induction ds as [|c ds IH].
  - rewrite append_nil_l. destruct rest as [|c rest]; [done|].
    simpl in *. by destruct Hrest as [-> | ->].
  - rewrite append_cons. simpl in *. apply andb_true_iff in Hds as [-> Hds].
    by rewrite IH.
Qed.

Lemma pretty_N_char_digit d :
  (d < 10)%N → is_digit (pretty_N_char d) = true ∧ (code (pretty_N_char d) - 48)%N = d.
Proof.
  intros Hd.
  assert (d = 0 ∨ d = 1 ∨ d = 2 ∨ d = 3 ∨ d = 4 ∨ d = 5 ∨ d = 6 ∨ d = 7 ∨ d = 8 ∨ d = 9)%N
    as H by lia.
  by destruct H as [->|[->|[->|[->|[->|[->|[->|[->|[->| ->]]]]]]]]].
Qed.

Lemma pretty_N_char_nonzero d :
  (0 < d < 10)%N → pretty_N_char d ≠ "0"%char.
Proof.
  intros Hd.
  assert (d = 1 ∨ d = 2 ∨ d = 3 ∨ d = 4 ∨ d = 5 ∨ d = 6 ∨ d = 7 ∨ d = 8 ∨ d = 9)%N
    as H by lia.
  by destruct H as [->|[->|[->|[->|[->|[->|[->|[->| ->]]]]]]]].
Qed.

(** The digits [pretty] writes for [x]: they read back as [x] and do not
    start with a zero. *)
Lemma pretty_N_go_digits x s :
  ∃ ds, pretty_N_go x s = ds +:+ s ∧
        string_forallb is_digit ds = true ∧ digits_value 0 ds = x ∧
        ((0 < x)%N → ∃ c ds', ds = String c ds' ∧ c ≠ "0"%char) ∧
        (x = 0%N → ds = "").
Proof.
  revert s. induction (N.lt_wf_0 x) as [x _ IH]; intros s.
  destruct (decide (x = 0%N)) as [->|Hx].
  { exists "". rewrite pretty_N_go_0. repeat split; try done; lia. }
  rewrite pretty_N_go_step by lia.
  assert (x `div` 10 < x)%N as Hlt by (apply N.div_lt; lia).
  assert (x `mod` 10 < 10)%N as Hmod by (by apply N.mod_lt).
  destruct (pretty_N_char_digit _ Hmod) as [Hdig Hval].
  destruct (IH _ Hlt (String (pretty_N_char (x `mod` 10)) s))
    as (ds & -> & Hds & Hv & Hpos & Hzero).
  exists (ds +:+ String (pretty_N_char (x `mod` 10)) "").
  split; [by rewrite append_assoc|]. split; [|split; [|split]].
  - rewrite string_forallb_app, Hds. simpl. by rewrite Hdig.
  - rewrite digits_value_app, Hv. simpl. rewrite Hval.
    rewrite (N.div_mod x 10) at 3 by done. lia.
  - intros _. destruct (decide (x `div` 10 = 0)%N) as [Hd|Hd].
    + rewrite (Hzero Hd). rewrite append_nil_l. eexists _, _. split; [done|].
      apply pretty_N_char_nonzero. split; [|done].
      rewrite (N.div_mod x 10) in Hx by done. lia.
    + destruct Hpos as (c & ds' & -> & Hc); [lia|]. rewrite append_cons. eauto.
  - done.
Qed.

Lemma number_body_digits neg ds rest :
  string_forallb is_digit ds = true →
  (ds = "0" ∨ ∃ c ds', ds = String c ds' ∧ c ≠ "0"%char) →
  delim rest →
  number_body neg (ds +:+ rest) =
  Some (JNum (if neg then - Z.of_N (digits_value 0 ds) else Z.of_N (digits_value 0 ds))%Z, rest).
Proof.
  intros Hds Hcanon Hrest. unfold number_body. rewrite span_digits by done.
  assert (bool_decide (ds = "") = false) as ->.
  { apply bool_decide_eq_false. by destruct Hcanon as [->|(c & ds' & -> & _)]. }
  assert (String.prefix "0" ds && negb (bool_decide (ds = "0")) = false) as ->.
  { destruct Hcanon as [->|(c & ds' & -> & Hc)]; [done|].
    destruct (String.prefix "0" (String c ds')) eqn:E; [|done].
    apply String.prefix_correct in E. simpl in E. by injection E as [= -> _]. }
  destruct rest as [|c rest]; [done|]. simpl in Hrest.
  by destruct Hrest as [-> | ->].
Qed.

Lemma parse_number_cons c r :
  parse_number (String c r) =
  if bool_decide (c = "-"%char) then number_body true r else number_body false (String c r).
Proof. done. Qed.

(** [pretty z] reads back as [z]. *)
Lemma parse_number_pretty z rest :
  delim rest → parse_number (pretty z +:+ rest) = Some (JNum z, rest).
Proof.
  intros Hrest. unfold pretty, pretty_Z. destruct z as [|p|p].
  - rewrite append_cons, parse_number_cons, bool_decide_false by done.
    rewrite <-append_cons, number_body_digits; [done|done|by left|done].
  - unfold pretty, pretty_positive, pretty, pretty_N. rewrite decide_False by done.
    destruct (pretty_N_go_digits (N.pos p) "") as (ds & E & Hds & Hv & Hpos & _).
    rewrite E, append_nil_r. destruct Hpos as (c & ds' & -> & Hc); [lia|].
    rewrite append_cons, parse_number_cons, bool_decide_false.
    2:{ intros ->. simpl in Hds. done. }
    rewrite <-append_cons, number_body_digits; [by rewrite Hv|done|eauto|done].
  - unfold pretty, pretty_positive, pretty, pretty_N. rewrite decide_False by done.
    destruct (pretty_N_go_digits (N.pos p) "") as (ds & E & Hds & Hv & Hpos & _).
    rewrite E, append_nil_r. str_norm. rewrite parse_number_cons.
    rewrite bool_decide_true by done. destruct Hpos as (c & ds' & -> & Hc); [lia|].
    rewrite number_body_digits; [by rewrite Hv|done|eauto|done].
Qed.

Lemma pretty_Z_head (z : Z) :
  ∃ c r, pretty z = String c r ∧ (c = "-"%char ∨ is_digit c = true).
Proof.
  unfold pretty, pretty_Z. destruct z as [|p|p].
  - eexists _, _. split; [done|]. by right.
  - unfold pretty, pretty_positive, pretty, pretty_N. rewrite decide_False by done.
    destruct (pretty_N_go_digits (N.pos p) "") as (ds & E & Hds & Hv & Hpos & _).
    rewrite E, append_nil_r. destruct Hpos as (c & ds' & -> & Hc); [lia|].
    eexists _, _. split; [done|]. right. simpl in Hds. by apply andb_true_iff in Hds as [? _].
  - eexists _, _. split; [done|]. by left.
Qed.

End JsonText.

(** *** Values *)
Section JsonValues.

Import Js.

Lemma skip_ws_idemp s : skip_ws (skip_ws s) = skip_ws s.
Proof.
  induction s as [|c s IH]; [done|]. simpl.
  destruct (is_ws c) eqn:E; [done|]. simpl. by rewrite E.
Qed.

Lemma parse_value_S f s :
  parse_value (S f) s =
  match skip_ws s with
  | "" => None
  | String c r =>
      if bool_decide (c = "{"%char) then
        match skip_ws r with
        | "" => None
        | String c' r' =>
            if bool_decide (c' = "}"%char) then Some (JObj [], r')
            else '(ms, r'') ← parse_members f (String c' r'); Some (JObj ms, r'')
        end
      else if bool_decide (c = "["%char) then
        match skip_ws r with
        | "" => None
        | String c' r' =>
            if bool_decide (c' = "]"%char) then Some (JArr [], r')
            else '(xs, r'') ← parse_elements f (String c' r'); Some (JArr xs, r'')
        end
      else if bool_decide (c = dquote) then
        '(t, r') ← parse_chars r; Some (JStr t, r')
      else if bool_decide (c = "-"%char) || is_digit c then parse_number (String c r)
      else if bool_decide (c = "t"%char) then literal "true" (JBool true) (String c r)
      else if bool_decide (c = "f"%char) then literal "false" (JBool false) (String c r)
      else if bool_decide (c = "n"%char) then literal "null" JNull (String c r)
      else None
  end.
Proof. done. Qed.

Lemma parse_elements_S f s :
  parse_elements (S f) s =
  '(x, r) ← parse_value f s;
  match skip_ws r with
  | "" => None
  | String c r' =>
      if bool_decide (c = ","%char)
      then '(xs, r'') ← parse_elements f r'; Some (x :: xs, r'')
      else if bool_decide (c = "]"%char) then Some ([x], r')
      else None
  end.
Proof. done. Qed.

Lemma parse_members_S f s :
  parse_members (S f) s =
  match skip_ws s with
  | "" => None
  | String c r =>
      if bool_decide (c = dquote) then
        '(k, r1) ← parse_chars r;
        match skip_ws r1 with
        | "" => None
        | String c1 r2 =>
            if bool_decide (c1 = ":"%char) then
              '(x, r3) ← parse_value f r2;
              match skip_ws r3 with
              | "" => None
              | String c3 r4 =>
                  if bool_decide (c3 = ","%char)
                  then '(ms, r5) ← parse_members f r4; Some ((k, x) :: ms, r5)
                  else if bool_decide (c3 = "}"%char) then Some ([(k, x)], r4)
                  else None
              end
            else None
        end
      else None
  end.
Proof. done. Qed.

Lemma parse_value_skip f s : parse_value f (skip_ws s) = parse_value f s.
Proof. destruct f; [done|]. by rewrite !parse_value_S, skip_ws_idemp. Qed.

Lemma parse_elements_skip f s : parse_elements f (skip_ws s) = parse_elements f s.
Proof. destruct f; [done|]. by rewrite !parse_elements_S, parse_value_skip. Qed.

Lemma parse_members_skip f s : parse_members f (skip_ws s) = parse_members f s.
Proof. destruct f; [done|]. by rewrite !parse_members_S, skip_ws_idemp. Qed.

Lemma skip_ws_nl_indent n s : skip_ws (nl +:+ indent n +:+ s) = skip_ws s.
Proof. by rewrite skip_ws_nl, skip_ws_indent. Qed.

Lemma parse_value_indent f n s :
  parse_value f (nl +:+ indent n +:+ s) = parse_value f s.
Proof. by rewrite <-parse_value_skip, skip_ws_nl_indent, parse_value_skip. Qed.

Lemma parse_elements_indent f n s :
  parse_elements f (nl +:+ indent n +:+ s) = parse_elements f s.
Proof. by rewrite <-parse_elements_skip, skip_ws_nl_indent, parse_elements_skip. Qed.

Lemma parse_members_indent f n s :
  parse_members f (nl +:+ indent n +:+ s) = parse_members f s.
Proof. by rewrite <-parse_members_skip, skip_ws_nl_indent, parse_members_skip. Qed.

(** The equations of [print] on non-empty arrays and objects. *)
Lemma print_arr ind x xs :
  print ind (JArr (x :: xs)) =
  "[" +:+ nl +:+ indent (S ind) +:+ print (S ind) x +:+ more_elements ind xs +:+
  nl +:+ indent ind +:+ "]".
Proof.
  cbn [print]. do 5 f_equal. induction xs as [|y xs IH]; [done|].
  cbn [more_elements]. by rewrite <-IH.
Qed.

Lemma print_obj ind k x ms :
  print ind (JObj ((k, x) :: ms)) =
  "{" +:+ nl +:+ indent (S ind) +:+ quote k +:+ ": " +:+ print (S ind) x +:+
  more_members ind ms +:+ nl +:+ indent ind +:+ "}".
Proof.
  cbn [print]. do 7 f_equal. induction ms as [|[k' y] ms IH]; [done|].
  cbn [more_members]. by rewrite <-IH.
Qed.

Lemma weight_arr xs : weight (JArr xs) = S (elements_weight xs).
Proof.
  done.
Qed.

Lemma weight_obj ms : weight (JObj ms) = S (members_weight ms).
Proof.
  done.
Qed.

Lemma digit_start c :
  is_digit c = true →
  is_ws c = false ∧ c ≠ "]"%char ∧ c ≠ "}"%char ∧ c ≠ "{"%char ∧ c ≠ "["%char ∧
  c ≠ dquote.
Proof. destruct c as [[] [] [] [] [] [] [] []]; done. Qed.

(** The text of a value starts with a character that is not white space
    and closes nothing. *)
Lemma print_head ind v :
  plain v →
  ∃ c r, print ind v = String c r ∧ is_ws c = false ∧ c ≠ "]"%char ∧ c ≠ "}"%char.
Proof.
  destruct 1 as [|[]|z|s|[|x xs] _|[|[k x] ms] _]; try (by eexists _, _).
  destruct (pretty_Z_head z) as (c & r & E & Hc). exists c, r. split; [done|].
  destruct Hc as [->|Hc]; [done|]. by destruct (digit_start c Hc) as (?&?&?&_).
Qed.

Lemma skip_ws_print ind v rest :
  plain v → skip_ws (print ind v +:+ rest) = print ind v +:+ rest.
Proof.
  intros Hv. destruct (print_head ind v Hv) as (c & r & -> & Hws & _).
  rewrite append_cons. simpl. by rewrite Hws.
Qed.

Lemma skip_ws_quote k s : skip_ws (quote k +:+ s) = quote k +:+ s.
Proof. done. Qed.

Lemma skip_ws_comma s : skip_ws ("," +:+ s) = "," +:+ s.
Proof. done. Qed.

Lemma parse_value_str f s :
  parse_value (S f) (String dquote s) = '(t, r') ← parse_chars s; Some (JStr t, r').
Proof. done. Qed.

Lemma parse_value_arr f s :
  parse_value (S f) ("[" +:+ s) =
  match skip_ws s with
  | "" => None
  | String c' r' =>
      if bool_decide (c' = "]"%char) then Some (JArr [], r')
      else '(xs, r'') ← parse_elements f (String c' r'); Some (JArr xs, r'')
  end.
Proof. done. Qed.

Lemma parse_value_obj f s :
  parse_value (S f) ("{" +:+ s) =
  match skip_ws s with
  | "" => None
  | String c' r' =>
      if bool_decide (c' = "}"%char) then Some (JObj [], r')
      else '(ms, r'') ← parse_members f (String c' r'); Some (JObj ms, r'')
  end.
Proof. done. Qed.

Lemma parse_value_num f c r :
  c = "-"%char ∨ is_digit c = true →
  parse_value (S f) (String c r) = parse_number (String c r).
Proof.
  intros Hc. rewrite parse_value_S.
  assert (is_ws c = false ∧ c ≠ "{"%char ∧ c ≠ "["%char ∧ c ≠ dquote) as (Hws & ? & ? & ?).
  { destruct Hc as [->|Hc]; [done|]. by destruct (digit_start c Hc) as (?&?&?&?&?&?). }
  simpl skip_ws. rewrite Hws. rewrite !bool_decide_false by done.
  by destruct Hc as [->| ->]; [|rewrite orb_true_r].
Qed.

Lemma parse_members_quote f k s :
  parse_members (S f) (quote k +:+ ": " +:+ s) =
  '(x, r3) ← parse_value f s;
  match skip_ws r3 with
  | "" => None
  | String c3 r4 =>
      if bool_decide (c3 = ","%char)
      then '(ms, r5) ← parse_members f r4; Some ((k, x) :: ms, r5)
      else if bool_decide (c3 = "}"%char) then Some ([(k, x)], r4)
      else None
  end.
Proof.
  rewrite parse_members_S, skip_ws_quote. unfold quote. rewrite append_cons, append_assoc.
  rewrite bool_decide_true by done. rewrite append_cons, append_nil_l, parse_chars_escape.
  cbn [mbind option_bind]. change (skip_ws (": " +:+ s)) with (String ":" (String " " s)).
  cbv beta iota. rewrite bool_decide_true by done.
  by rewrite <-(parse_value_skip f (String " " s)), <-(parse_value_skip f s).
Qed.

Lemma weight_pos v : (0 < weight v)%nat.
Proof. destruct v; simpl; lia. Qed.

Lemma delim_more_elements ind xs s : delim (more_elements ind xs +:+ nl +:+ s).
Proof. destruct xs; [by right|by left]. Qed.

Lemma delim_more_members ind ms s : delim (more_members ind ms +:+ nl +:+ s).
Proof. destruct ms as [|[]]; [by right|by left]. Qed.

(** Reading back what [print] wrote, with enough fuel. *)
Lemma parse_print f :
  (∀ v ind rest, plain v → (weight v ≤ f)%nat → delim rest →
     parse_value f (print ind v +:+ rest) = Some (v, rest)) ∧
  (∀ x xs ind rest, plain x → Forall plain xs → (elements_weight (x :: xs) ≤ f)%nat →
     parse_elements f (print (S ind) x +:+ more_elements ind xs +:+
                       nl +:+ indent ind +:+ "]" +:+ rest) = Some (x :: xs, rest)) ∧
  (∀ k x ms ind rest, plain x → Forall (λ m, plain m.2) ms →
     (members_weight ((k, x) :: ms) ≤ f)%nat →
     parse_members f (quote k +:+ ": " +:+ print (S ind) x +:+ more_members ind ms +:+
                      nl +:+ indent ind +:+ "}" +:+ rest) = Some ((k, x) :: ms, rest)).
Proof.
  induction f as [|f (IHv & IHe & IHm)].
  { split; [|split].
    - intros v ???? . pose proof (weight_pos v). lia.
    - intros ??????. cbn [elements_weight]. lia.
    - intros ???????. cbn [members_weight]. lia. }
  split; [|split].
  - intros v ind rest Hv Hw Hrest.
    destruct Hv as [|b|z|s|xs Hxs|ms Hms].
    + done.
    + by destruct b.
    + cbn [print]. destruct (pretty_Z_head z) as (c & r & E & Hc).
      rewrite E, append_cons, parse_value_num by done.
      rewrite <-append_cons, <-E. by apply parse_number_pretty.
    + cbn [print]. unfold quote. rewrite append_cons, parse_value_str, append_assoc.
      rewrite append_cons, append_nil_l, parse_chars_escape. done.
    + destruct xs as [|x xs]; [done|]. rewrite print_arr, weight_arr in *.
      apply Forall_cons in Hxs as [Hx Hxs].
      rewrite append_assoc, parse_value_arr. rewrite !append_assoc.
      rewrite skip_ws_nl_indent, skip_ws_print by done.
      destruct (print_head (S ind) x Hx) as (c' & r' & E & _ & Hc' & _).
      rewrite E. rewrite append_cons. rewrite bool_decide_false by done.
      rewrite <-append_cons, <-E. change (String "]" rest) with ("]" +:+ rest).
      rewrite IHe; [done..|lia].
    + destruct ms as [|[k x] ms]; [done|]. rewrite print_obj, weight_obj in *.
      apply Forall_cons in Hms as [Hx Hms]. simpl in Hx.
      rewrite append_assoc, parse_value_obj. rewrite !append_assoc.
      rewrite skip_ws_nl_indent, skip_ws_quote.
      unfold quote at 1. rewrite append_cons. rewrite bool_decide_false by done.
      rewrite <-append_cons. fold (quote k). change (String "}" rest) with ("}" +:+ rest).
      rewrite IHm; [done..|lia].
  - intros x xs ind rest Hx Hxs Hw. cbn [elements_weight] in Hw.
    rewrite parse_elements_S, IHv; [|done|lia|apply delim_more_elements].
    cbn [mbind option_bind]. destruct xs as [|y ys].
    + cbn [more_elements]. by rewrite append_nil_l, skip_ws_nl_indent.
    + apply Forall_cons in Hxs as [Hy Hys].
      cbn [more_elements]. rewrite append_assoc, skip_ws_comma, append_cons, append_nil_l.
      rewrite bool_decide_true by done. rewrite !append_assoc.
      change (String "]" rest) with ("]" +:+ rest).
      rewrite parse_elements_indent, IHe; [done..|lia].
  - intros k x ms ind rest Hx Hms Hw. cbn [members_weight] in Hw.
    rewrite parse_members_quote, IHv; [|done|lia|apply delim_more_members].
    cbn [mbind option_bind]. destruct ms as [|[k' y] ms'].
    + cbn [more_members]. by rewrite append_nil_l, skip_ws_nl_indent.
    + apply Forall_cons in Hms as [Hy Hms]. simpl in Hy.
      cbn [more_members]. rewrite append_assoc, skip_ws_comma, append_cons, append_nil_l.
      rewrite bool_decide_true by done. rewrite !append_assoc.
      change (String "}" rest) with ("}" +:+ rest).
      rewrite parse_members_indent, IHm; [done..|lia].
Qed.

Lemma weight_le_length n :
  ∀ v ind, plain v → (weight v ≤ n)%nat → (weight v ≤ String.length (print ind v))%nat.
Proof.
  induction n as [|n IHn]; intros v ind Hv Hw.
  { pose proof (weight_pos v). lia. }
  destruct Hv as [|b|z|s|xs Hxs|ms Hms].
  - simpl. lia.
  - destruct b; simpl; lia.
  - cbn [print]. destruct (pretty_Z_head z) as (c & r & -> & _). simpl. lia.
  - simpl. lia.
  - destruct xs as [|x xs]; [simpl; lia|]. rewrite print_arr, weight_arr in *.
    apply Forall_cons in Hxs as [Hx Hxs]. cbn [elements_weight] in *.
    assert (∀ l, Forall plain l → (elements_weight l ≤ n)%nat →
                 (elements_weight l ≤ String.length (more_elements ind l))%nat) as Hl.
    { induction l as [|y l IHl]; intros HF Hb; [simpl; lia|].
      apply Forall_cons in HF as [Hy HF]. cbn [elements_weight more_elements] in *.
      rewrite !length_append. cbn [String.length].
      pose proof (IHn y (S ind) Hy). pose proof (IHl HF). lia. }
    rewrite !length_append. cbn [String.length].
    pose proof (IHn x (S ind) Hx). pose proof (Hl xs Hxs). lia.
  - destruct ms as [|[k x] ms]; [simpl; lia|]. rewrite print_obj, weight_obj in *.
    apply Forall_cons in Hms as [Hx Hms]. cbn [members_weight] in *. simpl in Hx.
    assert (∀ l, Forall (λ m, plain m.2) l → (members_weight l ≤ n)%nat →
                 (members_weight l ≤ String.length (more_members ind l))%nat) as Hl.
    { induction l as [|[k' y] l IHl]; intros HF Hb; [simpl; lia|].
      apply Forall_cons in HF as [Hy HF]. cbn [members_weight more_members] in *.
      rewrite !length_append. cbn [String.length]. simpl in Hy.
      pose proof (IHn y (S ind) Hy). pose proof (IHl HF). lia. }
    rewrite !length_append. cbn [String.length].
    pose proof (IHn x (S ind) Hx). pose proof (Hl ms Hms). lia.
Qed.

(** [JSON.parse(JSON.stringify(v, null, 2))] is [v]. *)
Lemma parse_stringify v : plain v → parse (stringify v) = Some v.
Proof.
  intros Hv. unfold parse, stringify.
  pose proof (weight_le_length _ v 0 Hv (le_n _)) as Hw.
  destruct (parse_print (2 * String.length (print 0 v) + 2)) as [H _].
  specialize (H v 0 "" Hv). rewrite append_nil_r in H. rewrite H; [done|lia|done].
Qed.

End JsonValues.

(** ** The record file read back *)
Section CodecLemmas.

Import Js Codec.

Lemma decode_encode_goal g : decode_goal (encode_goal g) = Some g.
Proof. by destruct g. Qed.

Lemma decode_encode_todo t : decode_todo (encode_todo t) = Some t.
Proof. by destruct t as [? ? ? ? [c|] ? ? ?]. Qed.

Lemma decode_encode_plan p : decode_plan (encode_plan p) = Some p.
Proof.
  destruct p as [g ts u]. unfold decode_plan, encode_plan. cbn [as_object mbind option_bind].
  change (field "goalId" _) with (Some (JStr g)).
  change (field "todos" _) with (Some (JArr (encode_todo <$> ts))).
  change (field "updatedAt" _) with (Some (JStr u)).
  cbn [as_string as_array mbind option_bind ImplementationPlan.goalId
       ImplementationPlan.todos ImplementationPlan.updatedAt].
  by rewrite (mapM_fmap_Some _ _ _ decode_encode_todo).
Qed.

Lemma decode_encode_map {A} (enc : A → json) (dec : json → option A) (m : gmap string A) :
  (∀ a, dec (enc a) = Some a) → decode_map dec (encode_map enc m) = Some m.
Proof.
  intros H. unfold decode_map, encode_map. cbn [as_object mbind option_bind].
  rewrite (mapM_fmap_Some (decode_member dec) (prod_map id enc)).
  2:{ intros [k a]. unfold decode_member. simpl. by rewrite H. }
  cbn [mbind option_bind]. f_equal.
  rewrite <-(list_to_map_to_list m) at 2.
  symmetry. apply list_to_map_proper; [apply NoDup_fst_map_to_list|].
  by rewrite reverse_Permutation.
Qed.

Lemma decode_encode d : decode (encode d) = Some d.
Proof.
  destruct d as [gs ps]. unfold decode, encode. cbn [as_object mbind option_bind].
  change (field "goals" _) with (Some (encode_map encode_goal gs)).
  change (field "plans" _) with (Some (encode_map encode_plan ps)).
  cbn [mbind option_bind].
  rewrite (decode_encode_map _ _ _ decode_encode_goal).
  cbn [mbind option_bind].
  by rewrite (decode_encode_map _ _ _ decode_encode_plan).
Qed.

Lemma plain_encode_goal g : plain (encode_goal g).
Proof. constructor. repeat constructor. Qed.

Lemma plain_encode_todo t : plain (encode_todo t).
Proof. constructor. destruct (Todo.codeExample t); repeat constructor. Qed.

Lemma plain_encode_plan p : plain (encode_plan p).
Proof.
  constructor. repeat constructor. simpl. apply Forall_fmap, Forall_forall.
  intros t _. apply plain_encode_todo.
Qed.

Lemma plain_encode_map {A} (enc : A → json) (m : gmap string A) :
  (∀ a, plain (enc a)) → plain (encode_map enc m).
Proof.
  intros H. constructor. apply Forall_fmap, Forall_forall. intros [k a] _. apply H.
Qed.

Lemma plain_encode d : plain (encode d).
Proof.
  constructor.
  apply Forall_cons. split; [apply plain_encode_map, plain_encode_goal|].
  apply Forall_cons. split; [apply plain_encode_map, plain_encode_plan|].
  constructor.
Qed.

End CodecLemmas.

Section JSONLemmas.
Import Storage.

(** [JSON.parse(JSON.stringify(data, null, 2))] is [data]. *)
Lemma JSON_parse_stringify d : JSON_parse (JSON_stringify d) = ret d.
Proof.
  unfold JSON_parse, JSON_stringify.
  by rewrite (parse_stringify _ (plain_encode d)), decode_encode.
Qed.

End JSONLemmas.

(** ** [initialize] *)
Section Initialize.

Import Fs Storage.

Lemma migrateIfV1_absent st :
  get (join (baseStorageDir (self st)) "data.json") (disk (world st)) = None →
  ∃ st', migrateIfV1 st = (Ok (), st') ∧
         self st' = self st ∧ disk (world st') = disk (world st) ∧
         faults (world st') = tail (faults (world st)).
Proof.
  intros H. destruct (isV1Project_absent st H) as (st' & E & ?). exists st'.
  split; [|done]. unfold migrateIfV1. by rewrite (bind_Ok _ _ _ _ _ E).
Qed.

(** With no legacy record file and no failing call, [initialize] loads
    the record file of the current plan, whatever the record in memory
    was. *)
Lemma initialize_loads st d :
  wf (self st) → faults (world st) = [] →
  get (join (baseStorageDir (self st)) "data.json") (disk (world st)) = None →
  get (storagePath (self st)) (disk (world st)) = Some (File (JSON_stringify d)) →
  ∃ st', initialize st = (Ok (), st') ∧ self st' = with_data d (self st) ∧
         disk (world st') = disk (world st) ∧ faults (world st') = [].
Proof.
  intros Hwf Hf Hlegacy Hfile.
  destruct (wf_paths _ Hwf) as (_ & _ & _ & Hsp & _).
  assert (is_dir (cursorDir (self st)) (disk (world st)) = true) as Hdir.
  { rewrite Hsp in Hfile. by eapply get_join_Some_is_dir. }
  unfold initialize. rewrite try_catch_rethrow.
  set (st1 := mkState (with_data StorageData.empty (self st)) (world st)).
  rewrite (bind_Ok _ _ st () st1) by done.
  destruct (migrateIfV1_absent st1 Hlegacy) as (st2 & E2 & Hs2 & Hd2 & Hf2).
  rewrite (bind_Ok _ _ _ _ _ E2).
  rewrite (bind_Ok _ _ st2 (self st2) st2) by done.
  simpl in Hf2. rewrite Hf in Hf2. simpl in Hf2.
  rewrite Hs2. cbn [st1 self cursorDir storagePath with_data].
  erewrite bind_Ok.
  2:{ apply await_ok; [done|]. unfold mkdir_sem. rewrite Hd2. simpl.
      by rewrite (mkdirp_exists _ _ Hdir). }
  erewrite try_catch_Ok.
  2:{ erewrite bind_Ok.
      2:{ apply await_ok; [done|]. unfold readFile_sem. simpl. by rewrite Hfile. }
      rewrite JSON_parse_stringify. erewrite bind_Ok by done. done. }
  eexists. split; [done|]. simpl. by rewrite Hs2.
Qed.

End Initialize.

(** ** Switching plans *)

Section Switching.
Import Fs Storage.
#[local] Open Scope M_scope.

Lemma listed_plan st name :
  no_fault (world st) →
  is_dir (join (baseStorageDir (self st)) name) (disk (world st)) = true →
  name ≠ "v1-backup" →
  ∃ plans st',
    listPlans st = (Ok plans, st') ∧ name ∈ plans ∧
    self st' = self st ∧ disk (world st') = disk (world st) ∧
    faults (world st') = tail (faults (world st)).
Proof.
  intros Hnf Hdir Hne. destruct (listPlans_run st Hnf) as (st' & E & Hrest).
  eexists _, st'. split; [exact E|]. split; [|done].
  unfold is_dir in Hdir. rewrite get_join in Hdir.
  destruct (get (baseStorageDir (self st)) (disk (world st))) as [[c|es]|]; try done.
  destruct (es !! name) as [[c|es']|] eqn:En; try done.
  unfold Js.sort. rewrite merge_sort_Permutation. apply list_elem_of_fmap.
  exists (name, KDir). split; [done|]. apply list_elem_of_filter. split; [done|].
  apply list_elem_of_fmap. exists (name, Dir es'). split; [done|].
  by apply elem_of_map_to_list.
Qed.

Lemma valid_name_not_file n : sanitizePlanName n = n → n ≠ "data.json".
Proof. intros H ->. by vm_compute in H. Qed.

(** Selecting a plan whose record file holds [d] loads [d]. *)
Lemma setActivePlan_loads st name d :
  baseStorageDir (self st) = [".cursor"; "softwareplan"] →
  faults (world st) = [] → no_legacy st →
  sanitizePlanName name = name → name ≠ "v1-backup" → record_at name d st →
  ∃ st', setActivePlan name st = (Ok (), st') ∧
         self st' = with_data d (updatePaths (with_currentPlan name (self st))) ∧
         disk (world st') = disk (world st) ∧ faults (world st') = [].
Proof.
  intros Hbase Hf Hlegacy Hname Hne Hrec. unfold setActivePlan.
  rewrite bool_decide_false by (intros H; by apply H).
  destruct (listed_plan st name) as (plans & st1 & E & Hin & Hs1 & Hd1 & Hf1);
    [by apply no_fault_nil|by eapply get_join_Some_is_dir|done|].
  rewrite (bind_Ok _ _ _ _ _ E), bool_decide_true by done.
  set (st2 := mkState (updatePaths (with_currentPlan name (self st1))) (world st1)).
  assert ((set_currentPlan name ;; assign updatePaths ;; initialize) st1 = initialize st2)
    as -> by done.
  rewrite Hf in Hf1. simpl in Hf1.
  assert (self st2 = updatePaths (with_currentPlan name (self st))) as Hs2
    by (by unfold st2; simpl; rewrite Hs1).
  destruct (initialize_loads st2 d) as (st3 & E3 & Hs3 & Hd3 & Hf3).
  - apply updatePaths_wf.
  - done.
  - rewrite Hs2, updatePaths_eq. simpl. rewrite Hd1. unfold no_legacy in Hlegacy.
    by rewrite Hbase in Hlegacy.
  - rewrite Hs2, updatePaths_eq. simpl. rewrite Hd1, Hname. unfold record_at in Hrec.
    by rewrite Hbase in Hrec.
  - exists st3. rewrite Hs3, Hd3, Hs2. done.
Qed.

(** The outcome of [initialize] does not depend on the record in memory. *)
Lemma initialize_resets st d0 :
  initialize (mkState (with_data d0 (self st)) (world st)) = initialize st.
Proof. done. Qed.

End Switching.

Section InitializeOutcome.
Import Fs Storage.
#[local] Open Scope M_scope.

Lemma migrateIfV1_self st r st' : migrateIfV1 st = (r, st') → self st' = self st.
Proof.
  apply (frame_migrateIfV1_gen same_self). intros A c f. apply frame_await_self.
Qed.

Lemma readFile_cases p st :
  let st1 d := mkState (self st)
                 (mkWorld d (tail (faults (world st))) (trace (world st) ++ [ReadFile p])) in
  (∃ c, get p (disk (world st)) = Some (File c) ∧
        Storage.readFile p st = (Ok c, st1 (disk (world st)))) ∨
  Storage.readFile p st = (Throw (IOError (ReadFile p)), st1 (disk (world st))).
Proof.
  intros st1.
  destruct (await_cases (ReadFile p) (readFile_sem p) st)
    as [(c & d' & _ & Hsem & E)|(_ & E)]; [left|by right].
  unfold readFile_sem in Hsem.
  destruct (get p (disk (world st))) as [[c'|]|] eqn:Hg; try done.
  injection Hsem as -> <-. by exists c.
Qed.

(** However [initialize] ends, the record in memory afterwards is the
    empty one or the one read from the record file: nothing of the record
    that was in memory before stays. *)
Lemma initialize_outcome st r st' :
  initialize st = (r, st') → r ≠ Untyped →
  data (self st') = StorageData.empty ∨
  ∃ c, get (storagePath (self st)) (disk (world st')) = Some (File c) ∧
       JSON_parse c = ret (data (self st')).
Proof.
  unfold initialize. rewrite try_catch_rethrow. intros E Hr.
  set (st1 := mkState (with_data StorageData.empty (self st)) (world st)).
  rewrite (bind_Ok _ _ st () st1) in E by done.
  unfold bind at 1 in E. destruct (migrateIfV1 st1) as [r2 st2] eqn:E2.
  pose proof (migrateIfV1_self _ _ _ E2) as Hs2.
  destruct r2 as [[]|e|]; [|injection E as <- <-; left; by rewrite Hs2|by injection E as <-].
  rewrite (bind_Ok _ _ st2 (self st2) st2) in E by done.
  unfold bind at 1 in E.
  destruct (mkdir_cases (cursorDir (self st2)) st2)
    as (r3 & d3 & E3 & [(-> & _)|(-> & _)]); rewrite E3 in E;
    [|injection E as <- <-; left; by rewrite Hs2].
  set (st3 := mkState _ _) in E.
  assert (∀ stx r st', self stx = self st2 → save stx = (r, st') →
            data (self st') = StorageData.empty) as Hsave.
  { intros stx r' st'' Hx E'. apply save_frame_self in E'. unfold same_self in E'.
    by rewrite E', Hx, Hs2. }
  unfold try_catch in E. unfold bind at 1 in E.
  destruct (readFile_cases (storagePath (self st2)) st3) as [(c & Hc & Er)| Er];
    rewrite Er in E; cbv beta iota in E; [|left; by refine (Hsave _ _ _ _ E)].
  unfold bind at 1 in E. unfold JSON_parse at 1 in E.
  destruct c as [s|? ? ?|? ?]; try (left; by refine (Hsave _ _ _ _ E)).
  destruct (Js.parse s) as [v|] eqn:Hp; [|left; by refine (Hsave _ _ _ _ E)].
  destruct (Codec.decode v) as [d|] eqn:Hd; [|by injection E as <-].
  injection E as <- <-. right. exists (Text s). rewrite Hs2 in Hc.
  split; [done|]. unfold JSON_parse. by rewrite Hp, Hd.
Qed.

End InitializeOutcome.

(** ** Round trips *)
Section RoundTrips.

Import Fs Storage.
#[local] Open Scope M_scope.

(** C5: when the files of the current plan can be written and no legacy
    record file lies in the base directory, [save] succeeds, and then
    [initialize] on an instance with the same paths, whatever record it
    holds in memory (a new instance holds the empty one), succeeds and
    leaves in memory the record that was saved. *)
Theorem save_initialize_round_trip st :
  can_save st → no_legacy st →
  ∃ st1, save st = (Ok (), st1) ∧
    ∀ d0, ∃ st2,
      initialize (mkState (with_data d0 (self st1)) (world st1)) = (Ok (), st2) ∧
      data (self st2) = data (self st).
Proof.
  intros Hcs Hlegacy. destruct (save_ok st Hcs) as (st1 & E & Hf1).
  destruct Hcs as (Hwf & _). exists st1. split; [done|]. intros d0.
  pose proof (save_spec _ _ _ Hwf E) as Hout.
  inversion Hout as [|Hs1 Hframe Hfile Hdir]; subst.
  destruct (wf_paths _ Hwf) as (Hname & _ & Hcd & _).
  destruct (initialize_loads (mkState (with_data d0 (self st1)) (world st1))
              (data (self st))) as (st2 & E2 & Hs2 & _).
  - apply wf_with_data. by rewrite Hs1.
  - done.
  - simpl. rewrite Hs1, Hframe; [done|]. rewrite Hcd.
    by apply diverge_join, valid_name_not_file.
  - simpl. by rewrite Hs1.
  - exists st2. split; [done|]. by rewrite Hs2.
Qed.

Lemma save_initialize_round_trip_witness :
  ∃ st1, save Scenario.feat_x = (Ok (), st1) ∧
    ∀ d0, ∃ st2,
      initialize (mkState (with_data d0 (self st1)) (world st1)) = (Ok (), st2) ∧
      data (self st2) = data (self Scenario.feat_x).
Proof. apply save_initialize_round_trip; [apply feat_x_can_save|by vm_compute]. Defined.

(** C3: let plan [A] be selected, its record file hold the record in
    memory, and plan [B] have a record file. With no failing call and no
    legacy record file, selecting [B] loads [B]'s record; after any
    activity that changes the tree inside [B]'s directory only, selecting
    [A] loads the record [A] had. For [initialize] assigns the empty record
    before it reads anything: from any state, its outcome is the same
    whatever record is in memory when it is called, and however it ends the
    record in memory is the empty one or the one read from the record file
    of the current plan. *)
Theorem switch_and_back st A B dB :
  wf (self st) → faults (world st) = [] → no_legacy st →
  currentPlan (self st) = A → record_at A (data (self st)) st → A ≠ "v1-backup" →
  sanitizePlanName B = B → B ≠ "v1-backup" → B ≠ A → record_at B dB st →
  (∃ st1, setActivePlan B st = (Ok (), st1) ∧ data (self st1) = dB ∧
     ∀ st1', local_activity st1 st1' →
       ∃ st2, setActivePlan A st1' = (Ok (), st2) ∧
              data (self st2) = data (self st) ∧ currentPlan (self st2) = A) ∧
  (∀ st0 d0, initialize (mkState (with_data d0 (self st0)) (world st0)) = initialize st0) ∧
  (∀ st0 r st', initialize st0 = (r, st') → r ≠ Untyped →
     data (self st') = StorageData.empty ∨
     ∃ c, get (storagePath (self st0)) (disk (world st')) = Some (File c) ∧
          JSON_parse c = ret (data (self st'))).
Proof.
  intros Hwf Hf Hlegacy HA HrecA HneA HB HneB HAB HrecB.
  split; [|split; [intros st0 d0; apply initialize_resets|apply initialize_outcome]].
  destruct (wf_paths _ Hwf) as (Hname & Hbase & _). rewrite HA in Hname.
  destruct (setActivePlan_loads st B dB) as (st1 & E1 & Hs1 & Hd1 & Hf1); try done.
  exists st1. split; [done|]. split; [by rewrite Hs1|].
  intros st1' ([d' Hs1'] & Hf1' & Hframe).
  assert (baseStorageDir (self st1') = [".cursor"; "softwareplan"]) as Hbase'
    by (by rewrite Hs1', Hs1, updatePaths_eq).
  assert (cursorDir (self st1) = join [".cursor"; "softwareplan"] B) as Hcd.
  { rewrite Hs1, updatePaths_eq. simpl. by rewrite HB. }
  destruct (setActivePlan_loads st1' A (data (self st))) as (st2 & E2 & Hs2 & _);
    try done.
  - unfold no_legacy. rewrite Hbase', Hframe, Hd1.
    + unfold no_legacy in Hlegacy. by rewrite Hbase in Hlegacy.
    + rewrite Hcd. by apply diverge_join, valid_name_not_file.
  - unfold record_at. rewrite Hbase', Hframe, Hd1.
    + unfold record_at in HrecA. by rewrite Hbase in HrecA.
    + rewrite Hcd. by apply diverge_app_r, diverge_join.
  - exists st2. split; [done|]. rewrite Hs2, updatePaths_eq. simpl. by rewrite Hname.
Qed.

Lemma switch_and_back_witness :
  (∃ st1, setActivePlan "feat-y" Scenario3.two_plans = (Ok (), st1) ∧
     data (self st1) = StorageData.empty ∧
     ∀ st1', local_activity st1 st1' →
       ∃ st2, setActivePlan "feat-x" st1' = (Ok (), st2) ∧
              data (self st2) = data (self Scenario3.two_plans) ∧
              currentPlan (self st2) = "feat-x") ∧
  (∀ st0 d0, initialize (mkState (with_data d0 (self st0)) (world st0)) = initialize st0) ∧
  (∀ st0 r st', initialize st0 = (r, st') → r ≠ Untyped →
     data (self st') = StorageData.empty ∨
     ∃ c, get (storagePath (self st0)) (disk (world st')) = Some (File c) ∧
          JSON_parse c = ret (data (self st'))).
Proof.
  apply (switch_and_back Scenario3.two_plans "feat-x" "feat-y" StorageData.empty);
    by vm_compute.
Defined.

End RoundTrips.

(** ** Dates *)
Section Dates.

Import Js.

(** *** The calendar *)

Lemma range_forallb_spec f n z k :
  range_forallb f n z = true → (z ≤ k < z + Z.of_nat n)%Z → f k = true.
Proof.
  revert z. induction n as [|n IH]; intros z H Hk; [lia|].
  cbn [range_forallb] in H. apply andb_true_iff in H as [H1 H2].
  destruct (decide (k = z)) as [->|Hne]; [done|].
  apply (IH (z + 1)%Z); [done|lia].
Qed.

Lemma era_days_ok : range_forallb era_day_ok (Z.to_nat 146097) 0 = true.
Proof. by vm_compute. Qed.

Lemma civil_of_era_spec doe :
  (0 ≤ doe < 146097)%Z →
  ∃ yoe m d, civil_of_era doe = (yoe, m, d) ∧
    (0 ≤ yoe < 400 ∧ 1 ≤ m ≤ 12 ∧ 1 ≤ d ≤ 31)%Z ∧ day_of_era yoe m d = doe.
Proof.
  intros Hdoe. pose proof (range_forallb_spec _ _ _ doe era_days_ok) as H.
  rewrite Z2Nat.id in H by done. specialize (H ltac:(lia)).
  unfold era_day_ok in H. destruct (civil_of_era doe) as [[yoe m] d].
  exists yoe, m, d. split; [done|].
  rewrite !andb_true_iff in H.
  destruct H as [[[[[[H1 H2] H3] H4] H5] H6] H7].
  apply Z.leb_le in H1, H3, H4, H5, H6. apply Z.ltb_lt in H2. apply Z.eqb_eq in H7.
  done.
Qed.

Lemma civil_from_days_eq days :
  civil_from_days days =
  let z := (days + 719468)%Z in
  let '(yoe, m, d) := civil_of_era (z `mod` 146097) in
  ((yoe + z `div` 146097 * 400 + (if m <=? 2 then 1 else 0))%Z, m, d).
Proof. done. Qed.

Lemma civil_from_days_spec days :
  ∃ y m d, civil_from_days days = (y, m, d) ∧ (1 ≤ m ≤ 12 ∧ 1 ≤ d ≤ 31)%Z ∧
           days_from_civil (y, m, d) = days.
Proof.
  rewrite civil_from_days_eq. cbv zeta.
  assert (0 ≤ (days + 719468) `mod` 146097 < 146097)%Z as Hdoe by (by apply Z.mod_pos_bound).
  destruct (civil_of_era_spec _ Hdoe) as (yoe & m & d & -> & (Hy & Hm & Hd) & Hinv).
  eexists _, _, _. split; [done|]. split; [done|].
  unfold days_from_civil.
  set (era := ((days + 719468) `div` 146097)%Z) in *.
  assert ((if (m <=? 2)%Z then yoe + era * 400 + (if (m <=? 2)%Z then 1 else 0) - 1
           else yoe + era * 400 + (if (m <=? 2)%Z then 1 else 0)) = yoe + era * 400)%Z as ->.
  { destruct (m <=? 2)%Z; lia. }
  assert ((yoe + era * 400) `div` 400 = era)%Z as ->.
  { rewrite Z.div_add by done. rewrite Z.div_small by lia. lia. }
  assert ((yoe + era * 400) `mod` 400 = yoe)%Z as ->.
  { rewrite Z.mod_add by done. apply Z.mod_small. lia. }
  rewrite Hinv. unfold era.
  pose proof (Z.div_mod (days + 719468) 146097 ltac:(done)). lia.
Qed.

(** *** The time of day *)

Lemma time_of_day ms :
  let r := (ms `mod` 86400000)%Z in
  let h := (r `div` 3600000)%Z in
  let mi := ((r `div` 60000) `mod` 60)%Z in
  let s := ((r `div` 1000) `mod` 60)%Z in
  let f := (r `mod` 1000)%Z in
  (0 ≤ h < 24 ∧ 0 ≤ mi < 60 ∧ 0 ≤ s < 60 ∧ 0 ≤ f < 1000)%Z ∧
  (ms = ms `div` 86400000 * 86400000 + h * 3600000 + mi * 60000 + s * 1000 + f)%Z.
Proof. cbv zeta. Z.div_mod_to_equations. lia. Qed.

(** *** The digits *)

Lemma zeros_S n :
  String.concat "" (replicate (S n) "0") = String "0" (String.concat "" (replicate n "0")).
Proof. by destruct n. Qed.

Lemma zeros_digits n acc :
  string_forallb is_digit (String.concat "" (replicate n "0")) = true ∧
  digits_value acc (String.concat "" (replicate n "0")) = (acc * 10 ^ N.of_nat n)%N.
Proof.
  revert acc. induction n as [|n IH]; intros acc.
  { split; [done|]. simpl. lia. }
  rewrite zeros_S. split.
  - simpl. apply IH. exact 0%N.
  - cbn [digits_value]. rewrite (proj2 (IH _)).
    change (code "0" - 48)%N with 0%N. rewrite Nat2N.inj_succ, N.pow_succ_r'. lia.
Qed.

Lemma pretty_digits (z : Z) :
  (0 ≤ z)%Z →
  string_forallb is_digit (pretty z) = true ∧
  digits_value 0 (pretty z) = Z.to_N z ∧ pretty z ≠ "".
Proof.
  intros Hz. unfold pretty, pretty_Z. destruct z as [|p|p]; [done| |lia].
  unfold pretty, pretty_positive, pretty, pretty_N. rewrite decide_False by done.
  destruct (pretty_N_go_digits (N.pos p) "") as (ds & E & Hds & Hv & Hpos & _).
  rewrite E, append_nil_r. destruct Hpos as (c & ds' & -> & Hc); [lia|]. done.
Qed.

(** [pad] writes digits, which read back as the number. *)
Lemma pad_digits w z :
  (0 ≤ z)%Z →
  string_forallb is_digit (pad w z) = true ∧
  digits_value 0 (pad w z) = Z.to_N z ∧ pad w z ≠ "".
Proof.
  intros Hz. destruct (pretty_digits z Hz) as (H1 & H2 & H3). unfold pad. cbv zeta.
  destruct (zeros_digits (w - String.length (pretty z)) 0) as [Z1 Z2].
  split; [|split].
  - by rewrite string_forallb_app, Z1, H1.
  - by rewrite digits_value_app, Z2, N.mul_0_l.
  - intros H. apply (f_equal String.length) in H. rewrite length_append in H.
    destruct (pretty z); [done|]. simpl in H. lia.
Qed.

Lemma pad_inj w z1 z2 : (0 ≤ z1)%Z → (0 ≤ z2)%Z → pad w z1 = pad w z2 → z1 = z2.
Proof.
  intros H1 H2 E. apply (f_equal (digits_value 0)) in E.
  rewrite (proj1 (proj2 (pad_digits w z1 H1))), (proj1 (proj2 (pad_digits w z2 H2))) in E.
  lia.
Qed.

Lemma pad2_lengths : range_forallb (pad_length_ok 2) 100 0 = true.
Proof. by vm_compute. Qed.

Lemma pad3_lengths : range_forallb (pad_length_ok 3) 1000 0 = true.
Proof. by vm_compute. Qed.

Lemma pad2_length z : (0 ≤ z < 100)%Z → String.length (pad 2 z) = 2.
Proof.
  intros Hz. pose proof (range_forallb_spec _ _ _ z pad2_lengths ltac:(lia)) as H.
  by apply bool_decide_eq_true in H.
Qed.

Lemma pad3_length z : (0 ≤ z < 1000)%Z → String.length (pad 3 z) = 3.
Proof.
  intros Hz. pose proof (range_forallb_spec _ _ _ z pad3_lengths ltac:(lia)) as H.
  by apply bool_decide_eq_true in H.
Qed.

(** *** The text *)

Lemma append_inj_l (a a' b b' : string) :
  String.length a = String.length a' → a +:+ b = a' +:+ b' → a = a' ∧ b = b'.
Proof.
  revert a'. induction a as [|x a IH]; intros [|x' a'] Hl E; try done.
  rewrite !append_cons in E. injection E as -> E. simpl in Hl.
  destruct (IH a' ltac:(lia) E) as [-> ->]. done.
Qed.

Lemma append_inj_r (a a' b b' : string) :
  String.length b = String.length b' → a +:+ b = a' +:+ b' → a = a' ∧ b = b'.
Proof.
  intros Hl E. apply append_inj_l; [|done].
  apply (f_equal String.length) in E. rewrite !length_append in E. lia.
Qed.

Lemma year_text_inj y1 y2 : year_text y1 = year_text y2 → y1 = y2.
Proof.
  unfold year_text.
  destruct ((0 <=? y1) && (y1 <=? 9999))%Z eqn:E1, ((0 <=? y2) && (y2 <=? 9999))%Z eqn:E2.
  - apply andb_true_iff in E1 as [?%Z.leb_le _], E2 as [?%Z.leb_le _]. by apply pad_inj.
  - apply andb_true_iff in E1 as [?%Z.leb_le _]. intros E.
    destruct (pad_digits 4 y1 ltac:(done)) as (Hd & _). rewrite E in Hd.
    by destruct (y2 <? 0)%Z.
  - apply andb_true_iff in E2 as [?%Z.leb_le _]. intros E.
    destruct (pad_digits 4 y2 ltac:(done)) as (Hd & _). rewrite <-E in Hd.
    by destruct (y1 <? 0)%Z.
  - apply andb_false_iff in E1, E2. intros E.
    assert (pad 6 (Z.abs y1) = pad 6 (Z.abs y2) ∧ (y1 <? 0)%Z = (y2 <? 0)%Z) as [Hp Hs].
    { destruct (y1 <? 0)%Z, (y2 <? 0)%Z; rewrite !append_cons, !append_nil_l in E;
        by injection E. }
    apply pad_inj in Hp; [|lia..].
    destruct (Z.ltb_spec y1 0), (Z.ltb_spec y2 0); try done; lia.
Qed.

Lemma time_text_length m d h mi s f :
  (0 ≤ m < 100 ∧ 0 ≤ d < 100 ∧ 0 ≤ h < 100 ∧ 0 ≤ mi < 100 ∧ 0 ≤ s < 100 ∧ 0 ≤ f < 1000)%Z →
  String.length (time_text m d h mi s f) = 20.
Proof.
  intros (Hm & Hd & Hh & Hmi & Hs & Hf). unfold time_text.
  rewrite !length_append, !pad2_length, pad3_length by done. done.
Qed.

Lemma time_text_inj m d h mi s f m' d' h' mi' s' f' :
  (0 ≤ m < 100 ∧ 0 ≤ d < 100 ∧ 0 ≤ h < 100 ∧ 0 ≤ mi < 100 ∧ 0 ≤ s < 100 ∧ 0 ≤ f < 1000)%Z →
  (0 ≤ m' < 100 ∧ 0 ≤ d' < 100 ∧ 0 ≤ h' < 100 ∧ 0 ≤ mi' < 100 ∧ 0 ≤ s' < 100 ∧
   0 ≤ f' < 1000)%Z →
  time_text m d h mi s f = time_text m' d' h' mi' s' f' →
  m = m' ∧ d = d' ∧ h = h' ∧ mi = mi' ∧ s = s' ∧ f = f'.
Proof.
  intros (Hm & Hd & Hh & Hmi & Hs & Hf) (Hm' & Hd' & Hh' & Hmi' & Hs' & Hf') E.
  unfold time_text in E.
  repeat match type of E with
  | String ?c _ = String ?c _ => injection E as E
  | String _ _ +:+ _ = _ => rewrite !append_cons, !append_nil_l in E
  | pad ?w ?a +:+ _ = pad ?w ?b +:+ _ =>
      apply append_inj_l in E as [?%pad_inj E];
        [|lia|lia|by rewrite ?pad2_length, ?pad3_length by done]
  end.
  repeat split; done.
Qed.

Lemma toISOString_text ms :
  ∃ y m d h mi s f,
    toISOString ms = year_text y +:+ time_text m d h mi s f ∧
    (1 ≤ m ≤ 12 ∧ 1 ≤ d ≤ 31 ∧ 0 ≤ h < 24 ∧ 0 ≤ mi < 60 ∧ 0 ≤ s < 60 ∧ 0 ≤ f < 1000)%Z ∧
    (ms = days_from_civil (y, m, d) * 86400000 + h * 3600000 + mi * 60000 + s * 1000 + f)%Z.
Proof.
  unfold toISOString.
  destruct (civil_from_days_spec (ms `div` 86400000)) as (y & m & d & -> & (Hm & Hd) & Hinv).
  destruct (time_of_day ms) as ((Hh & Hmi & Hs & Hf) & Hms). cbv zeta in *.
  eexists y, m, d, _, _, _, _. split; [|split; [|by rewrite Hinv]].
  - done.
  - done.
Qed.

(** [toISOString] tells any two times apart. *)
Lemma toISOString_inj ms1 ms2 : toISOString ms1 = toISOString ms2 → ms1 = ms2.
Proof.
  destruct (toISOString_text ms1) as (y1 & m1 & d1 & h1 & mi1 & s1 & f1 & -> & R1 & ->).
  destruct (toISOString_text ms2) as (y2 & m2 & d2 & h2 & mi2 & s2 & f2 & -> & R2 & ->).
  intros E. apply append_inj_r in E as [Hy Ht].
  2:{ rewrite !time_text_length; [done|lia|lia]. }
  apply year_text_inj in Hy as ->.
  apply time_text_inj in Ht as (-> & -> & -> & -> & -> & ->); [done|lia|lia].
Qed.

End Dates.

(** *** The timestamps of a new todo *)
Section TodoTimes.

Import Storage Fs.
#[local] Open Scope M_scope.

(** C10, as stated, fails: [createdAt] and [updatedAt] come from two reads
    of the clock, and differ when the clock advances between them. *)
Lemma addTodo_createdAt_not_updatedAt :
  let r := addTodo Scenario.goalId (mkFields "T" "D" 1 None) 1700000000001 1700000000001
             1700000000002 1700000000002 Scenario.feat_x in
  ∃ todo, r.1 = Ok todo ∧ Todo.createdAt todo = "2023-11-14T22:13:20.001Z" ∧
          Todo.updatedAt todo = "2023-11-14T22:13:20.002Z" ∧
          Todo.createdAt todo ≠ Todo.updatedAt todo.
Proof. vm_compute. eexists. by repeat split. Qed.

(** C10, amended: a todo returned by [addTodo] has [isComplete] false, has
    for [createdAt] and [updatedAt] the ISO forms of the second and third
    reads of the clock, which are equal exactly when those two reads are,
    and is the last of the plan's todo sequence, after the todos that were
    there. *)
Theorem addTodo_returns_new_todo goalId fields t1 t2 t3 t4 st todo st' :
  addTodo goalId fields t1 t2 t3 t4 st = (Ok todo, st') →
  Todo.isComplete todo = false ∧
  Todo.createdAt todo = Js.toISOString t2 ∧
  Todo.updatedAt todo = Js.toISOString t3 ∧
  (Todo.createdAt todo = Todo.updatedAt todo ↔ t2 = t3) ∧
  ∃ plan plan',
    plan_of goalId st = Some plan ∧ plan_of goalId st' = Some plan' ∧
    ImplementationPlan.todos plan' = ImplementationPlan.todos plan ++ [todo].
Proof.
  intros E. destruct (plan_of goalId st) as [plan|] eqn:Hp.
  2:{ rewrite addTodo_no_plan in E by done. by destruct (bool_decide _). }
  pose proof (addTodo_plan goalId fields t1 t2 t3 t4 st plan Hp) as H2.
  rewrite E in H2. simpl in H2. rewrite (addTodo_run _ _ _ _ _ _ _ _ Hp) in E.
  destruct (save_then_ret (new_todo fields t1 t2 t3) (with_plan goalId
       (ImplementationPlan.mk (ImplementationPlan.goalId plan)
          (ImplementationPlan.todos plan ++ [new_todo fields t1 t2 t3])
          (Js.toISOString t4)) st)) as (_ & _ & H).
  rewrite E in H. destruct (H todo eq_refl) as [-> _].
  repeat split; try done.
  - apply toISOString_inj.
  - by intros ->.
  - eauto.
Qed.

(** In [Scenario.one_todo], where the plan holds a todo, a call whose reads
    of the clock differ returns a todo that comes second in the plan, with
    [createdAt] other than [updatedAt]. *)
Lemma addTodo_returns_new_todo_witness :
  let fields := mkFields "second" "D" 2 None in
  let r := addTodo Scenario.goalId fields 1700000000002 1700000000002 1700000000003
             1700000000003 Scenario.one_todo in
  let first := new_todo (mkFields "first" "D" 1 None) 1700000000001 1700000000001
                 1700000000001 in
  let todo := new_todo fields 1700000000002 1700000000002 1700000000003 in
  r = (Ok todo, r.2) ∧
  Todo.isComplete todo = false ∧
  Todo.createdAt todo ≠ Todo.updatedAt todo ∧
  ∃ plan', plan_of Scenario.goalId r.2 = Some plan' ∧
           ImplementationPlan.todos plan' = [first; todo].
Proof.
  intros fields r first todo.
  assert (E : r = (Ok todo, r.2)) by (by vm_compute).
  split; [exact E|].
  pose proof (addTodo_returns_new_todo _ _ _ _ _ _ _ _ _ E)
    as (H1 & _ & _ & H4 & plan & plan' & Hp & Hp' & Htodos).
  split; [exact H1|]. split.
  - intros H. by apply H4 in H.
  - exists plan'. split; [exact Hp'|]. rewrite Htodos.
    rewrite one_todo_plan in Hp. by injection Hp as <-.
Defined.

End TodoTimes.
